(** * Word-chain game: the rule engine, the computer opponent and the
      snapshot codec of [src/app.js] and of its older copy
      [src/unnamed/part_000].

    The two files declare the same classes ([Player], [ComputerPlayer],
    [HumanPlayer], [WordGame]) with small differences; the data types are
    shared below and each file's methods live in a module of their own,
    [App] for [src/app.js] and [Part000] for [src/unnamed/part_000]. *)

From Stdlib Require Import ZArith NArith List Lia String Ascii.
From stdpp Require Import base option list gmap sets.

Local Open Scope Z_scope.

(** ** JavaScript strings

    A JS string is a sequence of UTF-16 code units; [length] counts
    code units and [s[i]] reads one of them ([undefined] out of range). *)

Definition jsstring : Type := list N.

(** Source literals are written as Rocq strings (UTF-8 bytes) and turned
    into code units by [js]. *)
Fixpoint utf16_of_utf8 (bs : list N) : list N :=
  match bs with
  | [] => []
  | b :: r =>
    if (b <? 128)%N then b :: utf16_of_utf8 r
    else if (b <? 224)%N then
      match r with
      | c :: r1 => ((b mod 32) * 64 + c mod 64)%N :: utf16_of_utf8 r1
      | _ => []
      end
    else if (b <? 240)%N then
      match r with
      | c :: d :: r2 =>
          ((b mod 16) * 4096 + (c mod 64) * 64 + d mod 64)%N :: utf16_of_utf8 r2
      | _ => []
      end
    else
      match r with
      | c :: d :: e :: r3 =>
          let cp := ((b mod 8) * 262144 + (c mod 64) * 4096
                     + (d mod 64) * 64 + e mod 64 - 65536)%N in
          (55296 + cp / 1024)%N :: (56320 + cp mod 1024)%N :: utf16_of_utf8 r3
      | _ => []
      end
  end.

Definition js (s : string) : jsstring :=
  utf16_of_utf8 (map N_of_ascii (list_ascii_of_string s)).

(** [x] used as a condition: a string is truthy when it is not [''];
    [null] and [undefined] are falsy. *)
Definition truthy (s : jsstring) : bool :=
  match s with [] => false | _ => true end.

(** [x || d] on a property that may be absent. *)
Definition orDefault (x : option jsstring) (d : jsstring) : jsstring :=
  match x with
  | Some s => if truthy s then s else d
  | None => d
  end.

(** [s[0]] and [s[s.length - 1]]: [None] is [undefined]. *)
Definition firstUnit (s : jsstring) : option N := head s.
Definition lastUnit (s : jsstring) : option N := last s.

(** ECMAScript WhiteSpace and LineTerminator code points, all of them in
    the Basic Multilingual Plane. *)
Definition isWhiteSpace (c : N) : bool :=
  ((9 <=? c) && (c <=? 13) || (c =? 32) || (c =? 160) || (c =? 5760)
   || (8192 <=? c) && (c <=? 8202) || (c =? 8232) || (c =? 8233)
   || (c =? 8239) || (c =? 8287) || (c =? 12288) || (c =? 65279))%N.

Fixpoint trimStart (s : jsstring) : jsstring :=
  match s with
  | c :: r => if isWhiteSpace c then trimStart r else s
  | [] => []
  end.

Definition trimEnd (s : jsstring) : jsstring := rev (trimStart (rev s)).

Definition trim (s : jsstring) : jsstring := trimEnd (trimStart s).

(** [String.prototype.toLowerCase] is the engine's Unicode case mapping.
    The development is parametric in it; nothing is assumed about it. *)
Class CaseFold := toLowerCase : jsstring → jsstring.

(** The case mapping on Basic Latin and on the Cyrillic capitals U+0400
    to U+042F, code unit by code unit; it is what the engine computes on
    the words of the word database and is used to run the code on
    concrete inputs. *)
Definition lowerUnit (c : N) : N :=
  if ((65 <=? c) && (c <=? 90))%N then (c + 32)%N
  else if ((1040 <=? c) && (c <=? 1071))%N then (c + 32)%N
  else if ((1024 <=? c) && (c <=? 1039))%N then (c + 80)%N
  else c.

Definition lowerUnits : CaseFold := map lowerUnit.

(** ** Data shared by the two files *)

(** [UserManager.currentSession]: the logged-in user. *)
Record User := { username : jsstring; role : jsstring; email : jsstring }.

(** The two subclasses of [Player] with their private fields.
    [#wordDatabase] is a JS object used as a map from category to word
    list; the map holds its own keys only, which is all a lookup sees
    for the categories of the game (properties inherited from
    [Object.prototype] are not categories). *)
Inductive Variant :=
| HumanPlayer (h_email h_username : jsstring)
| ComputerPlayer (difficulty : jsstring)
                 (wordDatabase : gmap jsstring (list jsstring)).

(** [Player]: [#name], [#score], [#id] and the subclass part. *)
Record Player := {
  name : jsstring;
  score : Z;
  playerId : jsstring;
  variant : Variant
}.

(** The private fields of the subclasses, [None] on the other class. *)
Definition difficultyOf (p : Player) : option jsstring :=
  match variant p with ComputerPlayer d _ => Some d | _ => None end.

Definition emailOf (p : Player) : option jsstring :=
  match variant p with HumanPlayer e _ => Some e | _ => None end.

Definition usernameOf (p : Player) : option jsstring :=
  match variant p with HumanPlayer _ u => Some u | _ => None end.

(** [p instanceof ComputerPlayer], [p instanceof HumanPlayer] *)
Definition isComputer (p : Player) : bool :=
  match variant p with ComputerPlayer _ _ => true | _ => false end.

Definition isHuman (p : Player) : bool :=
  match variant p with HumanPlayer _ _ => true | _ => false end.

(** [WordGame]'s private fields ([#userManager] is the statistics
    collaborator and is not part of the rule engine). *)
Record WordGame := {
  players : list Player;
  usedWords : gset jsstring;
  currentCategory : jsstring;
  lastWord : jsstring;
  isGameActive : bool;
  currentUser : option User
}.

(** The object handed to [makeMove]. *)
Record MoveState := {
  s_lastWord : jsstring;
  s_usedWords : gset jsstring;
  s_category : jsstring
}.

Definition moveState (g : WordGame) : MoveState :=
  {| s_lastWord := lastWord g; s_usedWords := usedWords g;
     s_category := currentCategory g |}.

(** What the outside world supplies during one turn: the line typed at
    the prompt of [ask] and the draw of [Math.random], kept as the
    natural number whose remainder modulo [n] is
    [Math.floor(Math.random() * n)]. *)
Record Turn := { typed : jsstring; random : nat }.

(** The plain object built by [Player.serialize] and its overrides, as
    read back by [deserialize]: [name], [score] and [id] are read
    without a default, the other properties may be absent. *)
Record PlayerData := {
  d_name : jsstring;
  d_score : Z;
  d_id : jsstring;
  d_type : option jsstring;
  d_difficulty : option jsstring;
  d_email : option jsstring;
  d_username : option jsstring
}.

(** The object built by [WordGame.serialize] and read by
    [WordGame.deserialize]; [None] is an absent property. *)
Record GameData := {
  data_players : option (list PlayerData);
  data_usedWords : option (list jsstring);
  data_currentCategory : option jsstring;
  data_lastWord : option jsstring;
  data_isGameActive : option bool;
  data_currentUser : option User
}.

(** [Player.addPoint], [Player.resetScore], [Player.serialize] and
    [Player.deserialize] are the same in both files. *)
Definition addPoint (p : Z) (pl : Player) : Player :=
  {| name := name pl; score := score pl + p; playerId := playerId pl;
     variant := variant pl |}.

Definition resetScore (pl : Player) : Player :=
  {| name := name pl; score := 0; playerId := playerId pl;
     variant := variant pl |}.

(** [this.constructor.name] *)
Definition constructorName (pl : Player) : jsstring :=
  match variant pl with
  | HumanPlayer _ _ => js "HumanPlayer"
  | ComputerPlayer _ _ => js "ComputerPlayer"
  end.

(** [serialize] of [ComputerPlayer] and [HumanPlayer]: the base object
    [{name, score, id, type}] extended with the subclass fields. *)
Definition Player_serialize (pl : Player) : PlayerData :=
  {| d_name := name pl; d_score := score pl; d_id := playerId pl;
     d_type := Some (constructorName pl);
     d_difficulty := difficultyOf pl;
     d_email := emailOf pl;
     d_username := usernameOf pl |}.

(** [players.reduce((a, b) => a.score > b.score ? a : b)], the winner
    announced by [#showWinner]; [reduce] without an initial value throws
    on an empty array ([None]). *)
Definition showWinner (ps : list Player) : option Player :=
  match ps with
  | [] => None
  | p0 :: rest =>
      Some (fold_left (λ a b, if score a >? score b then a else b) rest p0)
  end.

(** [new Set(list)] *)
Definition newSet (ws : list jsstring) : gset jsstring := list_to_set ws.

(** [WordGame.serialize], the same in both files. *)
Definition serialize (g : WordGame) : GameData :=
  {| data_players := Some (Player_serialize <$> players g);
     data_usedWords := Some (elements (usedWords g));
     data_currentCategory := Some (currentCategory g);
     data_lastWord := Some (lastWord g);
     data_isGameActive := Some (isGameActive g);
     data_currentUser := currentUser g |}.

(** [Player.deserialize]: the three base fields are overwritten from the
    data, the subclass part is left to the override. *)
Definition Player_deserialize (pl : Player) (d : PlayerData) : Player :=
  {| name := d_name d; score := d_score d; playerId := d_id d;
     variant := variant pl |}.

(** [new HumanPlayer(n, e, u)]; [rid] is the string drawn by
    [generateId]. *)
Definition newHumanPlayer (rid n e u : jsstring) : Player :=
  {| name := n; score := 0; playerId := rid; variant := HumanPlayer e u |}.

(** [HumanPlayer.makeMove]: the typed line, trimmed. *)
Definition HumanPlayer_makeMove (e : Turn) : option jsstring :=
  Some (trim (typed e)).

(** [array[i]] for an index computed by [parseInt(...) - 1]: [None]
    stands for [NaN]; a negative or too large index reads [undefined]. *)
Definition choose {A} (l : list A) (choice : option Z) : option A :=
  match choice with
  | Some z => if 1 <=? z then l !! Z.to_nat (z - 1) else None
  | None => None
  end.

(** * [src/app.js] *)
Module App.

(** [GAME_CONFIG] *)
Definition CATEGORIES : list jsstring :=
  [js "города"; js "животные"; js "растения"].
Definition DIFFICULTY_LEVELS : list jsstring :=
  [js "easy"; js "medium"; js "hard"].
Definition MIN_WORD_LENGTH : nat := 2.
Definition MAX_WORDS_FOR_WIN : nat := 5.
Definition MAX_SKIPPED_TURNS : nat := 2.

(** [Validator.validateWord]: [w && w.trim().length >= MIN_WORD_LENGTH] *)
Definition Validator_validateWord (w : jsstring) : bool :=
  truthy w && (MIN_WORD_LENGTH <=? length (trim w))%nat.

(** The literal assigned to [#wordDatabase] by the constructor of
    [ComputerPlayer]. *)
Definition initialWordDatabase : gmap jsstring (list jsstring) :=
  list_to_map
    [ (js "города",
       [js "Москва"; js "Амстердам"; js "Мадрид"; js "Лондон"; js "Осло";
        js "Киев"; js "Варшава"; js "Рим"; js "Париж"; js "Берлин"]);
      (js "животные",
       [js "Антилопа"; js "Баран"; js "Носорог"; js "Гепард"; js "Дельфин";
        js "Енот"; js "Жираф"; js "Зебра"; js "Игуана"; js "Кенгуру"]);
      (js "растения",
       [js "Акация"; js "Береза"; js "Ромашка"; js "Гвоздика"; js "Дуб";
        js "Ель"; js "Жасмин"; js "Ирис"; js "Кедр"; js "Липа"]) ].

(** [new ComputerPlayer(d)] *)
Definition newComputerPlayer (rid d : jsstring) : Player :=
  {| name := js "Компьютер"; score := 0; playerId := rid;
     variant := ComputerPlayer d initialWordDatabase |}.

Section Code.
Context `{!CaseFold}.

(** The callback of [filter] in [ComputerPlayer.makeMove]. *)
Definition isAvailable (s : MoveState) (w : jsstring) : bool :=
  let lw := toLowerCase w in
  let llw := if truthy (s_lastWord s) then toLowerCase (s_lastWord s) else [] in
  negb (bool_decide (lw ∈ s_usedWords s))
  && (negb (truthy (s_lastWord s))
      || bool_decide (firstUnit lw = lastUnit llw)).

(** The constant [words] of [ComputerPlayer.makeMove]:
    [(this.#wordDatabase[s.category] || []).filter(...)]. *)
Definition availableWords (db : gmap jsstring (list jsstring))
    (s : MoveState) : list jsstring :=
  List.filter (isAvailable s) (default [] (db !! s_category s)).

(** [ComputerPlayer.makeMove]; [None] is [null]. *)
Definition ComputerPlayer_makeMove (difficulty : jsstring)
    (db : gmap jsstring (list jsstring)) (e : Turn) (s : MoveState)
    : option jsstring :=
  let words := availableWords db s in
  match words with
  | [] => None
  | w0 :: _ =>
      if decide (difficulty = js "easy") then Some w0
      else if decide (difficulty = js "hard") then
        Some (fold_left
                (λ a b, if (length b <? length a)%nat then a else b) words w0)
      else words !! (random e mod length words)%nat
  end.

(** [player.makeMove(s)], dispatched on the class of [player]. *)
Definition makeMove (p : Player) (e : Turn) (s : MoveState)
    : option jsstring :=
  match variant p with
  | HumanPlayer _ _ => HumanPlayer_makeMove e
  | ComputerPlayer d db => ComputerPlayer_makeMove d db e s
  end.

(** [player.deserialize(d)], dispatched on the class of [player]:
    [ComputerPlayer.deserialize] and [HumanPlayer.deserialize]. *)
Definition deserializePlayer (pl : Player) (d : PlayerData) : Player :=
  let base := Player_deserialize pl d in
  {| name := name base; score := score base; playerId := playerId base;
     variant :=
       match variant pl with
       | ComputerPlayer _ db =>
           ComputerPlayer (orDefault (d_difficulty d) (js "medium")) db
       | HumanPlayer _ _ =>
           HumanPlayer (orDefault (d_email d) []) (orDefault (d_username d) [])
       end |}.

(** [WordGame.deserialize]. The identifier drawn by the constructor is
    overwritten at once by [Player.deserialize], so the model passes the
    empty string for it. [data.players.map] throws when [players] is
    absent ([None]). *)
Definition deserialize (data : GameData) : option WordGame :=
  ps ← data_players data;
  Some {| players :=
            (λ playerData,
               let player :=
                 if bool_decide (d_type playerData = Some (js "ComputerPlayer"))
                 then newComputerPlayer [] (js "medium")
                 else newHumanPlayer [] [] [] [] in
               deserializePlayer player playerData) <$> ps;
          usedWords := newSet (default [] (data_usedWords data));
          currentCategory := orDefault (data_currentCategory data) [];
          lastWord := orDefault (data_lastWord data) [];
          isGameActive := default false (data_isGameActive data);
          currentUser := data_currentUser data |}.

(** [WordGame.#validateWord] *)
Definition validateWord (g : WordGame) (w : jsstring) : bool :=
  if negb (Validator_validateWord w) then false
  else
    let lw := toLowerCase w in
    let llw := if truthy (lastWord g) then toLowerCase (lastWord g) else [] in
    if bool_decide (lw ∈ usedWords g) then false
    else if truthy (lastWord g)
            && negb (bool_decide (firstUnit lw = lastUnit llw))
    then false
    else true.

(** The condition [word && this.#validateWord(word)] of the game loop. *)
Definition accepts (g : WordGame) (word : option jsstring) : bool :=
  match word with
  | Some w => truthy w && validateWord g w
  | None => false
  end.

(** The local variables of [#gameLoop] next to the game they act on.
    [announced] is the winner printed by [#showWinner] when the loop has
    executed one of its [return] statements, [None] before that. *)
Record LoopState := {
  game : WordGame;
  playerIdx : nat;
  skipped : nat;
  round : nat;
  announced : option Player
}.

(** The [if] branch of the loop body: the word is recorded, the player
    at [playerIdx] (the object [player] itself) gets its points, and at
    [MAX_WORDS_FOR_WIN] words the game is switched off and the loop
    returns. *)
Definition acceptWord (l : LoopState) (player : Player) (word : jsstring)
    : option LoopState :=
  let g := game l in
  let lw := toLowerCase word in
  let used := {[ lw ]} ∪ usedWords g in
  let ps :=
    <[playerIdx l :=
        addPoint (Z.min (Z.of_nat (length word) / 2) 3) player]> (players g) in
  if (MAX_WORDS_FOR_WIN <=? size used)%nat then
    winner ← showWinner ps;
    Some {| game := {| players := ps; usedWords := used;
                       currentCategory := currentCategory g;
                       lastWord := word; isGameActive := false;
                       currentUser := currentUser g |};
            playerIdx := playerIdx l; skipped := 0; round := S (round l);
            announced := Some winner |}
  else
    Some {| game := {| players := ps; usedWords := used;
                       currentCategory := currentCategory g;
                       lastWord := word; isGameActive := isGameActive g;
                       currentUser := currentUser g |};
            playerIdx := (playerIdx l + 1) mod length ps;
            skipped := 0; round := S (round l); announced := None |}.

(** The [else] branch: [++skipped], and the loop returns at
    [MAX_SKIPPED_TURNS]. *)
Definition rejectWord (l : LoopState) : option LoopState :=
  let g := game l in
  let sk := S (skipped l) in
  if (MAX_SKIPPED_TURNS <=? sk)%nat then
    winner ← showWinner (players g);
    Some {| game := g; playerIdx := playerIdx l; skipped := sk;
            round := round l; announced := Some winner |}
  else
    Some {| game := g;
            playerIdx := (playerIdx l + 1) mod length (players g);
            skipped := sk; round := round l; announced := None |}.

(** The loop body once [player.makeMove] has returned [word]. *)
Definition resolveTurn (l : LoopState) (player : Player)
    (word : option jsstring) : option LoopState :=
  match word with
  | Some w =>
      if truthy w && validateWord (game l) w then acceptWord l player w
      else rejectWord l
  | None => rejectWord l
  end.

(** One iteration of the [while] loop; [this.#players[playerIdx]] is
    [undefined] out of range and reading [player.name] then throws
    ([None]). *)
Definition turn (l : LoopState) (e : Turn) : option LoopState :=
  player ← players (game l) !! playerIdx l;
  resolveTurn l player (makeMove player e (moveState (game l))).

(** The loop goes on while its condition holds and no [return] has been
    executed. *)
Definition running (l : LoopState) : bool :=
  isGameActive (game l) && (skipped l <? MAX_SKIPPED_TURNS)%nat
  && negb (bool_decide (is_Some (announced l))).

(** [#gameLoop] run on the inputs of the successive turns; inputs that
    arrive after the loop has stopped are not read. *)
Fixpoint gameLoopFrom (l : LoopState) (es : list Turn) : option LoopState :=
  match es with
  | [] => Some l
  | e :: es' =>
      if running l then l' ← turn l e; gameLoopFrom l' es' else Some l
  end.

(** [let playerIdx = 0, skipped = 0, round = 1] *)
Definition enterLoop (g : WordGame) : LoopState :=
  {| game := g; playerIdx := 0; skipped := 0; round := 1; announced := None |}.

Definition gameLoop (g : WordGame) (es : list Turn) : option LoopState :=
  gameLoopFrom (enterLoop g) es.

(** [#startNewGame] up to the call of [#gameLoop]: [cc] and [dc] are the
    results of the two [parseInt], [n] is the name typed when there is
    no player yet, [rid1] and [rid2] the identifiers drawn for the two
    new players. Reading [this.#currentUser.email] throws when nobody is
    logged in. *)
Definition startNewGame (g : WordGame) (cc dc : option Z)
    (n rid1 rid2 : jsstring) : option WordGame :=
  let category :=
    orDefault (choose CATEGORIES cc) (default [] (CATEGORIES !! 0%nat)) in
  let diff :=
    orDefault (choose [js "easy"; js "medium"; js "hard"] dc) (js "medium") in
  ps ← match players g with
       | [] =>
           u ← currentUser g;
           Some [newHumanPlayer rid1 n (email u) (username u);
                 newComputerPlayer rid2 diff]
       | _ => Some (resetScore <$> players g)
       end;
  Some {| players := ps; usedWords := ∅; currentCategory := category;
          lastWord := []; isGameActive := true;
          currentUser := currentUser g |}.

End Code.
End App.

(** * [src/unnamed/part_000] *)
Module Part000.

(** The literal assigned to [#wordDatabase] by the constructor of
    [ComputerPlayer]. *)
Definition initialWordDatabase : gmap jsstring (list jsstring) :=
  list_to_map
    [ (js "города",
       [js "Москва"; js "Амстердам"; js "Мадрид"; js "Лондон"; js "Осло";
        js "Омск"; js "Киев"; js "Варшава"; js "Афины"; js "Сочи"]);
      (js "животные",
       [js "Антилопа"; js "Баран"; js "Носорог"; js "Гепард"; js "Дельфин";
        js "Енот"; js "Жираф"; js "Зебра"; js "Игуана"; js "Кенгуру"]);
      (js "растения",
       [js "Акация"; js "Береза"; js "Ромашка"; js "Гвоздика"; js "Дуб";
        js "Ель"; js "Жасмин"; js "Ирис"; js "Кедр"; js "Липа"]) ].

(** The literal assigned to [#wordDatabase] by
    [ComputerPlayer.deserialize]. *)
Definition emptyWordDatabase : gmap jsstring (list jsstring) :=
  list_to_map [ (js "города", []); (js "животные", []); (js "растения", []) ].

(** [new ComputerPlayer(difficulty)] *)
Definition newComputerPlayer (rid difficulty : jsstring) : Player :=
  {| name := js "Компьютер"; score := 0; playerId := rid;
     variant := ComputerPlayer difficulty initialWordDatabase |}.

Section Code.
Context `{!CaseFold}.

(** [ComputerPlayer.#getAvailableWords] *)
Definition getAvailableWords (db : gmap jsstring (list jsstring))
    (lastWord : jsstring) (usedWords : gset jsstring) (category : jsstring)
    : list jsstring :=
  let words := default [] (db !! category) in
  List.filter
    (λ word,
       let lowerWord := toLowerCase word in
       let lowerLastWord := if truthy lastWord then toLowerCase lastWord else [] in
       let isNewWord := negb (bool_decide (lowerWord ∈ usedWords)) in
       let isValidSequence :=
         negb (truthy lastWord)
         || bool_decide (firstUnit lowerWord = lastUnit lowerLastWord) in
       isNewWord && isValidSequence)
    words.

(** [ComputerPlayer.#selectWordByDifficulty]; [words[0]] and
    [words[i]] read [undefined] ([None]) on an empty array. *)
Definition selectWordByDifficulty (difficulty : jsstring) (e : Turn)
    (words : list jsstring) : option jsstring :=
  if decide (difficulty = js "easy") then words !! 0%nat
  else if decide (difficulty = js "hard") then
    w0 ← words !! 0%nat;
    Some (fold_left
            (λ longest current,
               if (length longest <? length current)%nat then current
               else longest)
            words w0)
  else words !! (random e mod length words)%nat.

(** [ComputerPlayer.makeMove]; [None] is [null]. *)
Definition ComputerPlayer_makeMove (difficulty : jsstring)
    (db : gmap jsstring (list jsstring)) (e : Turn) (gameState : MoveState)
    : option jsstring :=
  let availableWords :=
    getAvailableWords db (s_lastWord gameState) (s_usedWords gameState)
      (s_category gameState) in
  if (length availableWords =? 0)%nat then None
  else selectWordByDifficulty difficulty e availableWords.

(** [player.makeMove(gameState)], dispatched on the class of [player]. *)
Definition makeMove (p : Player) (e : Turn) (gameState : MoveState)
    : option jsstring :=
  match variant p with
  | HumanPlayer _ _ => HumanPlayer_makeMove e
  | ComputerPlayer d db => ComputerPlayer_makeMove d db e gameState
  end.

(** [player.deserialize(data)], dispatched on the class of [player];
    the override of [ComputerPlayer] also replaces the word database. *)
Definition deserializePlayer (pl : Player) (data : PlayerData) : Player :=
  let base := Player_deserialize pl data in
  {| name := name base; score := score base; playerId := playerId base;
     variant :=
       match variant pl with
       | ComputerPlayer _ _ =>
           ComputerPlayer (orDefault (d_difficulty data) (js "medium"))
                          emptyWordDatabase
       | HumanPlayer _ _ =>
           HumanPlayer (orDefault (d_email data) [])
                       (orDefault (d_username data) [])
       end |}.

(** [WordGame.deserialize], as in [src/app.js]. *)
Definition deserialize (data : GameData) : option WordGame :=
  ps ← data_players data;
  Some {| players :=
            (λ playerData,
               let player :=
                 if bool_decide (d_type playerData = Some (js "ComputerPlayer"))
                 then newComputerPlayer [] (js "medium")
                 else newHumanPlayer [] [] [] [] in
               deserializePlayer player playerData) <$> ps;
          usedWords := newSet (default [] (data_usedWords data));
          currentCategory := orDefault (data_currentCategory data) [];
          lastWord := orDefault (data_lastWord data) [];
          isGameActive := default false (data_isGameActive data);
          currentUser := data_currentUser data |}.

(** [WordGame.#validateWord(word, lastWord, usedWords)] *)
Definition validateWord (word lastWord : jsstring) (usedWords : gset jsstring)
    : bool :=
  if negb (truthy word) || (length word <? 2)%nat then false
  else
    let lowerWord := toLowerCase word in
    let lowerLastWord := if truthy lastWord then toLowerCase lastWord else [] in
    let isNewWord := negb (bool_decide (lowerWord ∈ usedWords)) in
    let isValidSequence :=
      negb (truthy lastWord)
      || bool_decide (firstUnit lowerWord = lastUnit lowerLastWord) in
    isNewWord && isValidSequence.

(** The condition of the [if] in the game loop. *)
Definition accepts (g : WordGame) (word : option jsstring) : bool :=
  match word with
  | Some w => truthy w && validateWord w (lastWord g) (usedWords g)
  | None => false
  end.

(** The local variables of [#gameLoop] next to the game they act on;
    [announced] is the winner printed by the last call of
    [#showWinner]. *)
Record LoopState := {
  game : WordGame;
  currentPlayerIndex : nat;
  skippedTurns : nat;
  announced : option Player
}.

(** The [if]/[else] of the loop body: [addPoint()] gives one point. *)
Definition applyWord (l : LoopState) (player : Player)
    (word : option jsstring) : LoopState :=
  let g := game l in
  match word with
  | Some w =>
      if truthy w && validateWord w (lastWord g) (usedWords g) then
        {| game := {| players :=
                        <[currentPlayerIndex l := addPoint 1 player]> (players g);
                      usedWords := {[ toLowerCase w ]} ∪ usedWords g;
                      currentCategory := currentCategory g;
                      lastWord := w; isGameActive := isGameActive g;
                      currentUser := currentUser g |};
           currentPlayerIndex := currentPlayerIndex l;
           skippedTurns := 0; announced := announced l |}
      else
        {| game := g; currentPlayerIndex := currentPlayerIndex l;
           skippedTurns := S (skippedTurns l); announced := announced l |}
  | None =>
      {| game := g; currentPlayerIndex := currentPlayerIndex l;
         skippedTurns := S (skippedTurns l); announced := announced l |}
  end.

(** The statistics block run when five words are reached: it reads
    [this.#players[1].score] when the first human player has a
    [username], which throws ([None]) if there is no second player. *)
Definition statsBlock (ps : list Player) : option unit :=
  match List.find isHuman ps with
  | Some humanPlayer =>
      if truthy (default [] (usernameOf humanPlayer))
      then _ ← ps !! 1%nat; Some ()
      else Some ()
  | None => Some ()
  end.

(** The end of the loop body: the index moves on, and at five words the
    game is switched off and the winner announced. An exception leaves
    [main], which exits the process. *)
Definition endOfTurn (l : LoopState) : option LoopState :=
  let g := game l in
  let idx := ((currentPlayerIndex l + 1) mod length (players g))%nat in
  if (5 <=? size (usedWords g))%nat then
    winner ← showWinner (players g);
    _ ← statsBlock (players g);
    Some {| game := {| players := players g; usedWords := usedWords g;
                       currentCategory := currentCategory g;
                       lastWord := lastWord g; isGameActive := false;
                       currentUser := currentUser g |};
            currentPlayerIndex := idx; skippedTurns := skippedTurns l;
            announced := Some winner |}
  else
    Some {| game := g; currentPlayerIndex := idx;
            skippedTurns := skippedTurns l; announced := announced l |}.

Definition resolveTurn (l : LoopState) (player : Player)
    (word : option jsstring) : option LoopState :=
  endOfTurn (applyWord l player word).

(** One iteration of the [while] loop; reading [player.name] throws when
    [this.#players[currentPlayerIndex]] is [undefined]. *)
Definition turn (l : LoopState) (e : Turn) : option LoopState :=
  player ← players (game l) !! currentPlayerIndex l;
  resolveTurn l player (makeMove player e (moveState (game l))).

(** The condition of the [while]. *)
Definition running (l : LoopState) : bool :=
  isGameActive (game l) && (skippedTurns l <? 2)%nat.

(** The statement after the loop. *)
Definition afterLoop (l : LoopState) : option LoopState :=
  if (2 <=? skippedTurns l)%nat then
    winner ← showWinner (players (game l));
    Some {| game := game l; currentPlayerIndex := currentPlayerIndex l;
            skippedTurns := skippedTurns l; announced := Some winner |}
  else Some l.

(** [#gameLoop] run on the inputs of the successive turns: when the
    inputs run out while the loop is still going, the state reached so
    far is returned. *)
Fixpoint gameLoopFrom (l : LoopState) (es : list Turn) : option LoopState :=
  if running l then
    match es with
    | [] => Some l
    | e :: es' => l' ← turn l e; gameLoopFrom l' es'
    end
  else afterLoop l.

Definition enterLoop (g : WordGame) : LoopState :=
  {| game := g; currentPlayerIndex := 0; skippedTurns := 0;
     announced := None |}.

Definition gameLoop (g : WordGame) (es : list Turn) : option LoopState :=
  gameLoopFrom (enterLoop g) es.

(** [#startNewGame] with [#setupPlayers], up to the call of
    [#gameLoop]. *)
Definition startNewGame (g : WordGame) (catChoice : option Z)
    (playerName rid1 rid2 : jsstring) : option WordGame :=
  let categories := [js "города"; js "животные"; js "растения"] in
  let category :=
    orDefault (choose categories catChoice) (default [] (categories !! 0%nat)) in
  ps ← match players g with
       | [] =>
           u ← currentUser g;
           Some [newHumanPlayer rid1 playerName (email u) (username u);
                 newComputerPlayer rid2 (js "medium")]
       | _ => Some (resetScore <$> players g)
       end;
  Some {| players := ps; usedWords := ∅; currentCategory := category;
          lastWord := []; isGameActive := true;
          currentUser := currentUser g |}.

End Code.
End Part000.


(** * The code around the rule engine

    The user registry ([UserManager]) and the menu actions of [WordGame]
    that act on the players and on the registry. Prompts and printing
    are left out: each action takes what was typed as arguments. Files
    are read and written through [JSON], and the plain object written
    stands for the file. *)

(** ** JavaScript [Map] with string keys

    The entries in insertion order, each key once: [set] on a present
    key replaces the value in place, on a new key it appends. *)
Definition JsMap (V : Type) : Type := list (jsstring * V).

Section JsMap.
Context {V : Type}.

(** [m.get(k)]; [None] is [undefined]. *)
Fixpoint mapGet (m : JsMap V) (k : jsstring) : option V :=
  match m with
  | [] => None
  | (k', v) :: r => if decide (k = k') then Some v else mapGet r k
  end.

(** [m.has(k)] *)
Definition mapHas (m : JsMap V) (k : jsstring) : bool :=
  match mapGet m k with Some _ => true | None => false end.

(** [m.set(k, v)] *)
Fixpoint mapSet (m : JsMap V) (k : jsstring) (v : V) : JsMap V :=
  match m with
  | [] => [(k, v)]
  | (k', v') :: r =>
      if decide (k = k') then (k, v) :: r else (k', v') :: mapSet r k v
  end.

(** The map left by [m.delete(k)]; the call itself returns
    [m.has(k)]. *)
Fixpoint mapDelete (m : JsMap V) (k : jsstring) : JsMap V :=
  match m with
  | [] => []
  | (k', v') :: r =>
      if decide (k = k') then mapDelete r k else (k', v') :: mapDelete r k
  end.

(** [new Map(entries)] *)
Definition newMap (entries : list (jsstring * V)) : JsMap V :=
  fold_left (λ m kv, mapSet m kv.1 kv.2) entries [].

End JsMap.

(** [s.includes(t)] *)
Fixpoint startsWith (s t : jsstring) : bool :=
  match t, s with
  | [], _ => true
  | c :: t', d :: s' => bool_decide (c = d) && startsWith s' t'
  | _ :: _, [] => false
  end.

Fixpoint includes (s t : jsstring) : bool :=
  startsWith s t
  || match s with
     | [] => false
     | _ :: s' => includes s' t
     end.

(** * [UserManager] of [src/app.js] *)
Module AppUsers.

(** A value of the [#users] map. *)
Record UserRecord := {
  passwordHash : jsstring;
  userEmail : jsstring;
  userRole : jsstring;
  regDate : jsstring
}.

(** A value of the [#userStats] map; [categories] is a JS object used
    as a map from category to count. *)
Record UserStats := {
  gamesPlayed : Z;
  totalScore : Z;
  wins : Z;
  bestScore : Z;
  wordsUsed : list jsstring;
  categories : gmap jsstring Z
}.

(** The literal [{gamesPlayed: 0, totalScore: 0, wins: 0, bestScore: 0,
    wordsUsed: [], categories: {}}]. *)
Definition noStats : UserStats :=
  {| gamesPlayed := 0; totalScore := 0; wins := 0; bestScore := 0;
     wordsUsed := []; categories := ∅ |}.

(** The two private maps and the static [currentSession]. *)
Record UserManager := {
  users : JsMap UserRecord;
  userStats : JsMap UserStats;
  currentSession : option User
}.

(** The object returned by [registerUser] and [loginUser]. *)
Record Reply := {
  success : bool;
  message : jsstring;
  user : option User
}.

(** A statistics entry as read from [users.json]: any property may be
    absent. *)
Record StatsData := {
  sd_gamesPlayed : option Z;
  sd_totalScore : option Z;
  sd_wins : option Z;
  sd_bestScore : option Z;
  sd_wordsUsed : option (list jsstring);
  sd_categories : option (gmap jsstring Z)
}.

(** The object written to and read from [users.json]. *)
Record UsersFile := {
  f_users : option (list (jsstring * UserRecord));
  f_userStats : option (list (jsstring * StatsData))
}.

(** An element of the array returned by [getAllUsers]. *)
Record UserView := {
  v_username : jsstring;
  v_role : jsstring;
  v_email : jsstring;
  v_registrationDate : jsstring;
  v_stats : UserStats
}.

(** The character class [[a-zA-Z0-9_]]. *)
Definition isWordChar (c : N) : bool :=
  ((97 <=? c) && (c <=? 122) || (65 <=? c) && (c <=? 90)
   || (48 <=? c) && (c <=? 57) || (c =? 95))%N.

(** [Validator.validateUsername]:
    [u && u.length >= 3 && /^[a-zA-Z0-9_]+$/.test(u)] *)
Definition validateUsername (u : jsstring) : bool :=
  truthy u && (3 <=? length u)%nat && (truthy u && forallb isWordChar u).

(** [Validator.validatePassword]: [p && p.length >= 4] *)
Definition validatePassword (p : jsstring) : bool :=
  truthy p && (4 <=? length p)%nat.

Section Manager.
(** [#hashPassword], the hexadecimal SHA-256 digest computed by the
    [crypto] module. *)
Context (hashPassword : jsstring → jsstring).

(** [registerUser(u, p, e, r)]; [now] is [new Date().toISOString()]. *)
Definition registerUser (um : UserManager) (now u p e r : jsstring)
    : Reply * UserManager :=
  if mapHas (users um) u then
    ({| success := false; message := js "User exists"; user := None |}, um)
  else if negb (validateUsername u) || negb (validatePassword p) then
    ({| success := false; message := js "Invalid data"; user := None |}, um)
  else
    let hash := hashPassword p in
    ({| success := true; message := js "Registered";
        user := Some {| username := u; role := r; email := e |} |},
     {| users := mapSet (users um) u
                   {| passwordHash := hash; userEmail := e; userRole := r;
                      regDate := now |};
        userStats := mapSet (userStats um) u noStats;
        currentSession := currentSession um |}).

(** [loginUser(u, p)] *)
Definition loginUser (um : UserManager) (u p : jsstring)
    : Reply * UserManager :=
  match mapGet (users um) u with
  | Some rec =>
      if bool_decide (passwordHash rec ≠ hashPassword p) then
        ({| success := false; message := js "Invalid login"; user := None |},
         um)
      else
        let session :=
          {| username := u; role := userRole rec; email := userEmail rec |} in
        ({| success := true; message := js "Logged in";
            user := Some session |},
         {| users := users um; userStats := userStats um;
            currentSession := Some session |})
  | None =>
      ({| success := false; message := js "Invalid login"; user := None |}, um)
  end.

(** [updateUserStats(u, s, win, word, cat)] *)
Definition updateUserStats (um : UserManager) (u : jsstring) (s : Z)
    (win : bool) (word cat : jsstring) : UserManager :=
  let stats := default noStats (mapGet (userStats um) u) in
  let stats' :=
    {| gamesPlayed := gamesPlayed stats + 1;
       totalScore := totalScore stats + s;
       wins := if win then wins stats + 1 else wins stats;
       bestScore := if s >? bestScore stats then s else bestScore stats;
       wordsUsed :=
         if truthy word then wordsUsed stats ++ [word] else wordsUsed stats;
       categories :=
         if truthy cat then
           <[cat := default 0 (categories stats !! cat) + 1]> (categories stats)
         else categories stats |} in
  {| users := users um; userStats := mapSet (userStats um) u stats';
     currentSession := currentSession um |}.

(** [getUserStats(u)] *)
Definition getUserStats (um : UserManager) (u : jsstring) : UserStats :=
  default noStats (mapGet (userStats um) u).

(** [getAllUsers()] *)
Definition getAllUsers (um : UserManager) : list UserView :=
  (λ ud, {| v_username := ud.1; v_role := userRole ud.2;
            v_email := userEmail ud.2; v_registrationDate := regDate ud.2;
            v_stats := getUserStats um ud.1 |}) <$> users um.

(** [deleteUser(u)]: [this.#users.delete(u) && this.#userStats.delete(u)];
    the statistics are deleted only when the user was. *)
Definition deleteUser (um : UserManager) (u : jsstring)
    : bool * UserManager :=
  if mapHas (users um) u then
    (mapHas (userStats um) u,
     {| users := mapDelete (users um) u;
        userStats := mapDelete (userStats um) u;
        currentSession := currentSession um |})
  else (false, um).

(** [searchUsers(t)] *)
Definition searchUsers (um : UserManager) (t : jsstring) : list UserView :=
  List.filter (λ v, includes (v_username v) t || includes (v_email v) t)
    (getAllUsers um).

(** The object [saveUsers] writes to [users.json]. *)
Definition saveUsers (um : UserManager) : UsersFile :=
  {| f_users := Some (users um);
     f_userStats :=
       Some ((λ us, (us.1,
                     {| sd_gamesPlayed := Some (gamesPlayed us.2);
                        sd_totalScore := Some (totalScore us.2);
                        sd_wins := Some (wins us.2);
                        sd_bestScore := Some (bestScore us.2);
                        sd_wordsUsed := Some (wordsUsed us.2);
                        sd_categories := Some (categories us.2) |}))
             <$> userStats um) |}.

(** The statistics object [loadUsers] builds from an entry [s] of the
    file: [s.gamesPlayed || 0] and so on. *)
Definition loadedStats (s : StatsData) : UserStats :=
  {| gamesPlayed := default 0 (sd_gamesPlayed s);
     totalScore := default 0 (sd_totalScore s);
     wins := default 0 (sd_wins s);
     bestScore := default 0 (sd_bestScore s);
     wordsUsed := default [] (sd_wordsUsed s);
     categories := default ∅ (sd_categories s) |}.

(** The constructor with [loadUsers()]: [session] is the static
    [currentSession], which no method of the constructor touches
    ([null] when the program starts); [file] is what
    [FileManager.loadFromFile('users.json')] delivers, [None] when the
    file is missing or unreadable; [now1] and [now2] are the dates of
    the two default registrations. *)
Definition loadUsers (session : option User) (file : option UsersFile)
    (now1 now2 : jsstring) : UserManager :=
  let um0 :=
    match file with
    | Some data =>
        {| users := newMap (default [] (f_users data));
           userStats :=
             fold_left (λ m us, mapSet m us.1 (loadedStats us.2))
               (default [] (f_userStats data)) [];
           currentSession := session |}
    | None => {| users := []; userStats := []; currentSession := session |}
    end in
  if (length (users um0) =? 0)%nat then
    let um1 :=
      (registerUser um0 now1 (js "admin") (js "admin123")
         (js "admin@system.com") (js "admin")).2 in
    (registerUser um1 now2 (js "user") (js "user123")
       (js "user@example.com") (js "user")).2
  else um0.

End Manager.
End AppUsers.

(** * Menu actions of [WordGame] in [src/app.js] *)
Module AppMenu.

Definition setCurrentUser (g : WordGame) (u : option User) : WordGame :=
  {| players := players g; usedWords := usedWords g;
     currentCategory := currentCategory g; lastWord := lastWord g;
     isGameActive := isGameActive g; currentUser := u |}.

Definition setPlayers (g : WordGame) (ps : list Player) : WordGame :=
  {| players := ps; usedWords := usedWords g;
     currentCategory := currentCategory g; lastWord := lastWord g;
     isGameActive := isGameActive g; currentUser := currentUser g |}.

(** [#managePlayers], choice 2: [number] is the result of [parseInt];
    [splice(idx, 1)] removes the player at [idx]. *)
Definition removePlayer (g : WordGame) (number : option Z) : WordGame :=
  if (0 <? length (players g))%nat then
    match number with
    | Some z =>
        let idx := z - 1 in
        if (0 <=? idx) && (idx <? Z.of_nat (length (players g))) then
          setPlayers g (delete (Z.to_nat idx) (players g))
        else g
    | None => g
    end
  else g.

(** The best player of the game statistics report:
    [players.reduce((a, b) => a.score > b.score ? a : b, players[0])],
    or the placeholder [{name: 'нет', score: 0}] without players. *)
Definition topPlayer (g : WordGame) : jsstring * Z :=
  match players g with
  | [] => (js "нет", 0)
  | p0 :: _ =>
      let tp :=
        fold_left (λ a b, if score a >? score b then a else b) (players g) p0 in
      (name tp, score tp)
  end.

Section Menu.
Context (hashPassword : jsstring → jsstring).

(** [#register]: login, password, repeated password and email as typed;
    the email is asked only when the two passwords agree. *)
Definition register (g : WordGame) (um : AppUsers.UserManager)
    (now u p cp e : jsstring) : WordGame * AppUsers.UserManager :=
  if bool_decide (p ≠ cp) then (g, um)
  else
    let r := AppUsers.registerUser hashPassword um now u p e (js "user") in
    if AppUsers.success r.1 then
      let r' := AppUsers.loginUser hashPassword r.2 u p in
      (setCurrentUser g (AppUsers.user r'.1), r'.2)
    else (g, r.2).

(** [#manageUsers], choice 3: [u] is the login typed. *)
Definition manageUsersDelete (g : WordGame) (um : AppUsers.UserManager)
    (u : jsstring) : AppUsers.UserManager :=
  match currentUser g with
  | Some cu =>
      if bool_decide (role cu ≠ js "admin") then um
      else if bool_decide (u ≠ username cu) then (AppUsers.deleteUser um u).2
      else um
  | None => um
  end.

(** [#updateStats] *)
Definition updateStats (g : WordGame) (um : AppUsers.UserManager)
    : AppUsers.UserManager :=
  match List.find isHuman (players g) with
  | Some hp =>
      if truthy (default [] (usernameOf hp)) then
        let cp := List.find isComputer (players g) in
        AppUsers.updateUserStats um (default [] (usernameOf hp)) (score hp)
          (match cp with Some c => score hp >? score c | None => true end)
          (lastWord g) (currentCategory g)
      else um
  | None => um
  end.

Section Play.
Context `{!CaseFold}.

(** [#gameLoop] with its effect on the registry: [#updateStats] runs
    once, when the loop returns after [#showWinner]. *)
Definition playGame (g : WordGame) (um : AppUsers.UserManager)
    (es : list Turn) : option (App.LoopState * AppUsers.UserManager) :=
  l ← App.gameLoop g es;
  Some (l, match App.announced l with
           | Some _ => updateStats (App.game l) um
           | None => um
           end).

End Play.
End Menu.
End AppMenu.

(** * [UserManager] of [src/unnamed/part_000] *)
Module Part000Users.

Record UserRecord := {
  passwordHash : jsstring;
  userEmail : jsstring;
  userRole : jsstring;
  registrationDate : jsstring
}.

Record UserStats := {
  gamesPlayed : Z;
  totalScore : Z;
  wins : Z;
  bestScore : Z
}.

Definition noStats : UserStats :=
  {| gamesPlayed := 0; totalScore := 0; wins := 0; bestScore := 0 |}.

Record UserManager := {
  users : JsMap UserRecord;
  userStats : JsMap UserStats
}.

Record Reply := {
  success : bool;
  message : jsstring;
  user : option User
}.

Section Manager.
Context (hashPassword : jsstring → jsstring).

(** [registerUser(username, password, email, role)] *)
Definition registerUser (um : UserManager)
    (now username password email role : jsstring) : Reply * UserManager :=
  if mapHas (users um) username then
    ({| success := false; message := js "❌ Пользователь уже существует";
        user := None |}, um)
  else if (length password <? 4)%nat then
    ({| success := false; message := js "❌ Пароль минимум 4 символа";
        user := None |}, um)
  else
    let passwordHash := hashPassword password in
    ({| success := true; message := js "✅ Регистрация успешна!";
        user := None |},
     {| users := mapSet (users um) username
                   {| passwordHash := passwordHash; userEmail := email;
                      userRole := role; registrationDate := now |};
        userStats := mapSet (userStats um) username noStats |}).

(** [loginUser(username, password)] *)
Definition loginUser (um : UserManager) (username password : jsstring)
    : Reply :=
  match mapGet (users um) username with
  | None =>
      {| success := false; message := js "❌ Пользователь не найден";
         user := None |}
  | Some rec =>
      if bool_decide (passwordHash rec ≠ hashPassword password) then
        {| success := false; message := js "❌ Неверный пароль";
           user := None |}
      else
        {| success := true; message := js "✅ Авторизация успешна!";
           user := Some {| username := username; role := userRole rec;
                           email := userEmail rec |} |}
  end.

(** [updateUserStats(username, score, isWin)]: nothing happens without
    a statistics entry. *)
Definition updateUserStats (um : UserManager) (username : jsstring)
    (score : Z) (isWin : bool) : UserManager :=
  match mapGet (userStats um) username with
  | Some stats =>
      {| users := users um;
         userStats :=
           mapSet (userStats um) username
             {| gamesPlayed := gamesPlayed stats + 1;
                totalScore := totalScore stats + score;
                wins := if isWin then wins stats + 1 else wins stats;
                bestScore :=
                  if score >? bestScore stats then score
                  else bestScore stats |} |}
  | None => um
  end.

(** [getUserStats(username)] *)
Definition getUserStats (um : UserManager) (username : jsstring) : UserStats :=
  default noStats (mapGet (userStats um) username).

End Manager.
End Part000Users.

(** * Menu actions of [WordGame] in [src/unnamed/part_000] *)
Module Part000Menu.

(** [#managePlayers], case 2: [if (this.#players[index])] with
    [index = parseInt(...) - 1]; a player object is truthy, a missing
    element is [undefined]. *)
Definition removePlayer (g : WordGame) (number : option Z) : WordGame :=
  if (0 <? length (players g))%nat then
    match number with
    | Some z =>
        let index := z - 1 in
        if 0 <=? index then
          match players g !! Z.to_nat index with
          | Some _ => AppMenu.setPlayers g (delete (Z.to_nat index) (players g))
          | None => g
          end
        else g
    | None => g
    end
  else g.

(** The statistics block of the game loop, run when five words are
    reached: [None] when reading [this.#players[1].score] throws. *)
Definition statsUpdate (g : WordGame) (um : Part000Users.UserManager)
    : option Part000Users.UserManager :=
  match List.find isHuman (players g) with
  | Some humanPlayer =>
      if truthy (default [] (usernameOf humanPlayer)) then
        second ← players g !! 1%nat;
        Some (Part000Users.updateUserStats um
                (default [] (usernameOf humanPlayer)) (score humanPlayer)
                (score humanPlayer >? score second))
      else Some um
  | None => Some um
  end.

End Part000Menu.
(** * Selection by [reduce]

    Both files pick a longest word and a best player by folding a
    two-way choice over an array. Whether the accumulator or the current
    element is kept on a tie decides which of several maxima comes
    out. *)
Section ReduceVocabulary.
Context {A : Type} (m : A → Z) (pick : A → A → A).

(** The accumulator is kept only when it is strictly greater. *)
Definition keepsGreater : Prop :=
  ∀ a b, (m b < m a ∧ pick a b = a) ∨ (m a ≤ m b ∧ pick a b = b).

(** The accumulator is replaced only by a strictly greater element. *)
Definition replacesByGreater : Prop :=
  ∀ a b, (m a < m b ∧ pick a b = b) ∨ (m b ≤ m a ∧ pick a b = a).

(** [l !! i] is a maximum of [l] and no later element is as large. *)
Definition lastMaxAt (l : list A) (i : nat) (r : A) : Prop :=
  l !! i = Some r
  ∧ (∀ j v, l !! j = Some v → m v ≤ m r)
  ∧ (∀ j v, l !! j = Some v → m v = m r → (j ≤ i)%nat).

(** [l !! i] is a maximum of [l] and no earlier element is as large. *)
Definition firstMaxAt (l : list A) (i : nat) (r : A) : Prop :=
  l !! i = Some r
  ∧ (∀ j v, l !! j = Some v → m v ≤ m r)
  ∧ (∀ j v, l !! j = Some v → m v = m r → (i ≤ j)%nat).

End ReduceVocabulary.

(** * The specification's wording of the rules

    These predicates follow the sentences of the specification; the
    theorems compare them with the functions taken from the code. *)
Section SpecVocabulary.
Context `{!CaseFold}.

Definition whitespaceOnly (w : jsstring) : Prop :=
  Forall (λ c, isWhiteSpace c = true) w.

(** A submission is rejected when it is empty ([null] included) or
    whitespace-only, shorter than two code units after trimming, already
    used in case-folded form, or breaks the chain with the last word. *)
Definition rejectionCondition (g : WordGame) (word : option jsstring) : Prop :=
  match word with
  | None => True
  | Some w =>
      whitespaceOnly w
      ∨ (length (trim w) < 2)%nat
      ∨ toLowerCase w ∈ usedWords g
      ∨ (lastWord g ≠ []
         ∧ firstUnit (toLowerCase w) ≠ lastUnit (toLowerCase (lastWord g)))
  end.

(** A word of the category's list is a candidate when its case-folded
    form is unused and it continues the chain (or there is no last
    word). *)
Definition candidateCondition (db : gmap jsstring (list jsstring))
    (s : MoveState) (w : jsstring) : Prop :=
  w ∈ default [] (db !! s_category s)
  ∧ (toLowerCase w ∉ s_usedWords s)
  ∧ (s_lastWord s = []
     ∨ firstUnit (toLowerCase w) = lastUnit (toLowerCase (s_lastWord s))).

End SpecVocabulary.

(** [word.length] as an integer. *)
Definition wordLength (w : jsstring) : Z := Z.of_nat (length w).

(** Every [ComputerPlayer] the program builds has a truthy difficulty:
    the constructor is called with ['easy'], ['medium'] or ['hard'] and
    [deserialize] stores [d.difficulty || 'medium'] (the static
    [copyFrom] is never called). *)
Definition constructed (p : Player) : Prop :=
  ∀ d, difficultyOf p = Some d → d ≠ [].

Section LoopVocabulary.
Context `{!CaseFold}.

(** The submission of the coming turn of [src/app.js] is rejected. *)
Definition App_rejected (l : App.LoopState) (e : Turn) : Prop :=
  ∃ p, players (App.game l) !! App.playerIdx l = Some p
       ∧ App.accepts (App.game l) (App.makeMove p e (moveState (App.game l)))
         = false.

(** What holds of the loop of [src/app.js] all along a game that was
    started by [#startNewGame]. *)
Definition App_invariant (l : App.LoopState) : Prop :=
  (App.playerIdx l < length (players (App.game l)))%nat
  ∧ (isGameActive (App.game l) = true →
     (size (usedWords (App.game l)) < 5)%nat)
  ∧ (isGameActive (App.game l) = false →
     size (usedWords (App.game l)) = 5%nat ∧ is_Some (App.announced l)).

(** The same for [src/unnamed/part_000]. *)
Definition Part000_invariant (l : Part000.LoopState) : Prop :=
  (Part000.currentPlayerIndex l < length (players (Part000.game l)))%nat
  ∧ (isGameActive (Part000.game l) = true →
     (size (usedWords (Part000.game l)) < 5)%nat)
  ∧ (isGameActive (Part000.game l) = false →
     size (usedWords (Part000.game l)) = 5%nat
     ∧ is_Some (Part000.announced l)).

End LoopVocabulary.

(** * Concrete games

    The inputs on which the code is run below: a logged-in user, the
    game [#startNewGame] sets up for that user in each file, and states
    reached by playing. *)

Definition sampleUser : User :=
  {| username := js "user"; role := js "user";
     email := js "user@example.com" |}.

(** A [WordGame] as its constructor leaves it, once [sampleUser] has
    logged in. *)
Definition loggedIn : WordGame :=
  {| players := []; usedWords := ∅; currentCategory := []; lastWord := [];
     isGameActive := false; currentUser := Some sampleUser |}.

(** A turn in which the line [s] is typed; the draw of [Math.random] is
    the one that selects index 0. *)
Definition types (s : string) : Turn := {| typed := js s; random := 0 |}.

Definition ann (points : Z) : Player :=
  {| name := js "Ann"; score := points; playerId := js "id1";
     variant := HumanPlayer (js "user@example.com") (js "user") |}.

Definition appComputer (difficulty : string) (points : Z) : Player :=
  {| name := js "Компьютер"; score := points; playerId := js "id2";
     variant := ComputerPlayer (js difficulty) App.initialWordDatabase |}.

Definition partComputer (points : Z) : Player :=
  {| name := js "Компьютер"; score := points; playerId := js "id2";
     variant := ComputerPlayer (js "medium") Part000.initialWordDatabase |}.

(** The game of [src/app.js] after category 1 and difficulty 1 have been
    chosen. *)
Definition appGame : WordGame :=
  {| players := [ann 0; appComputer "easy" 0]; usedWords := ∅;
     currentCategory := js "города"; lastWord := [];
     isGameActive := true; currentUser := Some sampleUser |}.

(** The game of [src/unnamed/part_000] after category 1 has been
    chosen. *)
Definition partGame : WordGame :=
  {| players := [ann 0; partComputer 0]; usedWords := ∅;
     currentCategory := js "города"; lastWord := [];
     isGameActive := true; currentUser := Some sampleUser |}.

(** [appGame] after Ann has played "Амстердам" and the computer has
    answered "Москва": three points each, and no unused city starts
    with the last letter of "Москва". *)
Definition midGame : App.LoopState :=
  {| App.game :=
       {| players := [ann 3; appComputer "easy" 3];
          usedWords := {[ js "амстердам"; js "москва" ]};
          currentCategory := js "города"; lastWord := js "Москва";
          isGameActive := true; currentUser := Some sampleUser |};
     App.playerIdx := 0; App.skipped := 0; App.round := 3;
     App.announced := None |}.

(** What the computer is handed after "Амстердам" has been played. *)
Definition afterAmsterdam : MoveState :=
  {| s_lastWord := js "Амстердам"; s_usedWords := {[ js "амстердам" ]};
     s_category := js "города" |}.

(** Seven turns in which Ann plays five chained words. *)
Definition fiveWords : list Turn :=
  [types "Амстердам"; types ""; types "Астана"; types ""; types "Анапа";
   types ""; types "Адлер"].

(** A snapshot with a computer player without difficulty, a player with
    an unknown tag and a player without tag, and no other property. *)
Definition sparseData : GameData :=
  {| data_players :=
       Some [ {| d_name := js "Компьютер"; d_score := 2; d_id := js "c1";
                 d_type := Some (js "ComputerPlayer"); d_difficulty := None;
                 d_email := None; d_username := None |};
              {| d_name := js "Bob"; d_score := 1; d_id := js "b1";
                 d_type := Some (js "Robot"); d_difficulty := None;
                 d_email := None; d_username := None |};
              {| d_name := js "Eve"; d_score := 0; d_id := js "e1";
                 d_type := None; d_difficulty := None;
                 d_email := None; d_username := None |} ];
     data_usedWords := None; data_currentCategory := None;
     data_lastWord := None; data_isGameActive := None;
     data_currentUser := None |}.

(** The computer player that [src/unnamed/part_000] rebuilds from the
    snapshot of [partGame], and the rebuilt game. *)
Definition restoredComputer : Player :=
  {| name := js "Компьютер"; score := 0; playerId := js "id2";
     variant := ComputerPlayer (js "medium") Part000.emptyWordDatabase |}.

Definition restoredGame : WordGame :=
  {| players := [ann 0; restoredComputer]; usedWords := ∅;
     currentCategory := js "города"; lastWord := [];
     isGameActive := true; currentUser := Some sampleUser |}.

(** * Vocabulary of the further properties *)

(** The sum of the players' scores. *)
Definition totalScoreOf (ps : list Player) : Z :=
  foldr (λ p acc, score p + acc) 0 ps.

(** What a player is, apart from its score. *)
Definition identityOf (p : Player) : jsstring * jsstring * Variant :=
  (name p, playerId p, variant p).

(** A computer player holds the word database its constructor gave
    it. *)
Definition holdsInitialDatabase (db : gmap jsstring (list jsstring))
    (p : Player) : Prop :=
  ∀ d db', variant p = ComputerPlayer d db' → db' = db.

(** A player as the constructors of [src/app.js] build it. *)
Definition builtByApp (p : Player) : Prop :=
  constructed p ∧ holdsInitialDatabase App.initialWordDatabase p.

(** The keys of a [Map], in insertion order. *)
Definition mapKeys {V} (m : JsMap V) : list jsstring := m.*1.

(** A registry of [src/app.js] whose maps hold each key once, as every
    [Map] does. *)
Definition properRegistry (um : AppUsers.UserManager) : Prop :=
  NoDup (mapKeys (AppUsers.users um))
  ∧ NoDup (mapKeys (AppUsers.userStats um)).

(** [updateUserStats] called for the games [rs] of one user, each with
    its score and whether it was won. *)
Definition recordGames (um : AppUsers.UserManager) (u : jsstring)
    (rs : list (Z * bool)) (word cat : jsstring) : AppUsers.UserManager :=
  fold_left (λ m r, AppUsers.updateUserStats m u r.1 r.2 word cat) rs um.


(** * Inputs of the further runs *)

(** A stand-in for the SHA-256 digest of [#hashPassword], on which the
    registry is run on concrete inputs. *)
Definition plainHash (p : jsstring) : jsstring := rev p.

(** The registry that the constructor of [UserManager] in [src/app.js]
    builds at the start of the program when there is no [users.json]. *)
Definition defaultRegistry : AppUsers.UserManager :=
  AppUsers.loadUsers plainHash None None (js "2024-01-01T10:00:00.000Z")
    (js "2024-01-01T10:00:00.001Z").

(** The default administrator, and a [WordGame] in which the
    administrator has logged in. *)
Definition adminUser : User :=
  {| username := js "admin"; role := js "admin";
     email := js "admin@system.com" |}.

Definition adminIn : WordGame :=
  {| players := []; usedWords := ∅; currentCategory := []; lastWord := [];
     isGameActive := false; currentUser := Some adminUser |}.

(** [appGame] after Ann has played "Амстердам": it is the computer's
    turn. *)
Definition afterFirstWord : App.LoopState :=
  {| App.game :=
       {| players := [ann 3; appComputer "easy" 0];
          usedWords := {[ js "амстердам" ]};
          currentCategory := js "города"; lastWord := js "Амстердам";
          isGameActive := true; currentUser := Some sampleUser |};
     App.playerIdx := 1; App.skipped := 0; App.round := 2;
     App.announced := None |}.

(** Four turns after which four words are used in both files: Ann
    plays "Амстердам" and "Архангельск", the computer answers "Москва"
    and "Киев". *)
Definition fourTurns : list Turn :=
  [types "Амстердам"; types ""; types "Архангельск"; types ""].

(** Ten turns: those of [fiveWords] and three more lines. *)
Definition tenTurns : list Turn :=
  fiveWords ++ [types "Анкара"; types ""; types "Афины"].

(** Ann alone: the computer has been removed from [partGame] in the
    players menu, a new game has been started, and Ann has played four
    chained words. *)
Definition loneStart : WordGame :=
  Part000Menu.removePlayer partGame (Some 2).

Definition fourWords : list Turn :=
  [types "Амстердам"; types "Москва"; types "Астана"; types "Анапа"].

Definition loneGame : WordGame :=
  {| players := [ann 4];
     usedWords := {[ js "амстердам"; js "москва"; js "астана"; js "анапа" ]};
     currentCategory := js "города"; lastWord := js "Анапа";
     isGameActive := true; currentUser := Some sampleUser |}.

Definition lonePart : Part000.LoopState :=
  {| Part000.game := loneGame; Part000.currentPlayerIndex := 0;
     Part000.skippedTurns := 0; Part000.announced := None |}.

Definition loneApp : App.LoopState :=
  {| App.game := loneGame; App.playerIdx := 0; App.skipped := 0;
     App.round := 5; App.announced := None |}.

(** The registry of [src/unnamed/part_000] after its two default
    registrations. *)
Definition partRegistry : Part000Users.UserManager :=
  (Part000Users.registerUser plainHash
     (Part000Users.registerUser plainHash
        {| Part000Users.users := []; Part000Users.userStats := [] |}
        (js "2024-01-01T10:00:00.000Z") (js "admin") (js "admin123")
        (js "admin@system.com") (js "admin")).2
     (js "2024-01-01T10:00:00.001Z") (js "user") (js "user123")
     (js "user@example.com") (js "user")).2.

(** The default administrator as [getAllUsers] lists it in
    [defaultRegistry]. *)
Definition adminView : AppUsers.UserView :=
  {| AppUsers.v_username := js "admin"; AppUsers.v_role := js "admin";
     AppUsers.v_email := js "admin@system.com";
     AppUsers.v_registrationDate := js "2024-01-01T10:00:00.000Z";
     AppUsers.v_stats := AppUsers.noStats |}.

(** Evaluation of the code on a concrete input. *)
Ltac by_run := first [reflexivity | vm_compute; reflexivity
                     | apply (bool_decide_unpack _); vm_compute; exact I].
(** * Facts about the string helpers *)

Lemma truthy_true (s : jsstring) : truthy s = true ↔ s ≠ [].
Proof. destruct s; simpl; split; intros; congruence. Qed.

Lemma truthy_false (s : jsstring) : truthy s = false ↔ s = [].
Proof. destruct s; simpl; split; intros; congruence. Qed.

Lemma orDefault_Some_empty (s : jsstring) : orDefault (Some s) [] = s.
Proof. destruct s; reflexivity. Qed.

Lemma orDefault_Some_truthy (s d : jsstring) :
  s ≠ [] → orDefault (Some s) d = s.
Proof. destruct s; [congruence | reflexivity]. Qed.

Lemma orDefault_truthy (x : option jsstring) (d : jsstring) :
  d ≠ [] → orDefault x d ≠ [].
Proof.
  intros Hd. destruct x as [[|c s]|]; simpl; [exact Hd | discriminate | exact Hd].
Qed.

Lemma trimStart_whitespace (s : jsstring) :
  Forall (λ c, isWhiteSpace c = true) s → trimStart s = [].
Proof.
  induction 1 as [|c s Hc _ IH]; simpl; [reflexivity|].
  rewrite Hc. exact IH.
Qed.

Lemma trim_whitespace (s : jsstring) :
  Forall (λ c, isWhiteSpace c = true) s → trim s = [].
Proof.
  intros Hs. unfold trim, trimEnd.
  rewrite (trimStart_whitespace s Hs). reflexivity.
Qed.

Section Reduce.
Context {A : Type} (m : A → Z) (pick : A → A → A).

Lemma fold_keepsGreater (l : list A) (a : A) :
  keepsGreater m pick →
  (fold_left pick l a = a ∧ ∀ j v, l !! j = Some v → m v < m a)
  ∨ (∃ i, lastMaxAt m l i (fold_left pick l a) ∧ m a ≤ m (fold_left pick l a)).
Proof.
  intros Hp. revert a. induction l as [|b l IH]; intros a; simpl.
  - left. split; [reflexivity|]. intros j v Hj. destruct j; discriminate.
  - destruct (Hp a b) as [[Hlt Hab]|[Hle Hab]]; rewrite Hab.
    + destruct (IH a) as [[Hr Hall]|[i [(Hi & Hmax & Hlast) Hge]]].
      * left. split; [exact Hr|].
        intros [|j] v Hj; simpl in Hj; [injection Hj as <-; exact Hlt | eauto].
      * right. exists (S i). split; [|exact Hge]. repeat split.
        -- exact Hi.
        -- intros [|j] v Hj; simpl in Hj; [injection Hj as <-; lia | eauto].
        -- intros [|j] v Hj Hv; simpl in Hj;
             [injection Hj as <-; lia | apply le_n_S; eauto].
    + destruct (IH b) as [[Hr Hall]|[i [(Hi & Hmax & Hlast) Hge]]].
      * right. exists 0%nat. rewrite Hr. split; [|exact Hle]. repeat split.
        -- intros [|j] v Hj; simpl in Hj;
             [injection Hj as <-; lia | specialize (Hall j v Hj); lia].
        -- intros [|j] v Hj Hv; simpl in Hj; [lia|].
           specialize (Hall j v Hj). lia.
      * right. exists (S i). split; [|lia]. repeat split.
        -- exact Hi.
        -- intros [|j] v Hj; simpl in Hj; [injection Hj as <-; lia | eauto].
        -- intros [|j] v Hj Hv; simpl in Hj; [lia | apply le_n_S; eauto].
Qed.

Lemma fold_replacesByGreater (l : list A) (a : A) :
  replacesByGreater m pick →
  (fold_left pick l a = a ∧ ∀ j v, l !! j = Some v → m v ≤ m a)
  ∨ (∃ i, firstMaxAt m l i (fold_left pick l a) ∧ m a < m (fold_left pick l a)).
Proof.
  intros Hp. revert a. induction l as [|b l IH]; intros a; simpl.
  - left. split; [reflexivity|]. intros j v Hj. destruct j; discriminate.
  - destruct (Hp a b) as [[Hlt Hab]|[Hle Hab]]; rewrite Hab.
    + destruct (IH b) as [[Hr Hall]|[i [(Hi & Hmax & Hfirst) Hgt]]].
      * right. exists 0%nat. rewrite Hr. split; [|exact Hlt]. repeat split.
        -- intros [|j] v Hj; simpl in Hj; [injection Hj as <-; lia | eauto].
        -- intros j v _ _. lia.
      * right. exists (S i). split; [|lia]. repeat split.
        -- exact Hi.
        -- intros [|j] v Hj; simpl in Hj; [injection Hj as <-; lia | eauto].
        -- intros [|j] v Hj Hv; simpl in Hj;
             [injection Hj as <-; lia | apply le_n_S; eauto].
    + destruct (IH a) as [[Hr Hall]|[i [(Hi & Hmax & Hfirst) Hgt]]].
      * left. split; [exact Hr|].
        intros [|j] v Hj; simpl in Hj; [injection Hj as <-; exact Hle | eauto].
      * right. exists (S i). split; [|exact Hgt]. repeat split.
        -- exact Hi.
        -- intros [|j] v Hj; simpl in Hj; [injection Hj as <-; lia | eauto].
        -- intros [|j] v Hj Hv; simpl in Hj;
             [injection Hj as <-; lia | apply le_n_S; eauto].
Qed.

(** [l.reduce(pick, l[0])] with [pick] keeping only a strictly greater
    accumulator: the last maximum. *)
Lemma reduce_from_head_last (l : list A) (a : A) :
  keepsGreater m pick → l !! 0%nat = Some a →
  ∃ i, lastMaxAt m l i (fold_left pick l a).
Proof.
  intros Hp Ha.
  destruct (fold_keepsGreater l a Hp) as [[_ Hall]|[i [Hi _]]].
  - specialize (Hall 0%nat a Ha). lia.
  - exists i. exact Hi.
Qed.

(** [l.reduce(pick, l[0])] with [pick] replacing only by a strictly
    greater element: the first maximum. *)
Lemma reduce_from_head_first (l : list A) (a : A) :
  replacesByGreater m pick → l !! 0%nat = Some a →
  ∃ i, firstMaxAt m l i (fold_left pick l a).
Proof.
  intros Hp Ha.
  destruct (fold_replacesByGreater l a Hp) as [[Hr Hall]|[i [Hi _]]].
  - exists 0%nat. rewrite Hr. repeat split; [exact Ha | exact Hall |].
    intros; lia.
  - exists i. exact Hi.
Qed.

(** [(a :: l).reduce(pick)] with [pick] keeping only a strictly greater
    accumulator: the last maximum. *)
Lemma reduce_no_init_last (l : list A) (a : A) :
  keepsGreater m pick → ∃ i, lastMaxAt m (a :: l) i (fold_left pick l a).
Proof.
  intros Hp.
  destruct (fold_keepsGreater l a Hp) as [[Hr Hall]|[i [(Hi & Hmax & Hlast) Hge]]].
  - exists 0%nat. rewrite Hr. repeat split.
    + intros [|j] v Hj; simpl in Hj;
        [injection Hj as <-; lia | specialize (Hall j v Hj); lia].
    + intros [|j] v Hj Hv; simpl in Hj; [lia|].
      specialize (Hall j v Hj). lia.
  - exists (S i). repeat split.
    + exact Hi.
    + intros [|j] v Hj; simpl in Hj; [injection Hj as <-; lia | eauto].
    + intros [|j] v Hj Hv; simpl in Hj; [lia | apply le_n_S; eauto].
Qed.

End Reduce.

(** * The computer's candidates and its choice *)
Section Selector.
Context `{!CaseFold}.

Lemma isAvailable_spec (s : MoveState) (w : jsstring) :
  App.isAvailable s w = true
  ↔ (toLowerCase w ∉ s_usedWords s)
    ∧ (s_lastWord s = []
       ∨ firstUnit (toLowerCase w) = lastUnit (toLowerCase (s_lastWord s))).
Proof.
  unfold App.isAvailable.
  rewrite andb_true_iff, negb_true_iff, bool_decide_eq_false, orb_true_iff,
    negb_true_iff, truthy_false.
  destruct (s_lastWord s) as [|c r]; simpl.
  - split; intros [? _]; split; auto.
  - rewrite bool_decide_eq_true. reflexivity.
Qed.

Lemma getAvailableWords_eq (db : gmap jsstring (list jsstring)) (s : MoveState) :
  Part000.getAvailableWords db (s_lastWord s) (s_usedWords s) (s_category s)
  = App.availableWords db s.
Proof. reflexivity. Qed.

Lemma availableWords_spec (db : gmap jsstring (list jsstring))
    (s : MoveState) (w : jsstring) :
  w ∈ App.availableWords db s ↔ candidateCondition db s w.
Proof.
  unfold App.availableWords, candidateCondition.
  rewrite list_elem_of_In, filter_In, <- list_elem_of_In, isAvailable_spec.
  reflexivity.
Qed.

Lemma pick_last_longest : keepsGreater wordLength
  (λ a b : jsstring, if (length b <? length a)%nat then a else b).
Proof.
  intros a b. unfold wordLength.
  destruct (Nat.ltb_spec (length b) (length a)); [left | right]; split;
    (lia || reflexivity).
Qed.

Lemma pick_first_longest : replacesByGreater wordLength
  (λ longest current : jsstring,
     if (length longest <? length current)%nat then current else longest).
Proof.
  intros a b. unfold wordLength.
  destruct (Nat.ltb_spec (length a) (length b)); [left | right]; split;
    (lia || reflexivity).
Qed.

Lemma random_index_in_range {A} (l : list A) (r : nat) :
  l ≠ [] → is_Some (l !! (r mod length l)%nat).
Proof.
  intros Hl. apply lookup_lt_is_Some. apply Nat.mod_upper_bound.
  destruct l; [congruence | discriminate].
Qed.

Lemma App_makeMove_null (d : jsstring) (db : gmap jsstring (list jsstring))
    (e : Turn) (s : MoveState) :
  App.ComputerPlayer_makeMove d db e s = None ↔ App.availableWords db s = [].
Proof.
  unfold App.ComputerPlayer_makeMove.
  destruct (App.availableWords db s) as [|w0 ws] eqn:Hw; [tauto|].
  split; [|discriminate]. intros Hnone. exfalso.
  repeat case_decide; try discriminate.
  destruct (random_index_in_range (w0 :: ws) (random e)) as [x Hx];
    [discriminate | congruence].
Qed.

Lemma Part000_makeMove_null (d : jsstring) (db : gmap jsstring (list jsstring))
    (e : Turn) (s : MoveState) :
  Part000.ComputerPlayer_makeMove d db e s = None
  ↔ Part000.getAvailableWords db (s_lastWord s) (s_usedWords s) (s_category s) = [].
Proof.
  unfold Part000.ComputerPlayer_makeMove, Part000.selectWordByDifficulty.
  destruct (Part000.getAvailableWords _ _ _ _) as [|w0 ws] eqn:Hw; [tauto|].
  split; [|discriminate]. intros Hnone. exfalso. simpl in Hnone.
  repeat case_decide; try discriminate.
  destruct (random_index_in_range (w0 :: ws) (random e)) as [x Hx];
    [discriminate | simpl in *; congruence].
Qed.

(** C8: in both files the computer's candidates are exactly the words of
    the chosen category's list whose case-folded form is unused and
    whose first case-folded code unit equals the last one of the last
    word (any unused word when there is no last word), and [makeMove]
    returns [null] exactly when there is no candidate. *)
Theorem C8_candidate_set (d : jsstring) (db : gmap jsstring (list jsstring))
    (e : Turn) (s : MoveState) :
  (∀ w, w ∈ App.availableWords db s ↔ candidateCondition db s w)
  ∧ (App.ComputerPlayer_makeMove d db e s = None
     ↔ App.availableWords db s = [])
  ∧ (∀ w, w ∈ Part000.getAvailableWords db (s_lastWord s) (s_usedWords s)
                (s_category s)
          ↔ candidateCondition db s w)
  ∧ (Part000.ComputerPlayer_makeMove d db e s = None
     ↔ Part000.getAvailableWords db (s_lastWord s) (s_usedWords s)
         (s_category s) = []).
Proof.
  split; [intros w; apply availableWords_spec|].
  split; [apply App_makeMove_null|].
  split; [intros w; rewrite getAvailableWords_eq; apply availableWords_spec|].
  apply Part000_makeMove_null.
Qed.

(** C7, as the code has it: on a non-empty candidate list the hard
    selector returns a candidate of maximum length; among candidates of
    that length [src/app.js] returns the one that comes last in the
    list's order and [src/unnamed/part_000] the one that comes first. *)
Theorem C7_hard_selection (db : gmap jsstring (list jsstring)) (e : Turn)
    (s : MoveState) :
  App.availableWords db s ≠ [] →
  (∃ w i, App.ComputerPlayer_makeMove (js "hard") db e s = Some w
          ∧ lastMaxAt wordLength (App.availableWords db s) i w)
  ∧ (∃ w i, Part000.ComputerPlayer_makeMove (js "hard") db e s = Some w
            ∧ firstMaxAt wordLength
                (Part000.getAvailableWords db (s_lastWord s) (s_usedWords s)
                   (s_category s)) i w).
Proof.
  intros Hne. split.
  - unfold App.ComputerPlayer_makeMove.
    destruct (App.availableWords db s) as [|w0 ws] eqn:Hw; [congruence|].
    rewrite decide_False by (vm_compute; discriminate).
    rewrite decide_True by reflexivity.
    destruct (reduce_from_head_last wordLength _ (w0 :: ws) w0
                pick_last_longest eq_refl) as [i Hi].
    eexists _, i. split; [reflexivity | exact Hi].
  - unfold Part000.ComputerPlayer_makeMove, Part000.selectWordByDifficulty.
    rewrite getAvailableWords_eq.
    destruct (App.availableWords db s) as [|w0 ws] eqn:Hw; [congruence|].
    rewrite decide_False by (vm_compute; discriminate).
    rewrite decide_True by reflexivity. simpl length. simpl Nat.eqb. cbv iota.
    destruct (reduce_from_head_first wordLength _ (w0 :: ws) w0
                pick_first_longest eq_refl) as [i Hi].
    eexists _, i. split; [reflexivity | exact Hi].
Qed.

End Selector.

(** * Validation of a submitted word *)
Section Validation.
Context `{!CaseFold}.

Lemma validateWord_true (g : WordGame) (w : jsstring) :
  App.validateWord g w = true
  ↔ w ≠ []
    ∧ (2 ≤ length (trim w))%nat
    ∧ (toLowerCase w ∉ usedWords g)
    ∧ (lastWord g = []
       ∨ firstUnit (toLowerCase w) = lastUnit (toLowerCase (lastWord g))).
Proof.
  unfold App.validateWord, App.Validator_validateWord, App.MIN_WORD_LENGTH.
  destruct w as [|c w]; simpl truthy; cbv iota.
  { simpl. split; [discriminate | intros [? _]; congruence]. }
  rewrite andb_true_l.
  destruct (Nat.leb_spec 2 (length (trim (c :: w)))) as [Hlen|Hlen]; simpl negb;
    cbv iota.
  2: { split; [discriminate | intros (_ & ? & _); lia]. }
  case_bool_decide as Hused.
  { split; [discriminate | intros (_ & _ & ? & _); contradiction]. }
  destruct (lastWord g) as [|c' r]; simpl truthy; cbv iota.
  { simpl. split; [|reflexivity]. intros _. repeat split; auto. }
  rewrite andb_true_l. case_bool_decide as Hchain; simpl.
  - split; [|reflexivity]. intros _. repeat split; auto.
  - split; [discriminate|]. intros (_ & _ & _ & [?|?]); [discriminate|].
    contradiction.
Qed.

(** C4: a submission is rejected by [src/app.js] exactly when it is
    empty or whitespace-only, or its trimmed length is below 2, or its
    case-folded form is already in the used-word set, or a last word
    exists and the first case-folded code unit of the submission differs
    from the last case-folded code unit of the last word. *)
Theorem C4_rejected_iff (g : WordGame) (word : option jsstring) :
  App.accepts g word = false ↔ rejectionCondition g word.
Proof.
  destruct word as [w|]; simpl; [|tauto].
  rewrite <- not_true_iff_false, andb_true_iff, truthy_true, validateWord_true.
  unfold whitespaceOnly. split.
  - intros Hrej.
    destruct (decide (w = [])) as [->|Hw]; [left; constructor|].
    destruct (le_lt_dec 2 (length (trim w))) as [Hlen|Hlen]; [|right; left; lia].
    destruct (decide (toLowerCase w ∈ usedWords g)) as [Hin|Hnin];
      [right; right; left; exact Hin|].
    right; right; right.
    destruct (decide (lastWord g = [])) as [Hl|Hl];
      [exfalso; apply Hrej; repeat split; auto|].
    split; [exact Hl|]. intros Heq. apply Hrej. repeat split; auto.
  - intros Hcond (Hw & _ & Hlen & Hnin & Hchain).
    destruct Hcond as [Hws|[Hshort|[Hin|[Hl Hne]]]].
    + rewrite (trim_whitespace w Hws) in Hlen. simpl in Hlen. lia.
    + lia.
    + contradiction.
    + destruct Hchain; contradiction.
Qed.

End Validation.

(** * The snapshot codec *)
Section Codec.
Context `{!CaseFold}.

Lemma App_deserialize_player (data : GameData) (g : WordGame) (i : nat)
    (d : PlayerData) :
  App.deserialize data = Some g →
  (data_players data ≫= (.!! i)) = Some d →
  ∃ p, players g !! i = Some p
       ∧ name p = d_name d ∧ score p = d_score d ∧ playerId p = d_id d
       ∧ (d_type d = Some (js "ComputerPlayer") →
          difficultyOf p = Some (orDefault (d_difficulty d) (js "medium"))
          ∧ emailOf p = None ∧ usernameOf p = None)
       ∧ (d_type d ≠ Some (js "ComputerPlayer") →
          difficultyOf p = None
          ∧ emailOf p = Some (orDefault (d_email d) [])
          ∧ usernameOf p = Some (orDefault (d_username d) [])).
Proof.
  unfold App.deserialize. destruct (data_players data) as [ps|]; [|discriminate].
  simpl. intros [= <-] Hd. simpl. rewrite list_lookup_fmap, Hd. simpl.
  eexists. split; [reflexivity|]. simpl.
  case_bool_decide; repeat split; intros; simpl; congruence.
Qed.

Lemma App_deserialize_constructed (data : GameData) (g : WordGame) :
  App.deserialize data = Some g → Forall constructed (players g).
Proof.
  unfold App.deserialize. destruct (data_players data) as [ps|]; [|discriminate].
  simpl. intros [= <-]. simpl. apply Forall_fmap, Forall_forall.
  intros d _ x. simpl. unfold difficultyOf. simpl.
  case_bool_decide; simpl; [|discriminate].
  intros [= <-]. apply orDefault_truthy. vm_compute. discriminate.
Qed.

Lemma App_startNewGame_constructed (g g' : WordGame) (cc dc : option Z)
    (n rid1 rid2 : jsstring) :
  Forall constructed (players g) →
  App.startNewGame g cc dc n rid1 rid2 = Some g' →
  Forall constructed (players g').
Proof.
  intros Hg. unfold App.startNewGame.
  destruct (players g) as [|p ps] eqn:Hps.
  - destruct (currentUser g) as [u|]; [|discriminate]. simpl.
    intros [= <-]. simpl. repeat constructor.
    + intros d. discriminate.
    + intros d. unfold difficultyOf. simpl. intros [= <-].
      apply orDefault_truthy. vm_compute. discriminate.
  - simpl. intros [= <-].
    change (Forall constructed (resetScore <$> (p :: ps))).
    apply Forall_fmap. eapply Forall_impl; [exact Hg|].
    intros x Hx. exact Hx.
Qed.

(** C9: reading a snapshot whose player list is present never throws in
    [src/app.js], whatever the discriminator tags are — a player whose
    tag is not ['ComputerPlayer'] (unknown or missing) is rebuilt as a
    human player — and absent optional fields take their defaults:
    difficulty ['medium'], email and username [''], active flag
    [false], used words empty. *)
Theorem C9_deserialize_defaults (data : GameData) (ps : list PlayerData) :
  data_players data = Some ps →
  ∃ g, App.deserialize data = Some g
    ∧ length (players g) = length ps
    ∧ (data_isGameActive data = None → isGameActive g = false)
    ∧ (data_usedWords data = None → usedWords g = ∅)
    ∧ ∀ i d, ps !! i = Some d →
        ∃ p, players g !! i = Some p
          ∧ name p = d_name d ∧ score p = d_score d ∧ playerId p = d_id d
          ∧ (d_type d = Some (js "ComputerPlayer") →
             isComputer p = true
             ∧ (d_difficulty d = None → difficultyOf p = Some (js "medium")))
          ∧ (d_type d ≠ Some (js "ComputerPlayer") →
             isHuman p = true
             ∧ (d_email d = None → emailOf p = Some [])
             ∧ (d_username d = None → usernameOf p = Some [])).
Proof.
  intros Hps.
  destruct (App.deserialize data) as [g|] eqn:Hg.
  2: { unfold App.deserialize in Hg. rewrite Hps in Hg. discriminate. }
  exists g. split; [reflexivity|].
  assert (Hfields : length (players g) = length ps
                    ∧ isGameActive g = default false (data_isGameActive data)
                    ∧ usedWords g = newSet (default [] (data_usedWords data))).
  { unfold App.deserialize in Hg. rewrite Hps in Hg. simpl in Hg.
    injection Hg as <-. simpl. rewrite length_fmap. auto. }
  destruct Hfields as (Hlen & Hact & Hused).
  split; [exact Hlen|].
  split; [intros Hnone; rewrite Hact, Hnone; reflexivity|].
  split; [intros Hnone; rewrite Hused, Hnone; reflexivity|].
  intros i d Hd.
  destruct (App_deserialize_player data g i d Hg) as
    (p & Hp & Hname & Hscore & Hid & Hcomp & Hhum).
  { rewrite Hps. exact Hd. }
  exists p. repeat split; try assumption.
  - destruct (Hcomp H0) as (Hdiff & _). unfold difficultyOf in Hdiff.
    unfold isComputer. destruct (variant p); [discriminate | reflexivity].
  - intros Hnone. destruct (Hcomp H0) as (Hdiff & _).
    rewrite Hdiff, Hnone. reflexivity.
  - destruct (Hhum H0) as (Hdiff & _). unfold difficultyOf in Hdiff.
    unfold isHuman. destruct (variant p); [reflexivity | discriminate].
  - intros Hnone. destruct (Hhum H0) as (_ & He & _).
    rewrite He, Hnone. reflexivity.
  - intros Hnone. destruct (Hhum H0) as (_ & _ & Hu).
    rewrite Hu, Hnone. reflexivity.
Qed.

Lemma App_player_round_trip (p : Player) :
  constructed p →
  let p' :=
    App.deserializePlayer
      (if bool_decide (d_type (Player_serialize p) = Some (js "ComputerPlayer"))
       then App.newComputerPlayer [] (js "medium")
       else newHumanPlayer [] [] [] [])
      (Player_serialize p) in
  score p' = score p ∧ name p' = name p ∧ playerId p' = playerId p
  ∧ emailOf p' = emailOf p ∧ usernameOf p' = usernameOf p
  ∧ difficultyOf p' = difficultyOf p.
Proof.
  intros Hc. destruct p as [n sc i [e u|d db]].
  - assert (Ht : bool_decide (d_type (Player_serialize
       {| name := n; score := sc; playerId := i; variant := HumanPlayer e u |})
       = Some (js "ComputerPlayer")) = false) by (vm_compute; reflexivity).
    cbv zeta. rewrite Ht.
    unfold App.deserializePlayer, emailOf, usernameOf, difficultyOf.
    cbn [variant newHumanPlayer Player_deserialize Player_serialize score name
         playerId d_name d_score d_id d_email d_username emailOf usernameOf].
    rewrite !orDefault_Some_empty. repeat split; reflexivity.
  - assert (Ht : bool_decide (d_type (Player_serialize
       {| name := n; score := sc; playerId := i; variant := ComputerPlayer d db |})
       = Some (js "ComputerPlayer")) = true) by (vm_compute; reflexivity).
    cbv zeta. rewrite Ht.
    unfold App.deserializePlayer, emailOf, usernameOf, difficultyOf.
    cbn [variant App.newComputerPlayer Player_deserialize Player_serialize score
         name playerId d_name d_score d_id d_difficulty difficultyOf].
    rewrite orDefault_Some_truthy by (apply Hc; reflexivity).
    repeat split; reflexivity.
Qed.

(** C6: in [src/app.js], reading back the snapshot of a game gives a
    game with the same category, active flag, last word and used-word
    set, and player by player the same score, name, id and
    class-specific fields (email and username of a human player,
    difficulty of a computer player). *)
Theorem C6_round_trip (g : WordGame) :
  Forall constructed (players g) →
  ∃ g', App.deserialize (serialize g) = Some g'
    ∧ currentCategory g' = currentCategory g
    ∧ isGameActive g' = isGameActive g
    ∧ lastWord g' = lastWord g
    ∧ usedWords g' = usedWords g
    ∧ length (players g') = length (players g)
    ∧ ∀ i p, players g !! i = Some p →
        ∃ p', players g' !! i = Some p'
          ∧ score p' = score p ∧ name p' = name p
          ∧ playerId p' = playerId p
          ∧ emailOf p' = emailOf p ∧ usernameOf p' = usernameOf p
          ∧ difficultyOf p' = difficultyOf p.
Proof.
  intros Hwf. eexists. split; [reflexivity|].
  cbn [currentCategory isGameActive lastWord usedWords players serialize
       data_players data_usedWords data_currentCategory data_lastWord
       data_isGameActive default].
  rewrite !orDefault_Some_empty.
  split; [reflexivity|]. split; [reflexivity|]. split; [reflexivity|].
  split; [unfold newSet; apply list_to_set_elements_L|].
  split; [rewrite !length_fmap; reflexivity|].
  intros i p Hp. rewrite !list_lookup_fmap, Hp.
  cbn [fmap option_fmap option_map].
  eexists. split; [reflexivity|].
  apply App_player_round_trip.
  rewrite Forall_forall in Hwf. apply Hwf.
  apply list_elem_of_lookup. eauto.
Qed.

Lemma emptyWordDatabase_lookup (category : jsstring) :
  default [] (Part000.emptyWordDatabase !! category) = [].
Proof.
  destruct (Part000.emptyWordDatabase !! category) as [ws|] eqn:Hl;
    [|reflexivity].
  simpl. unfold Part000.emptyWordDatabase in Hl.
  apply elem_of_list_to_map_2 in Hl.
  repeat (apply elem_of_cons in Hl as [Hl|Hl]; [congruence|]).
  inversion Hl.
Qed.

Lemma emptyWordDatabase_no_candidate (lastWord : jsstring)
    (usedWords : gset jsstring) (category : jsstring) :
  Part000.getAvailableWords Part000.emptyWordDatabase lastWord usedWords
    category = [].
Proof.
  unfold Part000.getAvailableWords.
  rewrite emptyWordDatabase_lookup. reflexivity.
Qed.

(** C10: in [src/unnamed/part_000] a computer player rebuilt by
    [deserialize] holds a word database whose list is empty for every
    category, so it has no candidate in any game context, its
    [makeMove] returns [null] and each of its turns is rejected. *)
Theorem C10_restored_computer_skips (data : GameData) (g : WordGame)
    (p : Player) :
  Part000.deserialize data = Some g →
  p ∈ players g →
  isComputer p = true →
  (∃ d, variant p = ComputerPlayer d Part000.emptyWordDatabase)
  ∧ (∀ category, default [] (Part000.emptyWordDatabase !! category) = [])
  ∧ ∀ (e : Turn) (s : MoveState),
      (∀ d db, variant p = ComputerPlayer d db →
               Part000.getAvailableWords db (s_lastWord s) (s_usedWords s)
                 (s_category s) = [])
      ∧ Part000.makeMove p e s = None
      ∧ ∀ g', Part000.accepts g' (Part000.makeMove p e s) = false.
Proof.
  unfold Part000.deserialize.
  destruct (data_players data) as [ps|]; [|discriminate]. simpl.
  intros [= <-] Hin Hcomp. simpl in Hin.
  apply list_elem_of_fmap in Hin as (d & -> & _).
  unfold isComputer in Hcomp. simpl in Hcomp.
  assert (Hv : ∃ diff, variant
     (Part000.deserializePlayer
        (if bool_decide (d_type d = Some (js "ComputerPlayer"))
         then Part000.newComputerPlayer [] (js "medium")
         else newHumanPlayer [] [] [] []) d)
     = ComputerPlayer diff Part000.emptyWordDatabase).
  { simpl. case_bool_decide; simpl in *; [eauto | discriminate]. }
  destruct Hv as [diff Hv].
  split; [exists diff; exact Hv|].
  split; [exact emptyWordDatabase_lookup|].
  intros e s.
  assert (Hmove : Part000.makeMove
     (Part000.deserializePlayer
        (if bool_decide (d_type d = Some (js "ComputerPlayer"))
         then Part000.newComputerPlayer [] (js "medium")
         else newHumanPlayer [] [] [] []) d) e s = None).
  { unfold Part000.makeMove. rewrite Hv.
    unfold Part000.ComputerPlayer_makeMove.
    rewrite emptyWordDatabase_no_candidate. reflexivity. }
  split.
  - intros d' db Hdb. rewrite Hv in Hdb. injection Hdb as _ <-.
    apply emptyWordDatabase_no_candidate.
  - split; [exact Hmove|]. intros g'. rewrite Hmove. reflexivity.
Qed.

End Codec.

(** * The game loop *)
Section Loop.
Context `{!CaseFold}.

Lemma pick_last_best : keepsGreater score
  (λ a b : Player, if score a >? score b then a else b).
Proof.
  intros a b. rewrite Z.gtb_ltb.
  destruct (Z.ltb_spec (score b) (score a)); [left | right]; split;
    (lia || reflexivity).
Qed.

Lemma showWinner_last_best (ps : list Player) :
  ps ≠ [] → ∃ i w, showWinner ps = Some w ∧ lastMaxAt score ps i w.
Proof.
  destruct ps as [|p0 rest]; [congruence|]. intros _. simpl.
  destruct (reduce_no_init_last score _ rest p0 pick_last_best) as [i Hi].
  eauto.
Qed.

Lemma size_add_fresh (w : jsstring) (used : gset jsstring) :
  w ∉ used → size ({[ w ]} ∪ used) = S (size used).
Proof.
  intros Hw. rewrite size_union by set_solver.
  rewrite size_singleton. reflexivity.
Qed.

Lemma App_accepts_true (g : WordGame) (word : option jsstring) :
  App.accepts g word = true
  ↔ ∃ w, word = Some w ∧ w ≠ [] ∧ App.validateWord g w = true.
Proof.
  destruct word as [w|]; simpl.
  - rewrite andb_true_iff, truthy_true. split.
    + intros [? ?]. eauto.
    + intros (w' & [= <-] & ? & ?). auto.
  - split; [discriminate | intros (w & ? & _); discriminate].
Qed.

Lemma App_resolveTurn_accepted (l : App.LoopState) (p : Player) (w : jsstring) :
  App.accepts (App.game l) (Some w) = true →
  App.resolveTurn l p (Some w) = App.acceptWord l p w.
Proof. simpl. intros ->. reflexivity. Qed.

Lemma App_resolveTurn_rejected (l : App.LoopState) (p : Player)
    (word : option jsstring) :
  App.accepts (App.game l) word = false →
  App.resolveTurn l p word = App.rejectWord l.
Proof. destruct word as [w|]; simpl; [intros ->|]; reflexivity. Qed.

Lemma App_rejectWord_Some (l : App.LoopState) :
  players (App.game l) ≠ [] →
  ∃ l', App.rejectWord l = Some l'
        ∧ App.skipped l' = S (App.skipped l)
        ∧ App.game l' = App.game l
        ∧ (App.announced l' = None ∧ (S (App.skipped l) < 2)%nat
             ∧ App.playerIdx l'
               = ((App.playerIdx l + 1) mod length (players (App.game l)))%nat
           ∨ (2 ≤ S (App.skipped l))%nat
             ∧ App.playerIdx l' = App.playerIdx l
             ∧ ∃ i w, App.announced l' = Some w
                      ∧ lastMaxAt score (players (App.game l)) i w).
Proof.
  intros Hps. unfold App.rejectWord, App.MAX_SKIPPED_TURNS.
  destruct (Nat.leb_spec 2 (S (App.skipped l))) as [Hsk|Hsk].
  - destruct (showWinner_last_best _ Hps) as (i & w & Hw & Hmax).
    rewrite Hw. simpl. eexists. split; [reflexivity|]. simpl.
    repeat split. right. eauto 10.
  - eexists. split; [reflexivity|]. simpl. repeat split. left. auto.
Qed.

Lemma Part000_applyWord_rejected (l : Part000.LoopState) (p : Player)
    (word : option jsstring) :
  Part000.accepts (Part000.game l) word = false →
  Part000.applyWord l p word
  = {| Part000.game := Part000.game l;
       Part000.currentPlayerIndex := Part000.currentPlayerIndex l;
       Part000.skippedTurns := S (Part000.skippedTurns l);
       Part000.announced := Part000.announced l |}.
Proof.
  unfold Part000.applyWord. destruct word as [w|]; simpl; [intros ->|];
    reflexivity.
Qed.

Lemma Part000_endOfTurn_frame (l l' : Part000.LoopState) :
  Part000.endOfTurn l = Some l' →
  Part000.skippedTurns l' = Part000.skippedTurns l
  ∧ players (Part000.game l') = players (Part000.game l)
  ∧ usedWords (Part000.game l') = usedWords (Part000.game l)
  ∧ lastWord (Part000.game l') = lastWord (Part000.game l)
  ∧ isGameActive (Part000.game l')
    = isGameActive (Part000.game l)
      && (size (usedWords (Part000.game l)) <? 5)%nat.
Proof.
  unfold Part000.endOfTurn.
  destruct (Nat.leb_spec 5 (size (usedWords (Part000.game l)))) as [Hs|Hs].
  - destruct (showWinner _) as [w|]; [|discriminate]. simpl.
    destruct (Part000.statsBlock _) as [[]|]; [|discriminate]. simpl.
    intros [= <-]. simpl.
    rewrite (proj2 (Nat.ltb_ge _ _) Hs), andb_false_r. auto.
  - intros [= <-]. simpl.
    rewrite (proj2 (Nat.ltb_lt _ _) Hs), andb_true_r. auto.
Qed.

Lemma Part000_endOfTurn_below (l : Part000.LoopState) :
  (size (usedWords (Part000.game l)) < 5)%nat →
  is_Some (Part000.endOfTurn l).
Proof.
  intros Hs. unfold Part000.endOfTurn.
  rewrite (proj2 (Nat.leb_gt _ _) Hs). eauto.
Qed.

(** C5: in both files a rejected submission adds exactly one to the skip
    counter and leaves the used-word set, the last word and every
    player's score as they were. In [src/unnamed/part_000] the turn can
    only fail to complete inside the statistics block, which is not
    entered below five used words. *)
Theorem C5_rejection_frame :
  (∀ (l : App.LoopState) (p : Player) (word : option jsstring),
     players (App.game l) !! App.playerIdx l = Some p →
     App.accepts (App.game l) word = false →
     ∃ l', App.resolveTurn l p word = Some l'
           ∧ App.skipped l' = S (App.skipped l)
           ∧ usedWords (App.game l') = usedWords (App.game l)
           ∧ lastWord (App.game l') = lastWord (App.game l)
           ∧ players (App.game l') = players (App.game l))
  ∧ (∀ (l l' : Part000.LoopState) (p : Player) (word : option jsstring),
       Part000.accepts (Part000.game l) word = false →
       Part000.resolveTurn l p word = Some l' →
       Part000.skippedTurns l' = S (Part000.skippedTurns l)
       ∧ usedWords (Part000.game l') = usedWords (Part000.game l)
       ∧ lastWord (Part000.game l') = lastWord (Part000.game l)
       ∧ players (Part000.game l') = players (Part000.game l))
  ∧ (∀ (l : Part000.LoopState) (p : Player) (word : option jsstring),
       Part000.accepts (Part000.game l) word = false →
       (size (usedWords (Part000.game l)) < 5)%nat →
       is_Some (Part000.resolveTurn l p word)).
Proof.
  split; [|split].
  - intros l p word Hp Hrej.
    rewrite (App_resolveTurn_rejected l p word Hrej).
    destruct (App_rejectWord_Some l) as (l' & Hl' & Hsk & Hg & _).
    { intros Hnil. rewrite Hnil in Hp. discriminate. }
    exists l'. rewrite Hg. auto.
  - intros l l' p word Hrej. unfold Part000.resolveTurn.
    rewrite (Part000_applyWord_rejected l p word Hrej).
    intros Hend. apply Part000_endOfTurn_frame in Hend. simpl in Hend.
    destruct Hend as (Hsk & Hps & Hused & Hlast & _). auto.
  - intros l p word Hrej Hs. unfold Part000.resolveTurn.
    rewrite (Part000_applyWord_rejected l p word Hrej).
    apply Part000_endOfTurn_below. simpl. exact Hs.
Qed.

Lemma App_startNewGame_fresh (g g0 : WordGame) (cc dc : option Z)
    (n rid1 rid2 : jsstring) :
  App.startNewGame g cc dc n rid1 rid2 = Some g0 →
  usedWords g0 = ∅ ∧ lastWord g0 = [] ∧ isGameActive g0 = true
  ∧ players g0 ≠ [] ∧ Forall (λ p, score p = 0) (players g0).
Proof.
  unfold App.startNewGame. destruct (players g) as [|p ps].
  - destruct (currentUser g) as [u|]; [|discriminate]. simpl.
    intros [= <-]. simpl. repeat split; [discriminate|].
    repeat constructor.
  - simpl. intros [= <-]. cbn [usedWords lastWord isGameActive players].
    repeat split; [discriminate|].
    change (Forall (λ p, score p = 0) (resetScore <$> (p :: ps))).
    apply Forall_fmap, Forall_forall. intros x _. reflexivity.
Qed.

Lemma Part000_startNewGame_fresh (g g0 : WordGame) (catChoice : option Z)
    (n rid1 rid2 : jsstring) :
  Part000.startNewGame g catChoice n rid1 rid2 = Some g0 →
  usedWords g0 = ∅ ∧ lastWord g0 = [] ∧ isGameActive g0 = true
  ∧ players g0 ≠ [] ∧ Forall (λ p, score p = 0) (players g0).
Proof.
  unfold Part000.startNewGame. destruct (players g) as [|p ps].
  - destruct (currentUser g) as [u|]; [|discriminate]. simpl.
    intros [= <-]. simpl. repeat split; [discriminate|].
    repeat constructor.
  - simpl. intros [= <-]. cbn [usedWords lastWord isGameActive players].
    repeat split; [discriminate|].
    change (Forall (λ p, score p = 0) (resetScore <$> (p :: ps))).
    apply Forall_fmap, Forall_forall. intros x _. reflexivity.
Qed.

(** A fresh game accepts any word of at least two code units that has
    no surrounding whitespace to lose. *)
Lemma App_fresh_accepts (g0 : WordGame) (w : jsstring) :
  usedWords g0 = ∅ → lastWord g0 = [] → w ≠ [] → (2 ≤ length (trim w))%nat →
  App.accepts g0 (Some w) = true.
Proof.
  intros Hu Hl Hw Hlen. apply App_accepts_true. exists w.
  split; [reflexivity|]. split; [exact Hw|].
  apply validateWord_true. rewrite Hu, Hl.
  repeat split; [exact Hw | exact Hlen | set_solver | left; reflexivity].
Qed.

Lemma App_acceptWord_Some (l : App.LoopState) (p : Player) (w : jsstring) :
  players (App.game l) !! App.playerIdx l = Some p →
  ∃ l', App.acceptWord l p w = Some l'
    ∧ players (App.game l')
      = <[App.playerIdx l := addPoint (Z.min (wordLength w / 2) 3) p]>
          (players (App.game l))
    ∧ usedWords (App.game l') = {[ toLowerCase w ]} ∪ usedWords (App.game l)
    ∧ lastWord (App.game l') = w
    ∧ App.skipped l' = 0%nat
    ∧ (((size (usedWords (App.game l')) < 5)%nat
        ∧ isGameActive (App.game l') = isGameActive (App.game l)
        ∧ App.announced l' = None
        ∧ App.playerIdx l'
          = ((App.playerIdx l + 1) mod length (players (App.game l)))%nat)
       ∨ ((5 ≤ size (usedWords (App.game l')))%nat
          ∧ isGameActive (App.game l') = false
          ∧ App.playerIdx l' = App.playerIdx l
          ∧ ∃ i x, App.announced l' = Some x
                   ∧ lastMaxAt score (players (App.game l')) i x)).
Proof.
  intros Hp. unfold App.acceptWord, App.MAX_WORDS_FOR_WIN.
  fold (wordLength w).
  set (ps := <[App.playerIdx l := _]> (players (App.game l))).
  destruct (Nat.leb_spec 5 (size ({[toLowerCase w]} ∪ usedWords (App.game l))))
    as [Hs|Hs].
  - destruct (showWinner_last_best ps) as (i & x & Hx & Hmax).
    { intros Hnil. apply (f_equal length) in Hnil. unfold ps in Hnil.
      rewrite length_insert in Hnil. apply lookup_lt_Some in Hp.
      simpl in Hnil. lia. }
    rewrite Hx. simpl. eexists. split; [reflexivity|]. simpl.
    repeat split. right. eauto 10.
  - eexists. split; [reflexivity|]. simpl. repeat split. left.
    unfold ps. rewrite length_insert. auto.
Qed.

Lemma Part000_accepts_true (g : WordGame) (word : option jsstring) :
  Part000.accepts g word = true →
  ∃ w, word = Some w ∧ w ≠ [] ∧ toLowerCase w ∉ usedWords g.
Proof.
  destruct word as [w|]; simpl; [|discriminate].
  rewrite andb_true_iff, truthy_true. intros [Hw Hv]. exists w.
  split; [reflexivity|]. split; [exact Hw|].
  unfold Part000.validateWord in Hv.
  destruct (negb (truthy w) || (length w <? 2)%nat); [discriminate|].
  apply andb_true_iff in Hv as [Hnew _].
  apply negb_true_iff, bool_decide_eq_false in Hnew. exact Hnew.
Qed.

Lemma Part000_applyWord_accepted (l : Part000.LoopState) (p : Player)
    (w : jsstring) :
  Part000.accepts (Part000.game l) (Some w) = true →
  let l1 := Part000.applyWord l p (Some w) in
  players (Part000.game l1)
  = <[Part000.currentPlayerIndex l := addPoint 1 p]> (players (Part000.game l))
  ∧ usedWords (Part000.game l1)
    = {[ toLowerCase w ]} ∪ usedWords (Part000.game l)
  ∧ lastWord (Part000.game l1) = w
  ∧ isGameActive (Part000.game l1) = isGameActive (Part000.game l)
  ∧ Part000.skippedTurns l1 = 0%nat
  ∧ Part000.currentPlayerIndex l1 = Part000.currentPlayerIndex l.
Proof.
  simpl. intros Hacc. unfold Part000.applyWord. rewrite Hacc. simpl. auto 10.
Qed.

(** C3, as the code has it: in [src/app.js] an accepted word [w] adds
    exactly [min(floor(length(w)/2), 3)] to the score of the acting
    player and nothing to the others, so that "Moscow" as the first
    word of a game gives 3 points; in [src/unnamed/part_000] an accepted
    word adds exactly 1. *)
Theorem C3_points_awarded :
  (∀ (l : App.LoopState) (p : Player) (w : jsstring),
     players (App.game l) !! App.playerIdx l = Some p →
     App.accepts (App.game l) (Some w) = true →
     ∃ l' p', App.resolveTurn l p (Some w) = Some l'
       ∧ players (App.game l') !! App.playerIdx l = Some p'
       ∧ score p' = score p + Z.min (wordLength w / 2) 3
       ∧ ∀ j, j ≠ App.playerIdx l →
              players (App.game l') !! j = players (App.game l) !! j)
  ∧ (∀ (g g0 : WordGame) (cc dc : option Z) (n rid1 rid2 : jsstring)
       (p : Player),
       App.startNewGame g cc dc n rid1 rid2 = Some g0 →
       players g0 !! 0%nat = Some p →
       App.accepts g0 (Some (js "Moscow")) = true
       ∧ ∃ l' p', App.resolveTurn (App.enterLoop g0) p (Some (js "Moscow"))
                  = Some l'
                  ∧ players (App.game l') !! 0%nat = Some p'
                  ∧ score p' = 3)
  ∧ (∀ (l l' : Part000.LoopState) (p : Player) (w : jsstring),
       players (Part000.game l) !! Part000.currentPlayerIndex l = Some p →
       Part000.accepts (Part000.game l) (Some w) = true →
       Part000.resolveTurn l p (Some w) = Some l' →
       ∃ p', players (Part000.game l') !! Part000.currentPlayerIndex l = Some p'
             ∧ score p' = score p + 1)
  ∧ (∀ (l : Part000.LoopState) (p : Player) (w : jsstring),
       Part000.accepts (Part000.game l) (Some w) = true →
       (size (usedWords (Part000.game l)) + 1 < 5)%nat →
       is_Some (Part000.resolveTurn l p (Some w))).
Proof.
  assert (HA : ∀ (l : App.LoopState) (p : Player) (w : jsstring),
     players (App.game l) !! App.playerIdx l = Some p →
     App.accepts (App.game l) (Some w) = true →
     ∃ l' p', App.resolveTurn l p (Some w) = Some l'
       ∧ players (App.game l') !! App.playerIdx l = Some p'
       ∧ score p' = score p + Z.min (wordLength w / 2) 3
       ∧ ∀ j, j ≠ App.playerIdx l →
              players (App.game l') !! j = players (App.game l) !! j).
  { intros l p w Hp Hacc. rewrite (App_resolveTurn_accepted l p w Hacc).
    destruct (App_acceptWord_Some l p w Hp) as (l' & Hl' & Hps & _).
    exists l', (addPoint (Z.min (wordLength w / 2) 3) p).
    split; [exact Hl'|]. rewrite Hps. split; [|split].
    - apply list_lookup_insert_eq. eapply lookup_lt_Some, Hp.
    - reflexivity.
    - intros j Hj. apply list_lookup_insert_ne. congruence. }
  split; [exact HA|]. split; [|split].
  - intros g g0 cc dc n rid1 rid2 p Hstart Hp.
    destruct (App_startNewGame_fresh _ _ _ _ _ _ _ Hstart)
      as (Hu & Hl & _ & _ & Hzero).
    assert (Hacc : App.accepts g0 (Some (js "Moscow")) = true).
    { apply App_fresh_accepts; [exact Hu | exact Hl | discriminate|].
      vm_compute. lia. }
    split; [exact Hacc|].
    destruct (HA (App.enterLoop g0) p (js "Moscow") Hp Hacc)
      as (l' & p' & Hl' & Hp' & Hscore & _).
    exists l', p'. split; [exact Hl'|]. split; [exact Hp'|].
    rewrite Hscore. rewrite Forall_forall in Hzero.
    rewrite (Hzero p) by (apply list_elem_of_lookup; eauto). reflexivity.
  - intros l l' p w Hp Hacc. unfold Part000.resolveTurn. intros Hend.
    apply Part000_endOfTurn_frame in Hend as (_ & Hps & _).
    destruct (Part000_applyWord_accepted l p w Hacc) as (Hps1 & _).
    exists (addPoint 1 p). rewrite Hps, Hps1.
    split; [|reflexivity].
    apply list_lookup_insert_eq. eapply lookup_lt_Some, Hp.
  - intros l p w Hacc Hs. unfold Part000.resolveTurn.
    apply Part000_endOfTurn_below.
    destruct (Part000_applyWord_accepted l p w Hacc) as (_ & Hu & _).
    rewrite Hu.
    destruct (Part000_accepts_true _ _ Hacc) as (w' & [= <-] & _ & Hnew).
    rewrite (size_add_fresh _ _ Hnew). lia.
Qed.

Lemma App_running_true (l : App.LoopState) :
  App.running l = true
  ↔ isGameActive (App.game l) = true ∧ (App.skipped l < 2)%nat
    ∧ App.announced l = None.
Proof.
  unfold App.running, App.MAX_SKIPPED_TURNS.
  rewrite !andb_true_iff, Nat.ltb_lt, negb_true_iff, bool_decide_eq_false.
  rewrite <- eq_None_not_Some. tauto.
Qed.

Lemma App_turn_unfold (l : App.LoopState) (e : Turn) (p : Player) :
  players (App.game l) !! App.playerIdx l = Some p →
  App.turn l e
  = App.resolveTurn l p (App.makeMove p e (moveState (App.game l))).
Proof. intros Hp. unfold App.turn. rewrite Hp. reflexivity. Qed.

Lemma mod_index_in_range (i n : nat) : (0 < n)%nat → ((i + 1) mod n < n)%nat.
Proof. intros Hn. apply Nat.mod_upper_bound. lia. Qed.

(** An accepted submission of [src/app.js] adds one word. *)
Lemma App_turn_accepted (l : App.LoopState) (e : Turn) (p : Player) :
  players (App.game l) !! App.playerIdx l = Some p →
  App.accepts (App.game l) (App.makeMove p e (moveState (App.game l))) = true →
  ∃ l', App.turn l e = Some l'
    ∧ size (usedWords (App.game l')) = S (size (usedWords (App.game l)))
    ∧ length (players (App.game l')) = length (players (App.game l))
    ∧ App.skipped l' = 0%nat
    ∧ (((size (usedWords (App.game l')) < 5)%nat
        ∧ isGameActive (App.game l') = isGameActive (App.game l)
        ∧ App.announced l' = None
        ∧ App.playerIdx l'
          = ((App.playerIdx l + 1) mod length (players (App.game l)))%nat)
       ∨ ((5 ≤ size (usedWords (App.game l')))%nat
          ∧ isGameActive (App.game l') = false
          ∧ App.playerIdx l' = App.playerIdx l
          ∧ ∃ i x, App.announced l' = Some x
                   ∧ lastMaxAt score (players (App.game l')) i x)).
Proof.
  intros Hp Hacc. rewrite (App_turn_unfold l e p Hp).
  destruct (proj1 (App_accepts_true _ _) Hacc) as (w & Hw & Hne & Hval).
  rewrite Hw in *. rewrite (App_resolveTurn_accepted l p w Hacc).
  destruct (App_acceptWord_Some l p w Hp)
    as (l' & Hl' & Hps & Hused & _ & Hsk & Hcases).
  exists l'. split; [exact Hl'|].
  apply validateWord_true in Hval as (_ & _ & Hnew & _).
  split; [rewrite Hused; apply size_add_fresh, Hnew|].
  split; [rewrite Hps; apply length_insert|].
  split; [exact Hsk | exact Hcases].
Qed.

Lemma App_turn_invariant (l : App.LoopState) (e : Turn) :
  App_invariant l → App.running l = true →
  ∃ l', App.turn l e = Some l' ∧ App_invariant l'.
Proof.
  intros (Hidx & Hact & Hinact) Hrun.
  apply App_running_true in Hrun as (Hactive & Hsk & Hann).
  destruct (lookup_lt_is_Some_2 _ _ Hidx) as [p Hp].
  destruct (App.accepts (App.game l)
              (App.makeMove p e (moveState (App.game l)))) eqn:Hacc.
  - destruct (App_turn_accepted l e p Hp Hacc)
      as (l' & Hl' & Hsize & Hlen & _ & Hcases).
    exists l'. split; [exact Hl'|]. specialize (Hact Hactive).
    destruct Hcases as [(Hlt & Ha & Hn & Hi)|(Hge & Ha & Hi & i & x & Hx & _)].
    + repeat split.
      * rewrite Hi, Hlen. apply mod_index_in_range. lia.
      * intros _. exact Hlt.
      * congruence.
      * congruence.
    + repeat split.
      * rewrite Hi, Hlen. exact Hidx.
      * congruence.
      * lia.
      * rewrite Hx. eauto.
  - rewrite (App_turn_unfold l e p Hp), (App_resolveTurn_rejected _ _ _ Hacc).
    destruct (App_rejectWord_Some l) as (l' & Hl' & _ & Hg & Hcases).
    { intros Hnil. rewrite Hnil in Hp. discriminate. }
    exists l'. split; [exact Hl'|]. unfold App_invariant. rewrite Hg.
    split; [|split; [exact Hact|]].
    + destruct Hcases as [(_ & _ & ->)|(_ & -> & _)];
        [apply mod_index_in_range; lia | exact Hidx].
    + intros Hfalse. congruence.
Qed.

Lemma App_gameLoopFrom_invariant (es : list Turn) (l : App.LoopState) :
  App_invariant l →
  ∃ l', App.gameLoopFrom l es = Some l' ∧ App_invariant l'.
Proof.
  revert l. induction es as [|e es IH]; intros l Hinv; simpl.
  - eauto.
  - destruct (App.running l) eqn:Hrun; [|eauto].
    destruct (App_turn_invariant l e Hinv Hrun) as (l1 & Hl1 & Hinv1).
    rewrite Hl1. simpl. apply IH, Hinv1.
Qed.

Lemma lookup_is_Some_nonempty {A} (l : list A) (i : nat) (x : A) :
  l !! i = Some x → l ≠ [].
Proof. intros Hx ->. discriminate. Qed.

(** C1, as the code has it: when two submissions in a row are rejected,
    [src/app.js] stops the loop at the second one at the latest and
    announces a player of highest score; if several players have that
    score, it is the one that comes last in turn order. *)
Theorem C1_attrition (l : App.LoopState) (e1 e2 : Turn) :
  App.running l = true →
  App_rejected l e1 →
  (∀ l1, App.turn l e1 = Some l1 → App.running l1 = true →
         App_rejected l1 e2) →
  ∃ l2 i w, App.gameLoopFrom l [e1; e2] = Some l2
    ∧ App.running l2 = false
    ∧ App.announced l2 = Some w
    ∧ lastMaxAt score (players (App.game l2)) i w.
Proof.
  intros Hrun (p1 & Hp1 & Hrej1) Hsecond.
  assert (Hstop : ∀ l' x, App.announced l' = Some x → App.running l' = false).
  { intros l' x Hx. unfold App.running. rewrite Hx.
    rewrite bool_decide_eq_true_2 by eauto. apply andb_false_r. }
  simpl. rewrite Hrun.
  pose proof (App_turn_unfold l e1 p1 Hp1) as Hturn1.
  rewrite (App_resolveTurn_rejected _ _ _ Hrej1) in Hturn1.
  destruct (App_rejectWord_Some l (lookup_is_Some_nonempty _ _ _ Hp1))
    as (l1 & Hl1 & Hsk1 & Hg1 & Hcases1).
  rewrite Hturn1, Hl1. simpl.
  destruct Hcases1 as [(Hann1 & Hlt1 & Hidx1)|(_ & _ & i & w & Hw & Hmax)].
  - assert (Hrun1 : App.running l1 = true).
    { apply App_running_true. apply App_running_true in Hrun as (Ha & _ & _).
      rewrite Hg1, Hsk1. auto. }
    rewrite Hrun1.
    destruct (Hsecond l1) as (p2 & Hp2 & Hrej2);
      [congruence | exact Hrun1 |].
    rewrite (App_turn_unfold l1 e2 p2 Hp2),
      (App_resolveTurn_rejected _ _ _ Hrej2).
    destruct (App_rejectWord_Some l1 (lookup_is_Some_nonempty _ _ _ Hp2))
      as (l2 & Hl2 & Hsk2 & Hg2 & Hcases2).
    rewrite Hl2. simpl.
    destruct Hcases2 as [(_ & Hlt2 & _)|(_ & _ & i & w & Hw & Hmax)].
    + apply App_running_true in Hrun as (_ & Hsk & _). lia.
    + exists l2, i, w. rewrite Hg2. eauto.
  - rewrite (Hstop l1 w Hw). exists l1, i, w. rewrite Hg1. eauto.
Qed.

Lemma Part000_running_true (l : Part000.LoopState) :
  Part000.running l = true
  ↔ isGameActive (Part000.game l) = true ∧ (Part000.skippedTurns l < 2)%nat.
Proof.
  unfold Part000.running. rewrite andb_true_iff, Nat.ltb_lt. reflexivity.
Qed.

Lemma Part000_turn_unfold (l : Part000.LoopState) (e : Turn) (p : Player) :
  players (Part000.game l) !! Part000.currentPlayerIndex l = Some p →
  Part000.turn l e
  = Part000.resolveTurn l p
      (Part000.makeMove p e (moveState (Part000.game l))).
Proof. intros Hp. unfold Part000.turn. rewrite Hp. reflexivity. Qed.

Lemma Part000_endOfTurn_index (l l' : Part000.LoopState) :
  Part000.endOfTurn l = Some l' →
  Part000.currentPlayerIndex l'
  = ((Part000.currentPlayerIndex l + 1)
       mod length (players (Part000.game l)))%nat
  ∧ ((5 ≤ size (usedWords (Part000.game l)))%nat →
     is_Some (Part000.announced l')).
Proof.
  unfold Part000.endOfTurn.
  destruct (Nat.leb_spec 5 (size (usedWords (Part000.game l)))) as [Hs|Hs].
  - destruct (showWinner _) as [w|]; [|discriminate]. simpl.
    destruct (Part000.statsBlock _) as [[]|]; [|discriminate]. simpl.
    intros [= <-]. simpl. eauto.
  - intros [= <-]. simpl. split; [reflexivity | lia].
Qed.

(** The statistics block looks at the classes and usernames of the
    players and at their number, not at their scores. *)
Lemma statsBlock_variants (ps ps' : list Player) :
  variant <$> ps = variant <$> ps' →
  Part000.statsBlock ps = Part000.statsBlock ps'.
Proof.
  intros Hv. unfold Part000.statsBlock.
  assert (Hsecond : (ps !! 1%nat ≫= λ _, Some ()) = (ps' !! 1%nat ≫= λ _, Some ())).
  { apply (f_equal (λ vs, vs !! 1%nat)) in Hv.
    rewrite !list_lookup_fmap in Hv.
    destruct (ps !! 1%nat), (ps' !! 1%nat); simpl in *; congruence. }
  assert (Hfind : (usernameOf <$> List.find isHuman ps)
                  = (usernameOf <$> List.find isHuman ps')).
  { clear Hsecond. revert ps' Hv.
    induction ps as [|p ps IH]; intros [|p' ps'] Hv; try discriminate;
      [reflexivity|].
    rewrite !fmap_cons in Hv. injection Hv as Hp Hrest. simpl.
    assert (Hh : isHuman p' = isHuman p)
      by (unfold isHuman; rewrite Hp; reflexivity).
    assert (Hu : usernameOf p' = usernameOf p)
      by (unfold usernameOf; rewrite Hp; reflexivity).
    rewrite Hh. destruct (isHuman p); simpl;
      [rewrite Hu; reflexivity | apply IH, Hrest]. }
  destruct (List.find isHuman ps) as [h|], (List.find isHuman ps') as [h'|];
    simpl in Hfind; try congruence.
  injection Hfind as ->. rewrite Hsecond. reflexivity.
Qed.

Lemma variants_addPoint (ps : list Player) (i : nat) (p : Player) (k : Z) :
  ps !! i = Some p →
  variant <$> <[i := addPoint k p]> ps = variant <$> ps.
Proof.
  intros Hp. rewrite list_fmap_insert. apply list_insert_id.
  rewrite list_lookup_fmap, Hp. reflexivity.
Qed.

(** One turn of [src/unnamed/part_000], when it completes. *)
Lemma Part000_resolveTurn_step (l l' : Part000.LoopState) (p : Player)
    (word : option jsstring) :
  Part000_invariant l →
  isGameActive (Part000.game l) = true →
  players (Part000.game l) !! Part000.currentPlayerIndex l = Some p →
  Part000.resolveTurn l p word = Some l' →
  Part000_invariant l'
  ∧ variant <$> players (Part000.game l') = variant <$> players (Part000.game l)
  ∧ (Part000.accepts (Part000.game l) word = true →
     size (usedWords (Part000.game l'))
     = S (size (usedWords (Part000.game l)))).
Proof.
  intros (Hidx & Hact & _) Hactive Hp. unfold Part000.resolveTurn.
  intros Hend. specialize (Hact Hactive).
  destruct (Part000_endOfTurn_frame _ _ Hend) as (_ & Hps & Hused & _ & Ha).
  destruct (Part000_endOfTurn_index _ _ Hend) as (Hi & Hann).
  destruct (Part000.accepts (Part000.game l) word) eqn:Hacc.
  - destruct (Part000_accepts_true _ _ Hacc) as (w & -> & _ & Hnew).
    destruct (Part000_applyWord_accepted l p w Hacc)
      as (Hps1 & Hused1 & _ & Ha1 & _ & Hi1).
    rewrite Hused1 in *. rewrite (size_add_fresh _ _ Hnew) in *.
    rewrite Hps1 in *. rewrite length_insert in Hi.
    rewrite Ha1, Hactive, andb_true_l in Ha.
    split; [|split].
    + unfold Part000_invariant. rewrite Hps, Hused, Ha, length_insert.
      rewrite (size_add_fresh _ _ Hnew).
      split; [rewrite Hi; apply mod_index_in_range; lia|].
      split; [intros Hlt; apply Nat.ltb_lt in Hlt; exact Hlt|].
      intros Hge. apply Nat.ltb_ge in Hge. split; [lia|]. apply Hann. lia.
    + rewrite Hps. apply variants_addPoint, Hp.
    + intros _. rewrite Hused. apply size_add_fresh, Hnew.
  - rewrite (Part000_applyWord_rejected _ _ _ Hacc) in *. simpl in *.
    rewrite Hactive, andb_true_l in Ha.
    split; [|split].
    + unfold Part000_invariant. rewrite Hps, Hused, Ha.
      split; [rewrite Hi; apply mod_index_in_range; lia|].
      split; [intros _; exact Hact|].
      intros Hge. apply Nat.ltb_ge in Hge. lia.
    + rewrite Hps. reflexivity.
    + discriminate.
Qed.

Lemma Part000_resolveTurn_total (l : Part000.LoopState) (p : Player)
    (word : option jsstring) :
  players (Part000.game l) !! Part000.currentPlayerIndex l = Some p →
  is_Some (Part000.statsBlock (players (Part000.game l))) →
  is_Some (Part000.resolveTurn l p word).
Proof.
  intros Hp Hstats. unfold Part000.resolveTurn, Part000.endOfTurn.
  set (l1 := Part000.applyWord l p word).
  assert (Hv : variant <$> players (Part000.game l1)
               = variant <$> players (Part000.game l)).
  { unfold l1. destruct (Part000.accepts (Part000.game l) word) eqn:Hacc.
    - destruct (Part000_accepts_true _ _ Hacc) as (w & -> & _).
      destruct (Part000_applyWord_accepted l p w Hacc) as (-> & _).
      apply variants_addPoint, Hp.
    - rewrite (Part000_applyWord_rejected _ _ _ Hacc). reflexivity. }
  destruct (5 <=? size (usedWords (Part000.game l1)))%nat; [|eauto].
  destruct (showWinner_last_best (players (Part000.game l1)))
    as (i & w & -> & _).
  { intros Hnil. rewrite Hnil in Hv. symmetry in Hv.
    apply fmap_nil_inv in Hv. rewrite Hv in Hp. discriminate. }
  simpl. rewrite (statsBlock_variants _ _ Hv).
  destruct Hstats as [[] ->]. simpl. eauto.
Qed.

Lemma Part000_afterLoop_invariant (l l' : Part000.LoopState) :
  Part000_invariant l → Part000.afterLoop l = Some l' →
  Part000_invariant l' ∧ Part000.game l' = Part000.game l.
Proof.
  intros Hinv. unfold Part000.afterLoop.
  destruct (2 <=? Part000.skippedTurns l)%nat; [|intros [= <-]; auto].
  destruct (showWinner _) as [w|]; [|discriminate]. simpl.
  intros [= <-]. split; [|reflexivity].
  destruct Hinv as (Hidx & Hact & Hinact). unfold Part000_invariant. simpl.
  split; [exact Hidx|]. split; [exact Hact|].
  intros Hf. split; [apply Hinact, Hf | eauto].
Qed.

Lemma Part000_gameLoopFrom_invariant (es : list Turn)
    (l l' : Part000.LoopState) :
  Part000_invariant l → Part000.gameLoopFrom l es = Some l' →
  Part000_invariant l'.
Proof.
  revert l. induction es as [|e es IH]; intros l Hinv; simpl;
    destruct (Part000.running l) eqn:Hrun.
  - intros [= <-]. exact Hinv.
  - intros Hafter. eapply Part000_afterLoop_invariant; eauto.
  - destruct (Part000.turn l e) as [l1|] eqn:Hturn; [|discriminate]. simpl.
    apply IH. apply Part000_running_true in Hrun as (Hactive & _).
    destruct (lookup_lt_is_Some_2 _ _ (proj1 Hinv)) as [p Hp].
    rewrite (Part000_turn_unfold l e p Hp) in Hturn.
    eapply Part000_resolveTurn_step; eauto.
  - intros Hafter. eapply Part000_afterLoop_invariant; eauto.
Qed.

Lemma Part000_gameLoopFrom_total (es : list Turn) (l : Part000.LoopState) :
  Part000_invariant l →
  is_Some (Part000.statsBlock (players (Part000.game l))) →
  is_Some (Part000.gameLoopFrom l es).
Proof.
  assert (Hafter : ∀ l, Part000_invariant l → is_Some (Part000.afterLoop l)).
  { intros l0 (Hidx & _). unfold Part000.afterLoop.
    destruct (2 <=? Part000.skippedTurns l0)%nat; [|eauto].
    destruct (showWinner_last_best (players (Part000.game l0)))
      as (i & w & -> & _); [|simpl; eauto].
    intros Hnil. rewrite Hnil in Hidx. simpl in Hidx. lia. }
  revert l. induction es as [|e es IH]; intros l Hinv Hstats; simpl;
    destruct (Part000.running l) eqn:Hrun; eauto.
  apply Part000_running_true in Hrun as (Hactive & _).
  destruct (lookup_lt_is_Some_2 _ _ (proj1 Hinv)) as [p Hp].
  rewrite (Part000_turn_unfold l e p Hp).
  destruct (Part000_resolveTurn_total l p
              (Part000.makeMove p e (moveState (Part000.game l))) Hp Hstats)
    as [l1 Hl1].
  rewrite Hl1. simpl.
  destruct (Part000_resolveTurn_step _ _ _ _ Hinv Hactive Hp Hl1)
    as (Hinv1 & Hv & _).
  apply IH; [exact Hinv1|].
  rewrite (statsBlock_variants _ _ Hv). exact Hstats.
Qed.

(** The players set up by [#setupPlayers] never make the statistics
    block throw: there are two of them. *)
Lemma Part000_default_setup_safe (g g0 : WordGame) (catChoice : option Z)
    (n rid1 rid2 : jsstring) :
  players g = [] →
  Part000.startNewGame g catChoice n rid1 rid2 = Some g0 →
  is_Some (Part000.statsBlock (players g0)).
Proof.
  intros Hnil. unfold Part000.startNewGame. rewrite Hnil.
  destruct (currentUser g) as [u|]; [|discriminate]. simpl.
  intros [= <-]. unfold Part000.statsBlock. simpl.
  destruct (truthy (username u)); simpl; eauto.
Qed.

(** Inputs that arrive after the loop of [src/app.js] has stopped are
    not read. *)
Lemma App_gameLoopFrom_stopped (es : list Turn) (l : App.LoopState) :
  App.running l = false → App.gameLoopFrom l es = Some l.
Proof. intros Hrun. destruct es; simpl; [|rewrite Hrun]; reflexivity. Qed.

(** The run over [es ++ es'] is the run over [es] continued over
    [es']. *)
Lemma App_gameLoopFrom_app (es es' : list Turn) (l : App.LoopState) :
  App.gameLoopFrom l (es ++ es')
  = l1 ← App.gameLoopFrom l es; App.gameLoopFrom l1 es'.
Proof.
  revert l. induction es as [|e es IH]; intros l; [reflexivity|].
  simpl. destruct (App.running l) eqn:Hrun.
  - destruct (App.turn l e) as [l1|]; simpl; [apply IH | reflexivity].
  - simpl. symmetry. apply App_gameLoopFrom_stopped, Hrun.
Qed.

Lemma Part000_afterLoop_running (l l' : Part000.LoopState) :
  Part000.afterLoop l = Some l' →
  Part000.game l' = Part000.game l ∧ Part000.running l' = Part000.running l.
Proof.
  unfold Part000.afterLoop, Part000.running.
  destruct (2 <=? Part000.skippedTurns l)%nat; [|intros [= <-]; auto].
  destruct (showWinner _); [|discriminate]. simpl. intros [= <-]. auto.
Qed.

(** While the loop of [src/unnamed/part_000] is still going after
    [es], the run over [es ++ es'] goes on from there. *)
Lemma Part000_gameLoopFrom_app (es es' : list Turn)
    (l0 l : Part000.LoopState) :
  Part000.gameLoopFrom l0 es = Some l → Part000.running l = true →
  Part000.gameLoopFrom l0 (es ++ es') = Part000.gameLoopFrom l es'.
Proof.
  revert l0. induction es as [|e es IH]; intros l0; simpl;
    destruct (Part000.running l0) eqn:Hrun.
  - intros [= <-] _. reflexivity.
  - intros Hafter Hl. apply Part000_afterLoop_running in Hafter as (_ & Hr).
    congruence.
  - destruct (Part000.turn l0 e) as [l1|]; [|discriminate]. simpl.
    apply IH.
  - intros Hafter Hl. apply Part000_afterLoop_running in Hafter as (_ & Hr).
    congruence.
Qed.

(** Once that loop has stopped, further inputs are not read. *)
Lemma Part000_gameLoopFrom_stopped (es es' : list Turn)
    (l0 l : Part000.LoopState) :
  Part000.gameLoopFrom l0 es = Some l → Part000.running l = false →
  Part000.gameLoopFrom l0 (es ++ es') = Some l.
Proof.
  revert l0. induction es as [|e es IH]; intros l0; simpl.
  - destruct (Part000.running l0) eqn:Hrun.
    + intros [= <-] Hl. congruence.
    + intros Hafter _. destruct es'; simpl; rewrite Hrun; exact Hafter.
  - destruct (Part000.running l0) eqn:Hrun; [|intros Hafter _; exact Hafter].
    destruct (Part000.turn l0 e) as [l1|]; [|discriminate]. simpl.
    apply IH.
Qed.

(** One more turn of [src/unnamed/part_000] after a run that is still
    going: the game is that of the turn's result. *)
Lemma Part000_gameLoopFrom_snoc (es : list Turn) (e : Turn)
    (l0 l l' : Part000.LoopState) :
  Part000.gameLoopFrom l0 es = Some l → Part000.running l = true →
  Part000.gameLoopFrom l0 (es ++ [e]) = Some l' →
  ∃ l1, Part000.turn l e = Some l1 ∧ Part000.game l' = Part000.game l1.
Proof.
  intros Hl Hrun. rewrite (Part000_gameLoopFrom_app es [e] l0 l Hl Hrun).
  simpl. rewrite Hrun.
  destruct (Part000.turn l e) as [l1|]; [|discriminate]. simpl.
  intros Hl'. exists l1. split; [reflexivity|].
  destruct (Part000.running l1); destruct es; simpl in Hl'.
  all: try (injection Hl' as <-; reflexivity).
  all: apply Part000_afterLoop_running in Hl' as (Hg & _); exact Hg.
Qed.

(** C2: from a game started by [#startNewGame], in both files and for
    every sequence [es] of submissions: the used-word set never holds
    more than five words, and the game is switched off (won by words)
    exactly when the set holds five. While the loop is still going,
    the run over [es] followed by one more submission [e] is the run
    over [es] followed by that turn: an accepted submission leaves
    exactly one word more, and the game is then switched off exactly
    when that word is the fifth; a rejected one leaves the used words
    as they are. Once the loop has stopped, further submissions change
    nothing. In [src/app.js] the loop always delivers these states; in
    [src/unnamed/part_000] it does so whenever the statistics block does
    not throw. *)
Theorem C2_word_count (g gA gP : WordGame) (cc dc : option Z)
    (n rid1 rid2 : jsstring) (es : list Turn) :
  App.startNewGame g cc dc n rid1 rid2 = Some gA →
  Part000.startNewGame g cc n rid1 rid2 = Some gP →
  (∃ l, App.gameLoop gA es = Some l
     ∧ (size (usedWords (App.game l)) ≤ 5)%nat
     ∧ (isGameActive (App.game l) = false
        ↔ size (usedWords (App.game l)) = 5%nat)
     ∧ (isGameActive (App.game l) = false →
        App.running l = false ∧ is_Some (App.announced l))
     ∧ (∀ e p,
          App.running l = true →
          players (App.game l) !! App.playerIdx l = Some p →
          App.accepts (App.game l)
            (App.makeMove p e (moveState (App.game l))) = true →
          ∃ l', App.turn l e = Some l'
                ∧ App.gameLoop gA (es ++ [e]) = Some l'
                ∧ size (usedWords (App.game l'))
                  = S (size (usedWords (App.game l)))
                ∧ (isGameActive (App.game l') = false
                   ↔ size (usedWords (App.game l)) = 4%nat))
     ∧ (∀ e p,
          App.running l = true →
          players (App.game l) !! App.playerIdx l = Some p →
          App.accepts (App.game l)
            (App.makeMove p e (moveState (App.game l))) = false →
          ∃ l', App.turn l e = Some l'
                ∧ App.gameLoop gA (es ++ [e]) = Some l'
                ∧ App.game l' = App.game l)
     ∧ (App.running l = false →
        ∀ es', App.gameLoop gA (es ++ es') = Some l))
  ∧ (∀ l, Part000.gameLoop gP es = Some l →
       (size (usedWords (Part000.game l)) ≤ 5)%nat
       ∧ (isGameActive (Part000.game l) = false
          ↔ size (usedWords (Part000.game l)) = 5%nat)
       ∧ (isGameActive (Part000.game l) = false →
          Part000.running l = false ∧ is_Some (Part000.announced l))
       ∧ (∀ e p l',
            Part000.running l = true →
            players (Part000.game l) !! Part000.currentPlayerIndex l = Some p →
            Part000.accepts (Part000.game l)
              (Part000.makeMove p e (moveState (Part000.game l))) = true →
            Part000.turn l e = Some l' →
            size (usedWords (Part000.game l'))
            = S (size (usedWords (Part000.game l))))
       ∧ (∀ e p l',
            Part000.running l = true →
            players (Part000.game l) !! Part000.currentPlayerIndex l = Some p →
            Part000.accepts (Part000.game l)
              (Part000.makeMove p e (moveState (Part000.game l))) = true →
            Part000.gameLoop gP (es ++ [e]) = Some l' →
            size (usedWords (Part000.game l'))
            = S (size (usedWords (Part000.game l)))
            ∧ (isGameActive (Part000.game l') = false
               ↔ size (usedWords (Part000.game l)) = 4%nat))
       ∧ (∀ e p l',
            Part000.running l = true →
            players (Part000.game l) !! Part000.currentPlayerIndex l = Some p →
            Part000.accepts (Part000.game l)
              (Part000.makeMove p e (moveState (Part000.game l))) = false →
            Part000.gameLoop gP (es ++ [e]) = Some l' →
            usedWords (Part000.game l') = usedWords (Part000.game l)
            ∧ isGameActive (Part000.game l') = true)
       ∧ (Part000.running l = false →
          ∀ es', Part000.gameLoop gP (es ++ es') = Some l))
  ∧ (is_Some (Part000.statsBlock (players gP)) →
     is_Some (Part000.gameLoop gP es)).
Proof.
  intros HA HP.
  destruct (App_startNewGame_fresh _ _ _ _ _ _ _ HA)
    as (HuA & _ & HaA & HpsA & _).
  destruct (Part000_startNewGame_fresh _ _ _ _ _ _ HP)
    as (HuP & _ & HaP & HpsP & _).
  assert (HinvA : App_invariant (App.enterLoop gA)).
  { unfold App_invariant. simpl. rewrite HuA, HaA, size_empty.
    split; [destruct (players gA); [congruence | simpl; lia]|].
    split; [lia | discriminate]. }
  assert (HinvP : Part000_invariant (Part000.enterLoop gP)).
  { unfold Part000_invariant. simpl. rewrite HuP, HaP, size_empty.
    split; [destruct (players gP); [congruence | simpl; lia]|].
    split; [lia | discriminate]. }
  split; [|split].
  - destruct (App_gameLoopFrom_invariant es _ HinvA)
      as (l & Hl & Hidx & Hact & Hinact).
    exists l. split; [exact Hl|].
    assert (Hsnoc : ∀ e, App.running l = true →
              App.gameLoop gA (es ++ [e]) = App.turn l e).
    { intros e Hrun. unfold App.gameLoop in *.
      rewrite App_gameLoopFrom_app, Hl. simpl. rewrite Hrun.
      destruct (App.turn l e); reflexivity. }
    assert (Hstop : App.running l = false →
              ∀ es', App.gameLoop gA (es ++ es') = Some l).
    { intros Hrun es'. unfold App.gameLoop in *.
      rewrite App_gameLoopFrom_app, Hl. simpl.
      apply App_gameLoopFrom_stopped, Hrun. }
    destruct (isGameActive (App.game l)) eqn:Hflag.
    + specialize (Hact eq_refl). split; [lia|].
      split; [split; [discriminate | lia]|]. split; [discriminate|].
      split; [|split; [|exact Hstop]].
      * intros e p Hrun Hp Hacc.
        destruct (App_turn_accepted l e p Hp Hacc)
          as (l' & Hl' & Hsize & _ & _ & Hcases).
        exists l'. split; [exact Hl'|].
        split; [rewrite (Hsnoc e Hrun); exact Hl'|]. split; [exact Hsize|].
        destruct Hcases as [(Hlt & Ha & _)|(Hge & Ha & _)].
        -- rewrite Ha, Hflag. split; [discriminate | lia].
        -- rewrite Ha. split; [lia | reflexivity].
      * intros e p Hrun Hp Hrej.
        destruct (App_rejectWord_Some l (lookup_is_Some_nonempty _ _ _ Hp))
          as (l' & Hl' & _ & Hg & _).
        exists l'.
        assert (Hturn : App.turn l e = Some l').
        { rewrite (App_turn_unfold l e p Hp),
            (App_resolveTurn_rejected l p _ Hrej). exact Hl'. }
        split; [exact Hturn|].
        split; [rewrite (Hsnoc e Hrun); exact Hturn | exact Hg].
    + destruct (Hinact eq_refl) as (Hfive & Hann). split; [lia|].
      split; [tauto|]. split.
      * intros _. split; [|exact Hann]. unfold App.running.
        rewrite Hflag. reflexivity.
      * assert (Hnot : App.running l = true → False).
        { unfold App.running. rewrite Hflag. discriminate. }
        split; [intros e p Hrun; destruct (Hnot Hrun)|].
        split; [intros e p Hrun; destruct (Hnot Hrun) | exact Hstop].
  - intros l Hl.
    pose proof (Part000_gameLoopFrom_invariant es _ _ HinvP Hl) as Hinv.
    destruct Hinv as (Hidx & Hact & Hinact).
    assert (Hstop : Part000.running l = false →
              ∀ es', Part000.gameLoop gP (es ++ es') = Some l).
    { intros Hrun es'. apply Part000_gameLoopFrom_stopped; assumption. }
    destruct (isGameActive (Part000.game l)) eqn:Hflag.
    + specialize (Hact eq_refl). split; [lia|].
      split; [split; [discriminate | lia]|]. split; [discriminate|].
      assert (HinvL : Part000_invariant l)
        by (unfold Part000_invariant; rewrite Hflag; auto).
      split; [|split; [|split; [|exact Hstop]]].
      * intros e p l' _ Hp Hacc Hturn.
        rewrite (Part000_turn_unfold l e p Hp) in Hturn.
        eapply Part000_resolveTurn_step; eauto.
      * intros e p l' Hrun Hp Hacc Hl'.
        destruct (Part000_gameLoopFrom_snoc es e _ l l' Hl Hrun Hl')
          as (l1 & Hturn & Hg).
        rewrite (Part000_turn_unfold l e p Hp) in Hturn.
        destruct (Part000_resolveTurn_step l l1 p _ HinvL Hflag Hp Hturn)
          as ((_ & Hact1 & Hinact1) & _ & Hsize).
        specialize (Hsize Hacc). rewrite Hg, Hsize. split; [reflexivity|].
        destruct (isGameActive (Part000.game l1)) eqn:Hflag1.
        -- specialize (Hact1 eq_refl). split; [discriminate | lia].
        -- destruct (Hinact1 eq_refl) as (Hfive & _).
           split; [lia | reflexivity].
      * intros e p l' Hrun Hp Hrej Hl'.
        destruct (Part000_gameLoopFrom_snoc es e _ l l' Hl Hrun Hl')
          as (l1 & Hturn & Hg).
        rewrite (Part000_turn_unfold l e p Hp) in Hturn.
        unfold Part000.resolveTurn in Hturn.
        rewrite (Part000_applyWord_rejected l p _ Hrej) in Hturn.
        destruct (Part000_endOfTurn_frame _ _ Hturn)
          as (_ & _ & Hused & _ & Ha).
        simpl in Hused, Ha. rewrite Hg, Hused, Ha, Hflag.
        split; [reflexivity|]. simpl.
        apply Nat.ltb_lt. exact Hact.
    + destruct (Hinact eq_refl) as (Hfive & Hann). split; [lia|].
      split; [tauto|]. split.
      * intros _. split; [|exact Hann]. unfold Part000.running.
        rewrite Hflag. reflexivity.
      * assert (Hnot : Part000.running l = true → False).
        { unfold Part000.running. rewrite Hflag. discriminate. }
        split; [intros e p l' Hrun; destruct (Hnot Hrun)|].
        split; [intros e p l' Hrun; destruct (Hnot Hrun)|].
        split; [intros e p l' Hrun; destruct (Hnot Hrun) | exact Hstop].
  - intros Hstats. apply Part000_gameLoopFrom_total; assumption.
Qed.

End Loop.

(** * The code run on concrete games *)
Section Concrete.
#[local] Existing Instance lowerUnits.

Example appGame_started :
  App.startNewGame loggedIn (Some 1) (Some 1) (js "Ann") (js "id1") (js "id2")
  = Some appGame.
Proof. reflexivity. Qed.

Example partGame_started :
  Part000.startNewGame loggedIn (Some 1) (js "Ann") (js "id1") (js "id2")
  = Some partGame.
Proof. reflexivity. Qed.

Example midGame_reached :
  App.gameLoop appGame [types "Амстердам"; types ""] = Some midGame.
Proof. vm_compute. reflexivity. Qed.

Example fiveWords_win :
  (λ l, (isGameActive (App.game l), size (usedWords (App.game l)),
         score <$> players (App.game l)))
    <$> App.gameLoop appGame fiveWords
  = Some (false, 5%nat, [10; 3]).
Proof. vm_compute. reflexivity. Qed.

Example hard_candidates_after_Amsterdam :
  App.availableWords App.initialWordDatabase afterAmsterdam
  = [js "Москва"; js "Мадрид"].
Proof. vm_compute. reflexivity. Qed.

(** The scenario of the specification in [src/unnamed/part_000]. *)
Example part000_hard_scenario :
  Part000.selectWordByDifficulty (js "hard") (types "")
    [js "Осло"; js "Омск"; js "Афины"] = Some (js "Афины").
Proof. vm_compute. reflexivity. Qed.

(** C1 at [midGame]: Ann submits the empty line, the computer finds no
    city, and the loop stops with a winner. *)
Lemma C1_attrition_witness :
  App.running midGame = true
  ∧ App_rejected midGame (types "")
  ∧ ∃ l2 i w, App.gameLoopFrom midGame [types ""; types ""] = Some l2
      ∧ App.running l2 = false
      ∧ App.announced l2 = Some w
      ∧ lastMaxAt score (players (App.game l2)) i w.
Proof.
  assert (Hrej : App_rejected midGame (types "")).
  { exists (ann 3). split; vm_compute; reflexivity. }
  split; [reflexivity|]. split; [exact Hrej|].
  apply (@C1_attrition lowerUnits midGame (types "") (types ""));
    [reflexivity | exact Hrej |].
  intros l1 Hl1 _. vm_compute in Hl1. injection Hl1 as <-.
  exists (appComputer "easy" 3). split; vm_compute; reflexivity.
Defined.

(** The claim C1 fails at [midGame]: after the two rejected submissions
    the active flag is still [true], and the announced winner is the
    computer although Ann, who comes first in turn order, has the same
    score. *)
Lemma C1_counterexample :
  App.running midGame = true
  ∧ App_rejected midGame (types "")
  ∧ (∀ l1, App.turn midGame (types "") = Some l1 → App_rejected l1 (types ""))
  ∧ ∃ l2 w, App.gameLoopFrom midGame [types ""; types ""] = Some l2
      ∧ isGameActive (App.game l2) = true
      ∧ score <$> players (App.game l2) = [3; 3]
      ∧ App.announced l2 = Some w
      ∧ ¬ ∃ i, firstMaxAt score (players (App.game l2)) i w.
Proof.
  split; [reflexivity|].
  split; [exists (ann 3); split; vm_compute; reflexivity|].
  split.
  { intros l1 Hl1. vm_compute in Hl1. injection Hl1 as <-.
    exists (appComputer "easy" 3). split; vm_compute; reflexivity. }
  eexists _, (appComputer "easy" 3).
  split; [vm_compute; reflexivity|].
  split; [reflexivity|]. split; [reflexivity|]. split; [reflexivity|].
  intros [i (Hi & _ & Hfirst)].
  specialize (Hfirst 0%nat (ann 3) eq_refl eq_refl).
  destruct i; [|lia]. vm_compute in Hi. discriminate.
Qed.

(** C2 on the five-word win of both files: after the four turns of
    [fourTurns] four words are used and the game is on; Ann's
    "Волгоград" is the fifth word and switches the game off. *)
Lemma C2_word_count_witness :
  App.startNewGame loggedIn (Some 1) (Some 1) (js "Ann") (js "id1") (js "id2")
  = Some appGame
  ∧ Part000.startNewGame loggedIn (Some 1) (js "Ann") (js "id1") (js "id2")
    = Some partGame
  ∧ (∃ l l', App.gameLoop appGame fourTurns = Some l
        ∧ size (usedWords (App.game l)) = 4%nat
        ∧ isGameActive (App.game l) = true
        ∧ App.gameLoop appGame (fourTurns ++ [types "Волгоград"]) = Some l'
        ∧ size (usedWords (App.game l')) = 5%nat
        ∧ isGameActive (App.game l') = false)
  ∧ (∃ l l', Part000.gameLoop partGame fourTurns = Some l
        ∧ size (usedWords (Part000.game l)) = 4%nat
        ∧ isGameActive (Part000.game l) = true
        ∧ Part000.gameLoop partGame (fourTurns ++ [types "Волгоград"])
          = Some l'
        ∧ size (usedWords (Part000.game l')) = 5%nat
        ∧ isGameActive (Part000.game l') = false).
Proof.
  split; [reflexivity|]. split; [reflexivity|].
  destruct (@C2_word_count lowerUnits loggedIn appGame partGame (Some 1)
              (Some 1) (js "Ann") (js "id1") (js "id2") fourTurns
              eq_refl eq_refl)
    as ((l & Hl & _ & _ & _ & Hstep & _) & HP & Htotal).
  destruct (@C2_word_count lowerUnits loggedIn appGame partGame (Some 1)
              (Some 1) (js "Ann") (js "id1") (js "id2")
              (fourTurns ++ [types "Волгоград"]) eq_refl eq_refl)
    as (_ & _ & Htotal').
  split.
  - assert (Hv : (λ x, (size (usedWords (App.game x)),
                        isGameActive (App.game x), App.running x,
                        players (App.game x) !! App.playerIdx x,
                        App.accepts (App.game x)
                          (App.makeMove (ann 6) (types "Волгоград")
                             (moveState (App.game x)))))
                   <$> App.gameLoop appGame fourTurns
                 = Some (4%nat, true, true, Some (ann 6), true))
      by (vm_compute; reflexivity).
    rewrite Hl in Hv. simpl in Hv. injection Hv as H4 Hact Hrun Hp Hacc.
    destruct (Hstep (types "Волгоград") (ann 6) Hrun Hp Hacc)
      as (l' & _ & Hl' & Hsize & Hiff).
    exists l, l'. split; [exact Hl|]. split; [exact H4|].
    split; [exact Hact|]. split; [exact Hl'|].
    split; [rewrite Hsize, H4; reflexivity | apply Hiff, H4].
  - clear l Hl Hstep.
    destruct (Htotal (ex_intro _ () eq_refl)) as [l Hl].
    destruct (Htotal' (ex_intro _ () eq_refl)) as [l' Hl'].
    assert (Hv : (λ x, (size (usedWords (Part000.game x)),
                        isGameActive (Part000.game x), Part000.running x,
                        players (Part000.game x)
                          !! Part000.currentPlayerIndex x,
                        Part000.accepts (Part000.game x)
                          (Part000.makeMove (ann 2) (types "Волгоград")
                             (moveState (Part000.game x)))))
                   <$> Part000.gameLoop partGame fourTurns
                 = Some (4%nat, true, true, Some (ann 2), true))
      by (vm_compute; reflexivity).
    rewrite Hl in Hv. simpl in Hv. injection Hv as H4 Hact Hrun Hp Hacc.
    destruct (HP l Hl) as (_ & _ & _ & _ & Hstep & _).
    destruct (Hstep (types "Волгоград") (ann 2) l' Hrun Hp Hacc Hl')
      as (Hsize & Hiff).
    exists l, l'. split; [exact Hl|]. split; [exact H4|].
    split; [exact Hact|]. split; [exact Hl'|].
    split; [rewrite Hsize, H4; reflexivity | apply Hiff, H4].
Defined.

(** C3 at [midGame], on "Moscow" as the first word in both files. *)
Lemma C3_points_awarded_witness :
  (∃ l' p', App.resolveTurn midGame (ann 3) (Some (js "Анапа")) = Some l'
            ∧ players (App.game l') !! 0%nat = Some p'
            ∧ score p' = 3 + Z.min (wordLength (js "Анапа") / 2) 3)
  ∧ (∃ l' p', App.resolveTurn (App.enterLoop appGame) (ann 0)
                (Some (js "Moscow")) = Some l'
              ∧ players (App.game l') !! 0%nat = Some p'
              ∧ score p' = 3)
  ∧ (∃ l' p', Part000.resolveTurn (Part000.enterLoop partGame) (ann 0)
                (Some (js "Moscow")) = Some l'
              ∧ players (Part000.game l') !! 0%nat = Some p'
              ∧ score p' = 0 + 1).
Proof.
  destruct (@C3_points_awarded lowerUnits) as (HA & HM & HP & HT).
  split; [|split].
  - destruct (HA midGame (ann 3) (js "Анапа") eq_refl)
      as (l' & p' & H1 & H2 & H3 & _); [vm_compute; reflexivity|].
    exists l', p'. auto.
  - destruct (HM loggedIn appGame (Some 1) (Some 1) (js "Ann") (js "id1")
                (js "id2") (ann 0) eq_refl eq_refl)
      as (_ & l' & p' & H1 & H2 & H3).
    exists l', p'. auto.
  - destruct (HT (Part000.enterLoop partGame) (ann 0) (js "Moscow"))
      as [l' Hl']; [vm_compute; reflexivity | vm_compute; lia |].
    destruct (HP (Part000.enterLoop partGame) l' (ann 0) (js "Moscow")
                eq_refl)
      as (p' & H2 & H3); [vm_compute; reflexivity | exact Hl' |].
    exists l', p'. auto.
Defined.

(** The claim C3 fails in [src/unnamed/part_000]: "Moscow", accepted as
    the first word of [partGame], gives Ann one point and not three. *)
Lemma C3_counterexample :
  ∃ l' p', Part000.accepts partGame (Some (js "Moscow")) = true
    ∧ Part000.turn (Part000.enterLoop partGame) (types "Moscow") = Some l'
    ∧ players (Part000.game l') !! 0%nat = Some p'
    ∧ score p' = score (ann 0) + 1
    ∧ score p' ≠ score (ann 0) + Z.min (wordLength (js "Moscow") / 2) 3.
Proof.
  eexists _, (ann 1).
  split; [vm_compute; reflexivity|]. split; [vm_compute; reflexivity|].
  split; [vm_compute; reflexivity|]. split; [reflexivity|].
  vm_compute. discriminate.
Qed.

(** C5 on "Oslo" after "Москва" in [src/app.js] and on the empty line
    at the start of a game of [src/unnamed/part_000]. *)
Lemma C5_rejection_frame_witness :
  (∃ l', App.resolveTurn midGame (ann 3) (Some (js "Oslo")) = Some l'
         ∧ App.skipped l' = 1%nat
         ∧ usedWords (App.game l') = usedWords (App.game midGame)
         ∧ lastWord (App.game l') = js "Москва"
         ∧ players (App.game l') = players (App.game midGame))
  ∧ (∃ l', Part000.resolveTurn (Part000.enterLoop partGame) (ann 0) (Some [])
           = Some l'
           ∧ Part000.skippedTurns l' = 1%nat
           ∧ usedWords (Part000.game l') = ∅
           ∧ lastWord (Part000.game l') = []
           ∧ players (Part000.game l') = players partGame).
Proof.
  destruct (@C5_rejection_frame lowerUnits) as (HA & HP & HT).
  split.
  - apply (HA midGame (ann 3) (Some (js "Oslo")));
      [reflexivity | vm_compute; reflexivity].
  - destruct (HT (Part000.enterLoop partGame) (ann 0) (Some []))
      as [l' Hl']; [reflexivity | vm_compute; lia |].
    exists l'. split; [exact Hl'|].
    apply (HP (Part000.enterLoop partGame) l' (ann 0) (Some []));
      [reflexivity | exact Hl'].
Defined.

(** C6 on the game of [midGame]. *)
Lemma C6_round_trip_witness :
  Forall constructed (players (App.game midGame))
  ∧ ∃ g', App.deserialize (serialize (App.game midGame)) = Some g'
      ∧ currentCategory g' = js "города"
      ∧ isGameActive g' = true
      ∧ lastWord g' = js "Москва"
      ∧ usedWords g' = {[ js "амстердам"; js "москва" ]}
      ∧ length (players g') = 2%nat.
Proof.
  assert (Hwf : Forall constructed (players (App.game midGame))).
  { repeat constructor; intros d Hd; vm_compute in Hd;
      [discriminate | injection Hd as <-; discriminate]. }
  split; [exact Hwf|].
  destruct (C6_round_trip (App.game midGame) Hwf)
    as (g' & H1 & H2 & H3 & H4 & H5 & H6 & _).
  exists g'. auto 10.
Defined.

(** C7 on the candidates left after "Амстердам". *)
Lemma C7_hard_selection_witness :
  App.availableWords App.initialWordDatabase afterAmsterdam ≠ []
  ∧ (∃ w i, App.ComputerPlayer_makeMove (js "hard") App.initialWordDatabase
              (types "") afterAmsterdam = Some w
            ∧ lastMaxAt wordLength
                (App.availableWords App.initialWordDatabase afterAmsterdam) i w)
  ∧ (∃ w i, Part000.ComputerPlayer_makeMove (js "hard")
              App.initialWordDatabase (types "") afterAmsterdam = Some w
            ∧ firstMaxAt wordLength
                (Part000.getAvailableWords App.initialWordDatabase
                   (s_lastWord afterAmsterdam) (s_usedWords afterAmsterdam)
                   (s_category afterAmsterdam)) i w).
Proof.
  assert (Hne : App.availableWords App.initialWordDatabase afterAmsterdam ≠ []).
  { vm_compute. discriminate. }
  split; [exact Hne|].
  apply (@C7_hard_selection lowerUnits App.initialWordDatabase (types "")
           afterAmsterdam Hne).
Defined.

(** The claim C7 fails in [src/app.js]: after "Амстердам" the candidates
    are "Москва" and "Мадрид", both of the maximum length 6, and the
    hard selector returns "Мадрид", which is not the earliest one. *)
Lemma C7_counterexample :
  ¬ ∃ w i, App.ComputerPlayer_makeMove (js "hard") App.initialWordDatabase
             (types "") afterAmsterdam = Some w
           ∧ firstMaxAt wordLength
               (App.availableWords App.initialWordDatabase afterAmsterdam) i w.
Proof.
  intros (w & i & Hw & Hi & _ & Hfirst).
  vm_compute in Hw. injection Hw as <-.
  rewrite hard_candidates_after_Amsterdam in Hi, Hfirst.
  specialize (Hfirst 0%nat (js "Москва") eq_refl eq_refl).
  destruct i; [|lia]. vm_compute in Hi. discriminate.
Qed.

(** C9 on [sparseData]. *)
Lemma C9_deserialize_defaults_witness :
  ∃ g, App.deserialize sparseData = Some g
    ∧ length (players g) = 3%nat
    ∧ isGameActive g = false
    ∧ usedWords g = ∅
    ∧ (∃ p, players g !! 0%nat = Some p
            ∧ difficultyOf p = Some (js "medium"))
    ∧ (∃ p, players g !! 1%nat = Some p ∧ isHuman p = true
            ∧ emailOf p = Some [] ∧ usernameOf p = Some [])
    ∧ (∃ p, players g !! 2%nat = Some p ∧ isHuman p = true).
Proof.
  destruct (C9_deserialize_defaults sparseData _ eq_refl)
    as (g & Hg & Hlen & Hact & Hused & Hps).
  exists g. split; [exact Hg|]. split; [exact Hlen|].
  split; [apply Hact; reflexivity|]. split; [apply Hused; reflexivity|].
  split; [|split].
  - destruct (Hps 0%nat _ eq_refl) as (p & Hp & _ & _ & _ & Hc & _).
    destruct (Hc eq_refl) as (_ & Hd). exists p. auto.
  - destruct (Hps 1%nat _ eq_refl) as (p & Hp & _ & _ & _ & _ & Hh).
    destruct Hh as (Hi & He & Hu); [intros Ht; vm_compute in Ht; discriminate|].
    exists p. auto.
  - destruct (Hps 2%nat _ eq_refl) as (p & Hp & _ & _ & _ & _ & Hh).
    destruct Hh as (Hi & _); [discriminate|].
    exists p. auto.
Defined.

(** C10 on the snapshot of [partGame]. *)
Lemma C10_restored_computer_skips_witness :
  Part000.deserialize (serialize partGame) = Some restoredGame
  ∧ restoredComputer ∈ players restoredGame
  ∧ Part000.makeMove restoredComputer (types "") (moveState restoredGame)
    = None.
Proof.
  assert (Hd : Part000.deserialize (serialize partGame) = Some restoredGame).
  { vm_compute. reflexivity. }
  assert (Hin : restoredComputer ∈ players restoredGame).
  { apply list_elem_of_lookup. exists 1%nat. reflexivity. }
  split; [exact Hd|]. split; [exact Hin|].
  destruct (@C10_restored_computer_skips lowerUnits (serialize partGame)
              restoredGame restoredComputer Hd Hin eq_refl)
    as (_ & _ & Hmove).
  destruct (Hmove (types "") (moveState restoredGame)) as (_ & Hm & _).
  exact Hm.
Defined.

End Concrete.

(** * Further properties of the game loop *)
Section LoopMore.
Context `{!CaseFold}.

(** What one turn of [src/app.js] does, by cases. *)
Lemma App_turn_cases (l l' : App.LoopState) (e : Turn) :
  App.turn l e = Some l' →
  ∃ p, players (App.game l) !! App.playerIdx l = Some p
    ∧ ((∃ w, App.makeMove p e (moveState (App.game l)) = Some w
          ∧ App.accepts (App.game l) (Some w) = true
          ∧ players (App.game l')
            = <[App.playerIdx l := addPoint (Z.min (wordLength w / 2) 3) p]>
                (players (App.game l))
          ∧ usedWords (App.game l')
            = {[ toLowerCase w ]} ∪ usedWords (App.game l)
          ∧ lastWord (App.game l') = w
          ∧ currentCategory (App.game l') = currentCategory (App.game l)
          ∧ currentUser (App.game l') = currentUser (App.game l)
          ∧ App.skipped l' = 0%nat
          ∧ ((App.announced l' = None
              ∧ isGameActive (App.game l') = isGameActive (App.game l)
              ∧ App.playerIdx l'
                = ((App.playerIdx l + 1)
                     mod length (players (App.game l)))%nat
              ∧ (size (usedWords (App.game l')) < 5)%nat)
             ∨ (App.announced l' = showWinner (players (App.game l'))
                ∧ is_Some (App.announced l')
                ∧ isGameActive (App.game l') = false
                ∧ App.playerIdx l' = App.playerIdx l
                ∧ (5 ≤ size (usedWords (App.game l')))%nat)))
       ∨ (App.accepts (App.game l)
            (App.makeMove p e (moveState (App.game l))) = false
          ∧ App.game l' = App.game l
          ∧ App.skipped l' = S (App.skipped l)
          ∧ ((App.announced l' = None
              ∧ App.playerIdx l'
                = ((App.playerIdx l + 1)
                     mod length (players (App.game l)))%nat
              ∧ (S (App.skipped l) < 2)%nat)
             ∨ (App.announced l' = showWinner (players (App.game l))
                ∧ is_Some (App.announced l')
                ∧ App.playerIdx l' = App.playerIdx l
                ∧ (2 ≤ S (App.skipped l))%nat)))).
Proof.
  unfold App.turn.
  destruct (players (App.game l) !! App.playerIdx l) as [p|] eqn:Hp;
    [|discriminate].
  simpl. intros Hturn. exists p. split; [reflexivity|].
  destruct (App.accepts (App.game l)
              (App.makeMove p e (moveState (App.game l)))) eqn:Hacc.
  - left.
    destruct (proj1 (App_accepts_true _ _) Hacc) as (w & Hw & _).
    rewrite Hw in *. exists w. split; [reflexivity|]. split; [exact Hacc|].
    rewrite (App_resolveTurn_accepted l p w Hacc) in Hturn.
    unfold App.acceptWord, App.MAX_WORDS_FOR_WIN in Hturn.
    fold (wordLength w) in Hturn.
    destruct (Nat.leb_spec 5
                (size ({[toLowerCase w]} ∪ usedWords (App.game l)))) as [Hs|Hs].
    + destruct (showWinner _) as [x|] eqn:Hx; [|discriminate].
      simpl in Hturn. injection Hturn as <-. simpl.
      repeat split. right. rewrite Hx. repeat split; eauto.
    + injection Hturn as <-. simpl. repeat split. left.
      rewrite length_insert. auto.
  - right. split; [reflexivity|].
    rewrite (App_resolveTurn_rejected l p _ Hacc) in Hturn.
    unfold App.rejectWord, App.MAX_SKIPPED_TURNS in Hturn.
    destruct (Nat.leb_spec 2 (S (App.skipped l))) as [Hs|Hs].
    + destruct (showWinner _) as [x|] eqn:Hx; [|discriminate].
      simpl in Hturn. injection Hturn as <-. simpl.
      repeat split. right. repeat split; eauto.
    + injection Hturn as <-. simpl. repeat split. left. auto.
Qed.

(** What one turn of [src/unnamed/part_000] does, by cases, when it
    completes. *)
Lemma Part000_turn_cases (l l' : Part000.LoopState) (e : Turn) :
  Part000.turn l e = Some l' →
  ∃ p, players (Part000.game l) !! Part000.currentPlayerIndex l = Some p
    ∧ Part000.currentPlayerIndex l'
      = ((Part000.currentPlayerIndex l + 1)
           mod length (players (Part000.game l)))%nat
    ∧ currentCategory (Part000.game l') = currentCategory (Part000.game l)
    ∧ currentUser (Part000.game l') = currentUser (Part000.game l)
    ∧ isGameActive (Part000.game l')
      = isGameActive (Part000.game l)
        && (size (usedWords (Part000.game l')) <? 5)%nat
    ∧ ((∃ w, Part000.makeMove p e (moveState (Part000.game l)) = Some w
          ∧ Part000.accepts (Part000.game l) (Some w) = true
          ∧ players (Part000.game l')
            = <[Part000.currentPlayerIndex l := addPoint 1 p]>
                (players (Part000.game l))
          ∧ usedWords (Part000.game l')
            = {[ toLowerCase w ]} ∪ usedWords (Part000.game l)
          ∧ lastWord (Part000.game l') = w
          ∧ Part000.skippedTurns l' = 0%nat)
       ∨ (Part000.accepts (Part000.game l)
            (Part000.makeMove p e (moveState (Part000.game l))) = false
          ∧ players (Part000.game l') = players (Part000.game l)
          ∧ usedWords (Part000.game l') = usedWords (Part000.game l)
          ∧ lastWord (Part000.game l') = lastWord (Part000.game l)
          ∧ Part000.skippedTurns l' = S (Part000.skippedTurns l))).
Proof.
  unfold Part000.turn.
  destruct (players (Part000.game l) !! Part000.currentPlayerIndex l)
    as [p|] eqn:Hp; [|discriminate].
  simpl. unfold Part000.resolveTurn. intros Hend. exists p.
  split; [reflexivity|].
  destruct (Part000_endOfTurn_frame _ _ Hend) as (Hsk & Hps & Hused & Hlast & Ha).
  destruct (Part000_endOfTurn_index _ _ Hend) as (Hi & _).
  assert (Hrest : currentCategory (Part000.game l')
                  = currentCategory
                      (Part000.game
                         (Part000.applyWord l p
                            (Part000.makeMove p e (moveState (Part000.game l)))))
                  ∧ currentUser (Part000.game l')
                    = currentUser
                        (Part000.game
                           (Part000.applyWord l p
                              (Part000.makeMove p e
                                 (moveState (Part000.game l)))))).
  { clear -Hend. unfold Part000.endOfTurn in Hend.
    destruct (5 <=? _)%nat.
    - destruct (showWinner _); [|discriminate]. simpl in Hend.
      destruct (Part000.statsBlock _); [|discriminate]. simpl in Hend.
      injection Hend as <-. auto.
    - injection Hend as <-. auto. }
  destruct Hrest as (Hcat & Huser).
  rewrite Hi, Hcat, Huser, Ha, Hused, Hps, Hlast, Hsk. clear Hend.
  destruct (Part000.accepts (Part000.game l)
              (Part000.makeMove p e (moveState (Part000.game l)))) eqn:Hacc.
  - destruct (Part000_accepts_true _ _ Hacc) as (w & Hw & _).
    rewrite Hw in *.
    destruct (Part000_applyWord_accepted l p w Hacc)
      as (Hps1 & Hused1 & Hlast1 & Ha1 & Hsk1 & Hi1).
    assert (Hc1 : currentCategory
                    (Part000.game (Part000.applyWord l p (Some w)))
                  = currentCategory (Part000.game l)
                  ∧ currentUser (Part000.game (Part000.applyWord l p (Some w)))
                    = currentUser (Part000.game l)).
    { unfold Part000.applyWord. simpl in Hacc. rewrite Hacc. auto. }
    destruct Hc1 as (Hc1 & Hu1).
    rewrite Hi1, Hps1, length_insert, Hc1, Hu1, Ha1, Hused1, Hlast1, Hsk1.
    repeat split. left. exists w. auto 10.
  - rewrite (Part000_applyWord_rejected _ _ _ Hacc). simpl.
    repeat split. right. auto.
Qed.

(** Induction along a run. *)
Lemma App_run_ind (P : App.LoopState → Prop) :
  (∀ l e l', App.running l = true → P l → App.turn l e = Some l' → P l') →
  ∀ es l l', P l → App.gameLoopFrom l es = Some l' → P l'.
Proof.
  intros Hstep es. induction es as [|e es IH]; intros l l' Hl; simpl.
  - intros [= <-]. exact Hl.
  - destruct (App.running l) eqn:Hrun; [|intros [= <-]; exact Hl].
    destruct (App.turn l e) as [l1|] eqn:Hturn; [|discriminate]. simpl.
    apply IH. eapply Hstep; eauto.
Qed.

Lemma Part000_run_ind (P : Part000.LoopState → Prop) :
  (∀ l e l', Part000.running l = true → P l →
             Part000.turn l e = Some l' → P l') →
  (∀ l l', Part000.afterLoop l = Some l' → P l → P l') →
  ∀ es l l', P l → Part000.gameLoopFrom l es = Some l' → P l'.
Proof.
  intros Hstep Hafter es.
  induction es as [|e es IH]; intros l l' Hl; simpl;
    destruct (Part000.running l) eqn:Hrun; eauto.
  - intros [= <-]. exact Hl.
  - destruct (Part000.turn l e) as [l1|] eqn:Hturn; [|discriminate]. simpl.
    apply IH. eapply Hstep; eauto.
Qed.

Lemma Part000_afterLoop_game (l l' : Part000.LoopState) :
  Part000.afterLoop l = Some l' →
  Part000.game l' = Part000.game l
  ∧ Part000.currentPlayerIndex l' = Part000.currentPlayerIndex l
  ∧ Part000.skippedTurns l' = Part000.skippedTurns l.
Proof.
  unfold Part000.afterLoop.
  destruct (2 <=? Part000.skippedTurns l)%nat; [|intros [= <-]; auto].
  destruct (showWinner _); [|discriminate]. simpl. intros [= <-]. auto.
Qed.

Lemma App_fresh_invariant (g gA : WordGame) (cc dc : option Z)
    (n rid1 rid2 : jsstring) :
  App.startNewGame g cc dc n rid1 rid2 = Some gA →
  App_invariant (App.enterLoop gA).
Proof.
  intros HA.
  destruct (App_startNewGame_fresh _ _ _ _ _ _ _ HA) as (Hu & _ & Ha & Hps & _).
  unfold App_invariant. simpl. rewrite Hu, Ha, size_empty.
  split; [destruct (players gA); [congruence | simpl; lia]|].
  split; [lia | discriminate].
Qed.

Lemma Part000_fresh_invariant (g gP : WordGame) (cc : option Z)
    (n rid1 rid2 : jsstring) :
  Part000.startNewGame g cc n rid1 rid2 = Some gP →
  Part000_invariant (Part000.enterLoop gP).
Proof.
  intros HP.
  destruct (Part000_startNewGame_fresh _ _ _ _ _ _ HP)
    as (Hu & _ & Ha & Hps & _).
  unfold Part000_invariant. simpl. rewrite Hu, Ha, size_empty.
  split; [destruct (players gP); [congruence | simpl; lia]|].
  split; [lia | discriminate].
Qed.

(** The invariant of the claims holds all along a run. *)
Lemma App_run_invariant (es : list Turn) (l l' : App.LoopState) :
  App_invariant l → App.gameLoopFrom l es = Some l' → App_invariant l'.
Proof.
  intros Hinv Hrun.
  destruct (App_gameLoopFrom_invariant es l Hinv) as (l1 & Hl1 & Hinv1).
  congruence.
Qed.

Lemma App_stopped_stays (es : list Turn) (l : App.LoopState) :
  App.running l = false → App.gameLoopFrom l es = Some l.
Proof. intros Hrun. destruct es; simpl; [|rewrite Hrun]; reflexivity. Qed.

Lemma accepted_word_is_new (g : WordGame) (w : jsstring) :
  App.accepts g (Some w) = true →
  w ≠ [] ∧ (2 ≤ length (trim w))%nat ∧ (toLowerCase w ∉ usedWords g)
  ∧ (lastWord g = []
     ∨ firstUnit (toLowerCase w) = lastUnit (toLowerCase (lastWord g))).
Proof.
  intros Hacc.
  destruct (proj1 (App_accepts_true _ _) Hacc) as (w' & [= <-] & _ & Hval).
  apply validateWord_true in Hval. exact Hval.
Qed.

Lemma Part000_accepted_word (g : WordGame) (w : jsstring) :
  Part000.accepts g (Some w) = true →
  w ≠ [] ∧ (2 ≤ length w)%nat ∧ (toLowerCase w ∉ usedWords g)
  ∧ (lastWord g = []
     ∨ firstUnit (toLowerCase w) = lastUnit (toLowerCase (lastWord g))).
Proof.
  simpl. rewrite andb_true_iff, truthy_true. intros [Hw Hv].
  split; [exact Hw|]. unfold Part000.validateWord in Hv.
  rewrite (proj2 (truthy_true w) Hw) in Hv. simpl in Hv.
  destruct (Nat.ltb_spec (length w) 2) as [Hlt|Hge]; [discriminate|].
  split; [exact Hge|].
  apply andb_true_iff in Hv as [Hnew Hseq].
  apply negb_true_iff, bool_decide_eq_false in Hnew. split; [exact Hnew|].
  apply orb_true_iff in Hseq as [Hl|Hc].
  - left. apply negb_true_iff, truthy_false in Hl. exact Hl.
  - destruct (lastWord g) as [|c r] eqn:Hlast; [left; reflexivity|].
    right. apply bool_decide_eq_true in Hc. exact Hc.
Qed.

(** The used-word set only grows, and the last word is always in it. *)
Lemma App_used_grows (es : list Turn) (l l' : App.LoopState) :
  App.gameLoopFrom l es = Some l' →
  usedWords (App.game l) ⊆ usedWords (App.game l').
Proof.
  apply (App_run_ind (λ x, usedWords (App.game l) ⊆ usedWords (App.game x)));
    [|set_solver].
  intros x e x' _ Hx Hturn.
  destruct (App_turn_cases _ _ _ Hturn) as (p & _ & [Hacc|Hrej]).
  - destruct Hacc as (w & _ & _ & _ & Hused & _). rewrite Hused.
    clear Hused. set_solver.
  - destruct Hrej as (_ & -> & _). exact Hx.
Qed.

Lemma Part000_used_grows (es : list Turn) (l l' : Part000.LoopState) :
  Part000.gameLoopFrom l es = Some l' →
  usedWords (Part000.game l) ⊆ usedWords (Part000.game l').
Proof.
  apply (Part000_run_ind
           (λ x, usedWords (Part000.game l) ⊆ usedWords (Part000.game x)));
    [| |set_solver].
  - intros x e x' _ Hx Hturn.
    destruct (Part000_turn_cases _ _ _ Hturn)
      as (p & _ & _ & _ & _ & _ & [Hacc|Hrej]).
    + destruct Hacc as (w & _ & _ & _ & Hused & _). rewrite Hused.
      clear Hused. set_solver.
    + destruct Hrej as (_ & _ & -> & _). exact Hx.
  - intros x x' Hafter Hx.
    destruct (Part000_afterLoop_game _ _ Hafter) as (-> & _). exact Hx.
Qed.

(** X1: No word is accepted twice in a game, in whatever casing: once the
    case-folded form of a word is in the used-word set, every later
    submission with the same case-folded form is rejected, in both
    files. *)
Theorem X1_used_word_rejected_for_good :
  (∀ (l l' : App.LoopState) (es : list Turn) (w w' : jsstring),
     toLowerCase w ∈ usedWords (App.game l) →
     App.gameLoopFrom l es = Some l' →
     toLowerCase w' = toLowerCase w →
     App.accepts (App.game l') (Some w') = false)
  ∧ (∀ (l l' : Part000.LoopState) (es : list Turn) (w w' : jsstring),
       toLowerCase w ∈ usedWords (Part000.game l) →
       Part000.gameLoopFrom l es = Some l' →
       toLowerCase w' = toLowerCase w →
       Part000.accepts (Part000.game l') (Some w') = false).
Proof.
  split.
  - intros l l' es w w' Hin Hrun Heq.
    apply not_true_iff_false. intros Hacc.
    apply accepted_word_is_new in Hacc as (_ & _ & Hnew & _).
    apply Hnew. rewrite Heq. eapply App_used_grows; eauto.
  - intros l l' es w w' Hin Hrun Heq.
    apply not_true_iff_false. intros Hacc.
    apply Part000_accepted_word in Hacc as (_ & _ & Hnew & _).
    apply Hnew. rewrite Heq. eapply Part000_used_grows; eauto.
Qed.

(** X2: From [#startNewGame] on, in both files, the last word is empty
    exactly when no word has been used, and otherwise its case-folded
    form is in the used-word set. *)
Theorem X2_last_word_is_used (g gA gP : WordGame) (cc dc : option Z)
    (n rid1 rid2 : jsstring) (es : list Turn) :
  App.startNewGame g cc dc n rid1 rid2 = Some gA →
  Part000.startNewGame g cc n rid1 rid2 = Some gP →
  (∀ l, App.gameLoop gA es = Some l →
        (lastWord (App.game l) = [] ↔ usedWords (App.game l) = ∅)
        ∧ (lastWord (App.game l) ≠ [] →
           toLowerCase (lastWord (App.game l)) ∈ usedWords (App.game l)))
  ∧ (∀ l, Part000.gameLoop gP es = Some l →
          (lastWord (Part000.game l) = [] ↔ usedWords (Part000.game l) = ∅)
          ∧ (lastWord (Part000.game l) ≠ [] →
             toLowerCase (lastWord (Part000.game l))
             ∈ usedWords (Part000.game l))).
Proof.
  intros HA HP.
  destruct (App_startNewGame_fresh _ _ _ _ _ _ _ HA) as (HuA & HlA & _).
  destruct (Part000_startNewGame_fresh _ _ _ _ _ _ HP) as (HuP & HlP & _).
  split.
  - intros l. unfold App.gameLoop.
    apply (App_run_ind
             (λ x, (lastWord (App.game x) = [] ↔ usedWords (App.game x) = ∅)
                   ∧ (lastWord (App.game x) ≠ [] →
                      toLowerCase (lastWord (App.game x))
                      ∈ usedWords (App.game x)))).
    + intros x e x' _ Hx Hturn.
      destruct (App_turn_cases _ _ _ Hturn) as (p & _ & [Hacc|Hrej]).
      * destruct Hacc as (w & _ & Hacc & _ & Hused & Hlast & _).
        apply accepted_word_is_new in Hacc as (Hw & _).
        rewrite Hused, Hlast.
        split; [|intros _; apply elem_of_union_l, elem_of_singleton;
                             reflexivity].
        split; [congruence|]. intros Hempty. exfalso.
        apply (not_elem_of_empty (C := gset jsstring) (toLowerCase w)).
        rewrite <- Hempty. apply elem_of_union_l, elem_of_singleton.
        reflexivity.
      * destruct Hrej as (_ & -> & _). exact Hx.
    + simpl. rewrite HuA, HlA. split; [tauto | congruence].
  - intros l. unfold Part000.gameLoop.
    apply (Part000_run_ind
             (λ x, (lastWord (Part000.game x) = []
                    ↔ usedWords (Part000.game x) = ∅)
                   ∧ (lastWord (Part000.game x) ≠ [] →
                      toLowerCase (lastWord (Part000.game x))
                      ∈ usedWords (Part000.game x)))).
    + intros x e x' _ Hx Hturn.
      destruct (Part000_turn_cases _ _ _ Hturn)
        as (p & _ & _ & _ & _ & _ & [Hacc|Hrej]).
      * destruct Hacc as (w & _ & Hacc & _ & Hused & Hlast & _).
        apply Part000_accepted_word in Hacc as (Hw & _).
        rewrite Hused, Hlast.
        split; [|intros _; apply elem_of_union_l, elem_of_singleton;
                             reflexivity].
        split; [congruence|]. intros Hempty. exfalso.
        apply (not_elem_of_empty (C := gset jsstring) (toLowerCase w)).
        rewrite <- Hempty. apply elem_of_union_l, elem_of_singleton.
        reflexivity.
      * destruct Hrej as (_ & _ & -> & -> & _). exact Hx.
    + intros x x' Hafter Hx.
      destruct (Part000_afterLoop_game _ _ Hafter) as (-> & _). exact Hx.
    + simpl. rewrite HuP, HlP. split; [tauto | congruence].
Qed.

(** X3: The chain rule over two accepted words, in both files: when a turn
    accepts [w1] and the next accepted word is [w2], possibly after
    rejected turns, the first case-folded code unit of [w2] is the last
    one of [w1]. *)
Theorem X3_chain_rule :
  (∀ (l l1 l2 : App.LoopState) (e : Turn) (p : Player) (w1 w2 : jsstring),
     players (App.game l) !! App.playerIdx l = Some p →
     App.makeMove p e (moveState (App.game l)) = Some w1 →
     App.accepts (App.game l) (Some w1) = true →
     App.turn l e = Some l1 →
     lastWord (App.game l2) = lastWord (App.game l1) →
     App.accepts (App.game l2) (Some w2) = true →
     firstUnit (toLowerCase w2) = lastUnit (toLowerCase w1))
  ∧ (∀ (l l1 l2 : Part000.LoopState) (e : Turn) (p : Player)
       (w1 w2 : jsstring),
       players (Part000.game l) !! Part000.currentPlayerIndex l = Some p →
       Part000.makeMove p e (moveState (Part000.game l)) = Some w1 →
       Part000.accepts (Part000.game l) (Some w1) = true →
       Part000.turn l e = Some l1 →
       lastWord (Part000.game l2) = lastWord (Part000.game l1) →
       Part000.accepts (Part000.game l2) (Some w2) = true →
       firstUnit (toLowerCase w2) = lastUnit (toLowerCase w1)).
Proof.
  split.
  - intros l l1 l2 e p w1 w2 Hp Hmove Hacc1 Hturn Hsame Hacc2.
    destruct (App_turn_cases _ _ _ Hturn) as (p' & Hp' & Hcases).
    assert (p' = p) as -> by congruence. rewrite Hmove in Hcases.
    destruct Hcases as [(w & [= <-] & _ & _ & _ & Hlast & _)|(Hrej & _)];
      [|congruence].
    apply accepted_word_is_new in Hacc1 as (Hw1 & _).
    apply accepted_word_is_new in Hacc2 as (_ & _ & _ & [Hempty|Hchain]).
    + congruence.
    + rewrite Hsame, Hlast in Hchain. exact Hchain.
  - intros l l1 l2 e p w1 w2 Hp Hmove Hacc1 Hturn Hsame Hacc2.
    destruct (Part000_turn_cases _ _ _ Hturn)
      as (p' & Hp' & _ & _ & _ & _ & Hcases).
    assert (p' = p) as -> by congruence. rewrite Hmove in Hcases.
    destruct Hcases as [(w & [= <-] & _ & _ & _ & Hlast & _)|(Hrej & _)];
      [|congruence].
    apply Part000_accepted_word in Hacc1 as (Hw1 & _).
    apply Part000_accepted_word in Hacc2 as (_ & _ & _ & [Hempty|Hchain]).
    + congruence.
    + rewrite Hsame, Hlast in Hchain. exact Hchain.
Qed.

(** Every turn uses up at least one unit of [2 * (5 - words) - skips]. *)
Lemma App_turns_left (es : list Turn) (l l' : App.LoopState) :
  App.gameLoopFrom l es = Some l' →
  App.running l' = true →
  2 * (5 - Z.of_nat (size (usedWords (App.game l'))))
  - Z.of_nat (App.skipped l') + Z.of_nat (length es)
  ≤ 2 * (5 - Z.of_nat (size (usedWords (App.game l))))
    - Z.of_nat (App.skipped l).
Proof.
  revert l. induction es as [|e es IH]; intros l; simpl.
  - intros [= <-] _. lia.
  - destruct (App.running l) eqn:Hrun;
      [|intros [= <-] Hrun'; congruence].
    destruct (App.turn l e) as [l1|] eqn:Hturn; [|discriminate]. simpl.
    intros Hrest Hrun'. specialize (IH l1 Hrest Hrun').
    apply App_running_true in Hrun as (_ & Hsk & _).
    destruct (App_turn_cases _ _ _ Hturn) as (p & _ & [Hacc|Hrej]).
    + destruct Hacc as (w & _ & Hacc & _ & Hused & _ & _ & _ & Hsk1 & _).
      apply accepted_word_is_new in Hacc as (_ & _ & Hnew & _).
      rewrite Hused, (size_add_fresh _ _ Hnew), Hsk1 in IH. lia.
    + destruct Hrej as (_ & Hg & Hsk1 & _). rewrite Hg, Hsk1 in IH. lia.
Qed.

Lemma Part000_turns_left (es : list Turn) (l l' : Part000.LoopState) :
  Part000.gameLoopFrom l es = Some l' →
  Part000.running l' = true →
  2 * (5 - Z.of_nat (size (usedWords (Part000.game l'))))
  - Z.of_nat (Part000.skippedTurns l') + Z.of_nat (length es)
  ≤ 2 * (5 - Z.of_nat (size (usedWords (Part000.game l))))
    - Z.of_nat (Part000.skippedTurns l).
Proof.
  revert l. induction es as [|e es IH]; intros l; simpl;
    destruct (Part000.running l) eqn:Hrun.
  - intros [= <-] _. lia.
  - intros Hafter Hrun'.
    destruct (Part000_afterLoop_game _ _ Hafter) as (Hg & _ & Hsk).
    unfold Part000.running in *. rewrite Hg, Hsk in Hrun'. congruence.
  - destruct (Part000.turn l e) as [l1|] eqn:Hturn; [|discriminate]. simpl.
    intros Hrest Hrun'. specialize (IH l1 Hrest Hrun').
    apply Part000_running_true in Hrun as (_ & Hsk).
    destruct (Part000_turn_cases _ _ _ Hturn)
      as (p & _ & _ & _ & _ & _ & [Hacc|Hrej]).
    + destruct Hacc as (w & _ & Hacc & _ & Hused & _ & Hsk1).
      apply Part000_accepted_word in Hacc as (_ & _ & Hnew & _).
      rewrite Hused, (size_add_fresh _ _ Hnew), Hsk1 in IH. lia.
    + destruct Hrej as (_ & _ & Hused & _ & Hsk1).
      rewrite Hused, Hsk1 in IH. lia.
  - intros Hafter Hrun'.
    destruct (Part000_afterLoop_game _ _ Hafter) as (Hg & _ & Hsk).
    unfold Part000.running in *. rewrite Hg, Hsk in Hrun'. congruence.
Qed.

(** The loop of [src/app.js] has either announced nobody and goes on,
    or it has stopped and announced the winner of the final scores. *)
Lemma App_announced_invariant (es : list Turn) (l l' : App.LoopState) :
  App.running l = true →
  App.gameLoopFrom l es = Some l' →
  (App.announced l' = None ∧ App.running l' = true)
  ∨ (App.announced l' = showWinner (players (App.game l'))
     ∧ is_Some (App.announced l')).
Proof.
  intros Hrun.
  apply (App_run_ind
           (λ x, (App.announced x = None ∧ App.running x = true)
                 ∨ (App.announced x = showWinner (players (App.game x))
                    ∧ is_Some (App.announced x))));
    [|left; split; [apply App_running_true in Hrun; tauto | exact Hrun]].
  intros x e x' Hx _ Hturn.
  apply App_running_true in Hx as (Hactive & Hsk & _).
  destruct (App_turn_cases _ _ _ Hturn) as (p & _ & [Hacc|Hrej]).
  - destruct Hacc as (w & _ & _ & _ & _ & _ & _ & _ & Hsk1 & [Hgo|Hstop]).
    + destruct Hgo as (Hann & Ha & _). left. split; [exact Hann|].
      apply App_running_true. rewrite Ha, Hsk1. split; [exact Hactive|].
      split; [lia | exact Hann].
    + right. tauto.
  - destruct Hrej as (_ & Hg & Hsk1 & [Hgo|Hstop]).
    + destruct Hgo as (Hann & _ & Hlt). left. split; [exact Hann|].
      apply App_running_true. rewrite Hg, Hsk1. auto.
    + right. rewrite Hg. tauto.
Qed.

Lemma App_over_within_ten (g gA : WordGame) (cc dc : option Z)
    (n rid1 rid2 : jsstring) (es : list Turn) :
  App.startNewGame g cc dc n rid1 rid2 = Some gA →
  (10 ≤ length es)%nat →
  ∃ l w, App.gameLoop gA es = Some l
         ∧ App.running l = false
         ∧ App.announced l = Some w
         ∧ showWinner (players (App.game l)) = Some w.
Proof.
  intros HA Hlen.
  destruct (App_startNewGame_fresh _ _ _ _ _ _ _ HA) as (HuA & _ & HaA & _).
  destruct (App_gameLoopFrom_invariant es (App.enterLoop gA)
              (App_fresh_invariant _ _ _ _ _ _ _ HA))
    as (l & Hl & _).
  assert (Hstart : App.running (App.enterLoop gA) = true).
  { apply App_running_true. simpl. rewrite HaA. auto. }
  assert (Hstopped : App.running l = false).
  { apply not_true_iff_false. intros Hrun.
    pose proof (App_turns_left es _ _ Hl Hrun) as Hpot. simpl in Hpot.
    rewrite HuA, size_empty in Hpot.
    apply App_running_true in Hrun as (Hactive & Hsk & _).
    pose proof (App_run_invariant es _ _
                  (App_fresh_invariant _ _ _ _ _ _ _ HA) Hl)
      as (_ & Hact & _).
    specialize (Hact Hactive). lia. }
  destruct (App_announced_invariant es _ _ Hstart Hl)
    as [(_ & Hrun)|(Hann & [w Hw])]; [congruence|].
  exists l, w. unfold App.gameLoop. rewrite <- Hann. auto.
Qed.

(** X4: A game of either file is over after ten turns at the latest:
    whatever is typed and drawn, the loop of [src/app.js] has stopped
    and announced the winner of the final scores, and the loop of
    [src/unnamed/part_000], when it has not thrown, has stopped; with
    the two players that [#setupPlayers] creates it does not throw. *)
Theorem X4_game_over_within_ten_turns (g gA gP : WordGame) (cc dc : option Z)
    (n rid1 rid2 : jsstring) (es : list Turn) :
  App.startNewGame g cc dc n rid1 rid2 = Some gA →
  Part000.startNewGame g cc n rid1 rid2 = Some gP →
  (10 ≤ length es)%nat →
  (∃ l w, App.gameLoop gA es = Some l
          ∧ App.running l = false
          ∧ App.announced l = Some w
          ∧ showWinner (players (App.game l)) = Some w)
  ∧ (∀ l, Part000.gameLoop gP es = Some l → Part000.running l = false)
  ∧ (players g = [] → is_Some (Part000.gameLoop gP es)).
Proof.
  intros HA HP Hlen.
  destruct (Part000_startNewGame_fresh _ _ _ _ _ _ HP) as (HuP & _ & HaP & _).
  split; [eapply App_over_within_ten; eauto|].
  split.
  2: { intros Hnil. apply Part000_gameLoopFrom_total.
       - eapply Part000_fresh_invariant, HP.
       - eapply Part000_default_setup_safe; eauto. }
  intros l Hl. apply not_true_iff_false. intros Hrun.
  pose proof (Part000_turns_left es _ _ Hl Hrun) as Hpot. simpl in Hpot.
  rewrite HuP, size_empty in Hpot.
  apply Part000_running_true in Hrun as (Hactive & Hsk).
  pose proof (Part000_gameLoopFrom_invariant es _ _
                (Part000_fresh_invariant _ _ _ _ _ _ HP) Hl)
    as (_ & Hact & _).
  specialize (Hact Hactive). lia.
Qed.

Lemma totalScoreOf_addPoint (ps : list Player) (i : nat) (p : Player) (k : Z) :
  ps !! i = Some p →
  totalScoreOf (<[i := addPoint k p]> ps) = totalScoreOf ps + k.
Proof.
  revert i. induction ps as [|q ps IH]; intros [|i] Hp; simpl in *;
    try discriminate.
  - injection Hp as ->. lia.
  - rewrite (IH i Hp). lia.
Qed.

Lemma totalScoreOf_zero (ps : list Player) :
  Forall (λ p, score p = 0) ps → totalScoreOf ps = 0.
Proof. induction 1 as [|p ps Hp _ IH]; simpl; [reflexivity | lia]. Qed.

Lemma trimStart_length (s : jsstring) : (length (trimStart s) ≤ length s)%nat.
Proof.
  induction s as [|c s IH]; simpl; [lia|].
  destruct (isWhiteSpace c); simpl; lia.
Qed.

Lemma trim_length (s : jsstring) : (length (trim s) ≤ length s)%nat.
Proof.
  unfold trim, trimEnd. rewrite length_rev.
  etransitivity; [apply trimStart_length|]. rewrite length_rev.
  apply trimStart_length.
Qed.

(** The points of an accepted word of [src/app.js] are 1, 2 or 3. *)
Lemma App_points_range (g : WordGame) (w : jsstring) :
  App.accepts g (Some w) = true → 1 ≤ Z.min (wordLength w / 2) 3 ≤ 3.
Proof.
  intros Hacc. apply accepted_word_is_new in Hacc as (_ & Hlen & _).
  pose proof (trim_length w) as Hle. unfold wordLength.
  assert (1 ≤ Z.of_nat (length w) / 2) by (apply Z.div_le_lower_bound; lia).
  lia.
Qed.

(** X5: Score accounting from [#startNewGame] on: in [src/app.js] the sum of
    the scores lies between the number of used words and three times
    that number; in [src/unnamed/part_000] it is the number of used
    words. *)
Theorem X5_scores_count_words (g gA gP : WordGame) (cc dc : option Z)
    (n rid1 rid2 : jsstring) (es : list Turn) :
  App.startNewGame g cc dc n rid1 rid2 = Some gA →
  Part000.startNewGame g cc n rid1 rid2 = Some gP →
  (∀ l, App.gameLoop gA es = Some l →
        Z.of_nat (size (usedWords (App.game l)))
        ≤ totalScoreOf (players (App.game l))
        ≤ 3 * Z.of_nat (size (usedWords (App.game l))))
  ∧ (∀ l, Part000.gameLoop gP es = Some l →
          totalScoreOf (players (Part000.game l))
          = Z.of_nat (size (usedWords (Part000.game l)))).
Proof.
  intros HA HP.
  destruct (App_startNewGame_fresh _ _ _ _ _ _ _ HA) as (HuA & _ & _ & _ & HzA).
  destruct (Part000_startNewGame_fresh _ _ _ _ _ _ HP)
    as (HuP & _ & _ & _ & HzP).
  split.
  - intros l. unfold App.gameLoop.
    apply (App_run_ind
             (λ x, Z.of_nat (size (usedWords (App.game x)))
                   ≤ totalScoreOf (players (App.game x))
                   ≤ 3 * Z.of_nat (size (usedWords (App.game x))))).
    + intros x e x' _ Hx Hturn.
      destruct (App_turn_cases _ _ _ Hturn) as (p & Hp & [Hacc|Hrej]).
      * destruct Hacc as (w & _ & Hacc & Hps & Hused & _).
        pose proof (App_points_range _ _ Hacc) as Hpts.
        apply accepted_word_is_new in Hacc as (_ & _ & Hnew & _).
        rewrite Hps, Hused, (size_add_fresh _ _ Hnew),
          (totalScoreOf_addPoint _ _ _ _ Hp). lia.
      * destruct Hrej as (_ & -> & _). exact Hx.
    + simpl. rewrite HuA, size_empty, (totalScoreOf_zero _ HzA). lia.
  - intros l. unfold Part000.gameLoop.
    apply (Part000_run_ind
             (λ x, totalScoreOf (players (Part000.game x))
                   = Z.of_nat (size (usedWords (Part000.game x))))).
    + intros x e x' _ Hx Hturn.
      destruct (Part000_turn_cases _ _ _ Hturn)
        as (p & Hp & _ & _ & _ & _ & [Hacc|Hrej]).
      * destruct Hacc as (w & _ & Hacc & Hps & Hused & _).
        apply Part000_accepted_word in Hacc as (_ & _ & Hnew & _).
        rewrite Hps, Hused, (size_add_fresh _ _ Hnew),
          (totalScoreOf_addPoint _ _ _ _ Hp). lia.
      * destruct Hrej as (_ & -> & -> & _). exact Hx.
    + intros x x' Hafter Hx.
      destruct (Part000_afterLoop_game _ _ Hafter) as (-> & _). exact Hx.
    + simpl. rewrite HuP, size_empty, (totalScoreOf_zero _ HzP). reflexivity.
Qed.

Lemma identityOf_addPoint (ps : list Player) (i : nat) (p : Player) (k : Z) :
  ps !! i = Some p →
  identityOf <$> <[i := addPoint k p]> ps = identityOf <$> ps.
Proof.
  intros Hp. rewrite list_fmap_insert. apply list_insert_id.
  rewrite list_lookup_fmap, Hp. reflexivity.
Qed.

Lemma scores_grow_addPoint (ps0 ps : list Player) (i : nat) (p : Player)
    (k : Z) :
  0 ≤ k → ps !! i = Some p →
  (∀ j p0 q, ps0 !! j = Some p0 → ps !! j = Some q → score p0 ≤ score q) →
  ∀ j p0 q, ps0 !! j = Some p0 → <[i := addPoint k p]> ps !! j = Some q →
            score p0 ≤ score q.
Proof.
  intros Hk Hp Hle j p0 q Hp0 Hq.
  destruct (decide (i = j)) as [->|Hij].
  - rewrite list_lookup_insert_eq in Hq by (eapply lookup_lt_Some, Hp).
    injection Hq as <-. specialize (Hle j p0 p Hp0 Hp). simpl. lia.
  - rewrite list_lookup_insert_ne in Hq by exact Hij. eauto.
Qed.

Lemma App_run_identity (l l' : App.LoopState) (es : list Turn) :
  App.gameLoopFrom l es = Some l' →
  identityOf <$> players (App.game l') = identityOf <$> players (App.game l).
Proof.
  apply (App_run_ind
           (λ x, identityOf <$> players (App.game x)
                 = identityOf <$> players (App.game l))); [|reflexivity].
  intros x e x' _ Hid Hturn.
  destruct (App_turn_cases _ _ _ Hturn) as (p & Hp & [Hacc|Hrej]).
  - destruct Hacc as (w & _ & _ & Hps & _).
    rewrite Hps, (identityOf_addPoint _ _ _ _ Hp). exact Hid.
  - destruct Hrej as (_ & -> & _). exact Hid.
Qed.

(** X6: A game changes nothing about the players but their scores,
    which never go down; the category and the logged-in user stay as
    they are. In both files, over any stretch of a game. *)
Theorem X6_game_keeps_players :
  (∀ (l l' : App.LoopState) (es : list Turn),
     App.gameLoopFrom l es = Some l' →
     identityOf <$> players (App.game l') = identityOf <$> players (App.game l)
     ∧ (∀ j p q, players (App.game l) !! j = Some p →
                 players (App.game l') !! j = Some q → score p ≤ score q)
     ∧ currentCategory (App.game l') = currentCategory (App.game l)
     ∧ currentUser (App.game l') = currentUser (App.game l))
  ∧ (∀ (l l' : Part000.LoopState) (es : list Turn),
       Part000.gameLoopFrom l es = Some l' →
       identityOf <$> players (Part000.game l')
       = identityOf <$> players (Part000.game l)
       ∧ (∀ j p q, players (Part000.game l) !! j = Some p →
                   players (Part000.game l') !! j = Some q →
                   score p ≤ score q)
       ∧ currentCategory (Part000.game l') = currentCategory (Part000.game l)
       ∧ currentUser (Part000.game l') = currentUser (Part000.game l)).
Proof.
  split.
  - intros l l' es.
    apply (App_run_ind
             (λ x, identityOf <$> players (App.game x)
                   = identityOf <$> players (App.game l)
                   ∧ (∀ j p q, players (App.game l) !! j = Some p →
                               players (App.game x) !! j = Some q →
                               score p ≤ score q)
                   ∧ currentCategory (App.game x) = currentCategory (App.game l)
                   ∧ currentUser (App.game x) = currentUser (App.game l))).
    + intros x e x' _ (Hid & Hle & Hcat & Huser) Hturn.
      destruct (App_turn_cases _ _ _ Hturn) as (p & Hp & [Hacc|Hrej]).
      * destruct Hacc as (w & _ & Hacc & Hps & _ & _ & Hc & Hu & _).
        pose proof (App_points_range _ _ Hacc) as Hpts.
        rewrite Hps, Hc, Hu, (identityOf_addPoint _ _ _ _ Hp).
        split; [exact Hid|]. split; [|split; assumption].
        apply scores_grow_addPoint; [lia | exact Hp | exact Hle].
      * destruct Hrej as (_ & -> & _). auto.
    + split; [reflexivity|]. split; [|split; reflexivity].
      intros j p q Hp Hq. assert (p = q) as -> by congruence. lia.
  - intros l l' es.
    apply (Part000_run_ind
             (λ x, identityOf <$> players (Part000.game x)
                   = identityOf <$> players (Part000.game l)
                   ∧ (∀ j p q, players (Part000.game l) !! j = Some p →
                               players (Part000.game x) !! j = Some q →
                               score p ≤ score q)
                   ∧ currentCategory (Part000.game x)
                     = currentCategory (Part000.game l)
                   ∧ currentUser (Part000.game x)
                     = currentUser (Part000.game l))).
    + intros x e x' _ (Hid & Hle & Hcat & Huser) Hturn.
      destruct (Part000_turn_cases _ _ _ Hturn)
        as (p & Hp & _ & Hc & Hu & _ & [Hacc|Hrej]).
      * destruct Hacc as (w & _ & _ & Hps & _).
        rewrite Hps, Hc, Hu, (identityOf_addPoint _ _ _ _ Hp).
        split; [exact Hid|]. split; [|split; assumption].
        apply scores_grow_addPoint; [lia | exact Hp | exact Hle].
      * destruct Hrej as (_ & -> & _). rewrite Hc, Hu. auto.
    + intros x x' Hafter Hx.
      destruct (Part000_afterLoop_game _ _ Hafter) as (-> & _). exact Hx.
    + split; [reflexivity|]. split; [|split; reflexivity].
      intros j p q Hp Hq. assert (p = q) as -> by congruence. lia.
Qed.

Lemma index_advances :
  (∀ (es : list Turn) (l l' : App.LoopState),
     App.gameLoopFrom l es = Some l' →
     App.running l' = true →
     length (players (App.game l')) = length (players (App.game l))
     ∧ App.playerIdx l' mod length (players (App.game l))
       = (App.playerIdx l + length es) mod length (players (App.game l)))%nat
  ∧ (∀ (es : list Turn) (l l' : Part000.LoopState),
       Part000.gameLoopFrom l es = Some l' →
       Part000.running l' = true →
       length (players (Part000.game l')) = length (players (Part000.game l))
       ∧ Part000.currentPlayerIndex l' mod length (players (Part000.game l))
         = (Part000.currentPlayerIndex l + length es)
             mod length (players (Part000.game l)))%nat.
Proof.
  split.
  - intros es. induction es as [|e es IH]; intros l l'; simpl.
    + intros [= <-] _. rewrite Nat.add_0_r. auto.
    + destruct (App.running l) eqn:Hrun;
        [|intros [= <-] Hrun'; congruence].
      destruct (App.turn l e) as [l1|] eqn:Hturn; [|discriminate]. simpl.
      intros Hrest Hrun'.
      destruct (IH _ _ Hrest Hrun') as (Hlen & Hidx).
      assert (Hl1 : App.running l1 = true).
      { destruct (App.running l1) eqn:Hr1; [reflexivity|].
        rewrite (App_stopped_stays es l1 Hr1) in Hrest.
        injection Hrest as <-. congruence. }
      apply App_running_true in Hl1 as (_ & _ & Hann1).
      destruct (App_turn_cases _ _ _ Hturn) as (p & Hp & Hcases).
      assert (Hstep : length (players (App.game l1))
                      = length (players (App.game l))
                      ∧ App.playerIdx l1
                        = ((App.playerIdx l + 1)
                             mod length (players (App.game l)))%nat).
      { destruct Hcases as [(w & _ & _ & Hps & _ & _ & _ & _ & _ & Hc)
                           |(_ & Hg & _ & Hc)].
        - rewrite Hps, length_insert.
          destruct Hc as [(_ & _ & Hi & _)|(_ & [x Hx] & _)]; [auto|congruence].
        - rewrite Hg.
          destruct Hc as [(_ & Hi & _)|(_ & [x Hx] & _)]; [auto|congruence]. }
      destruct Hstep as (Hlen1 & Hidx1).
      rewrite Hlen1 in Hlen, Hidx. split; [exact Hlen|].
      rewrite Hidx, Hidx1, Nat.Div0.add_mod_idemp_l.
      f_equal. lia.
  - intros es. induction es as [|e es IH]; intros l l'; simpl;
      destruct (Part000.running l) eqn:Hrun.
    + intros [= <-] _. rewrite Nat.add_0_r. auto.
    + intros Hafter Hrun'.
      destruct (Part000_afterLoop_game _ _ Hafter) as (Hg & _ & Hsk).
      unfold Part000.running in *. rewrite Hg, Hsk in Hrun'. congruence.
    + destruct (Part000.turn l e) as [l1|] eqn:Hturn; [|discriminate]. simpl.
      intros Hrest Hrun'.
      destruct (IH _ _ Hrest Hrun') as (Hlen & Hidx).
      destruct (Part000_turn_cases _ _ _ Hturn)
        as (p & Hp & Hidx1 & _ & _ & _ & Hcases).
      assert (Hlen1 : length (players (Part000.game l1))
                      = length (players (Part000.game l))).
      { destruct Hcases as [(w & _ & _ & Hps & _)|(_ & Hps & _)];
          rewrite Hps; [apply length_insert | reflexivity]. }
      rewrite Hlen1 in Hlen, Hidx. split; [exact Hlen|].
      rewrite Hidx, Hidx1, Nat.Div0.add_mod_idemp_l.
      f_equal. lia.
    + intros Hafter Hrun'.
      destruct (Part000_afterLoop_game _ _ Hafter) as (Hg & _ & Hsk).
      unfold Part000.running in *. rewrite Hg, Hsk in Hrun'. congruence.
Qed.

(** X7: Players take turns in list order: while a game started by
    [#startNewGame] is still going after [k] turns, it is the turn of
    player [k] modulo the number of players, in both files. *)
Theorem X7_players_alternate (g gA gP : WordGame) (cc dc : option Z)
    (n rid1 rid2 : jsstring) (es : list Turn) :
  App.startNewGame g cc dc n rid1 rid2 = Some gA →
  Part000.startNewGame g cc n rid1 rid2 = Some gP →
  (∀ l, App.gameLoop gA es = Some l → App.running l = true →
        App.playerIdx l = (length es mod length (players gA))%nat)
  ∧ (∀ l, Part000.gameLoop gP es = Some l → Part000.running l = true →
          Part000.currentPlayerIndex l
          = (length es mod length (players gP))%nat).
Proof.
  intros HA HP. destruct index_advances as (HiA & HiP). split.
  - intros l Hl Hrun.
    destruct (HiA es _ _ Hl Hrun) as (Hlen & Hidx). simpl in *.
    pose proof (App_run_invariant es _ _
                  (App_fresh_invariant _ _ _ _ _ _ _ HA) Hl) as (Hlt & _).
    rewrite Hlen in Hlt. rewrite Nat.mod_small in Hidx by exact Hlt.
    exact Hidx.
  - intros l Hl Hrun.
    destruct (HiP es _ _ Hl Hrun) as (Hlen & Hidx). simpl in *.
    pose proof (Part000_gameLoopFrom_invariant es _ _
                  (Part000_fresh_invariant _ _ _ _ _ _ HP) Hl) as (Hlt & _).
    rewrite Hlen in Hlt. rewrite Nat.mod_small in Hidx by exact Hlt.
    exact Hidx.
Qed.

(** ** The computer's move *)

Lemma App_move_is_candidate (d : jsstring)
    (db : gmap jsstring (list jsstring)) (e : Turn) (s : MoveState)
    (w : jsstring) :
  App.ComputerPlayer_makeMove d db e s = Some w →
  w ∈ App.availableWords db s
  ∧ (d = js "easy" → App.availableWords db s !! 0%nat = Some w).
Proof.
  unfold App.ComputerPlayer_makeMove.
  destruct (App.availableWords db s) as [|w0 ws] eqn:Hw; [discriminate|].
  destruct (decide (d = js "easy")) as [Heasy|Hne].
  - intros [= <-]. split; [left | reflexivity].
  - destruct (decide (d = js "hard")) as [Hhard|Hnh].
    + intros [= <-]. split; [|congruence].
      destruct (reduce_from_head_last wordLength _ (w0 :: ws) w0
                  pick_last_longest eq_refl) as (i & Hi & _).
      apply list_elem_of_lookup. eauto.
    + intros Hl. split; [|congruence].
      apply list_elem_of_lookup. eauto.
Qed.

Lemma Part000_move_is_candidate (d : jsstring)
    (db : gmap jsstring (list jsstring)) (e : Turn) (s : MoveState)
    (w : jsstring) :
  Part000.ComputerPlayer_makeMove d db e s = Some w →
  w ∈ Part000.getAvailableWords db (s_lastWord s) (s_usedWords s)
        (s_category s)
  ∧ (d = js "easy" →
     Part000.getAvailableWords db (s_lastWord s) (s_usedWords s)
       (s_category s) !! 0%nat = Some w).
Proof.
  unfold Part000.ComputerPlayer_makeMove, Part000.selectWordByDifficulty.
  destruct (Part000.getAvailableWords _ _ _ _) as [|w0 ws] eqn:Hw;
    [discriminate|].
  simpl length. simpl Nat.eqb. cbv iota.
  destruct (decide (d = js "easy")) as [Heasy|Hne].
  - intros Hl. split; [apply list_elem_of_lookup; eauto | intros _; exact Hl].
  - destruct (decide (d = js "hard")) as [Hhard|Hnh].
    + simpl. intros [= <-]. split; [|congruence].
      destruct (reduce_from_head_first wordLength _ (w0 :: ws) w0
                  pick_first_longest eq_refl) as (i & Hi & _).
      apply list_elem_of_lookup. eauto.
    + intros Hl. split; [|congruence].
      apply list_elem_of_lookup. eauto.
Qed.

(** X8: Whatever the difficulty string, the word the computer returns is
    one of its candidates: a word of the category's list whose
    case-folded form is unused and which continues the chain; with
    ['easy'] it is the first candidate in list order. In both files. *)
Theorem X8_computer_returns_a_candidate (d : jsstring)
    (db : gmap jsstring (list jsstring)) (e : Turn) (s : MoveState)
    (w : jsstring) :
  (App.ComputerPlayer_makeMove d db e s = Some w →
   candidateCondition db s w
   ∧ (d = js "easy" → App.availableWords db s !! 0%nat = Some w))
  ∧ (Part000.ComputerPlayer_makeMove d db e s = Some w →
     candidateCondition db s w
     ∧ (d = js "easy" →
        Part000.getAvailableWords db (s_lastWord s) (s_usedWords s)
          (s_category s) !! 0%nat = Some w)).
Proof.
  split; intros Hmove.
  - destruct (App_move_is_candidate _ _ _ _ _ Hmove) as (Hin & Hfirst).
    split; [apply availableWords_spec, Hin | exact Hfirst].
  - destruct (Part000_move_is_candidate _ _ _ _ _ Hmove) as (Hin & Hfirst).
    split; [|exact Hfirst].
    rewrite getAvailableWords_eq in Hin. apply availableWords_spec, Hin.
Qed.

Lemma Part000_accepts_intro (g : WordGame) (w : jsstring) :
  w ≠ [] → (2 ≤ length w)%nat → toLowerCase w ∉ usedWords g →
  (lastWord g = []
   ∨ firstUnit (toLowerCase w) = lastUnit (toLowerCase (lastWord g))) →
  Part000.accepts g (Some w) = true.
Proof.
  intros Hne Hlen Hnew Hchain. simpl.
  unfold Part000.validateWord. rewrite (proj2 (truthy_true w) Hne). simpl.
  rewrite (proj2 (Nat.ltb_ge _ _) Hlen).
  rewrite bool_decide_eq_false_2 by exact Hnew. simpl.
  destruct (lastWord g) as [|c r]; [reflexivity|].
  destruct Hchain as [Hempty|Hchain]; [discriminate|].
  simpl. rewrite bool_decide_eq_true_2 by exact Hchain. reflexivity.
Qed.

(** Every word of the two word databases passes the length checks. *)
Lemma App_database_words (category : jsstring) (ws : list jsstring)
    (w : jsstring) :
  App.initialWordDatabase !! category = Some ws → w ∈ ws →
  w ≠ [] ∧ (2 ≤ length (trim w))%nat.
Proof.
  intros Hl Hw. unfold App.initialWordDatabase in Hl.
  apply elem_of_list_to_map_2 in Hl.
  assert (Hcheck : App.Validator_validateWord w = true).
  { repeat (apply elem_of_cons in Hl as [Hl|Hl];
            [injection Hl as _ ->;
             repeat (apply elem_of_cons in Hw as [->|Hw];
                     [vm_compute; reflexivity|]);
             inversion Hw|]).
    inversion Hl. }
  unfold App.Validator_validateWord, App.MIN_WORD_LENGTH in Hcheck.
  apply andb_true_iff in Hcheck as [Ht Hlen].
  apply truthy_true in Ht. apply Nat.leb_le in Hlen. auto.
Qed.

Lemma Part000_database_words (category : jsstring) (ws : list jsstring)
    (w : jsstring) :
  Part000.initialWordDatabase !! category = Some ws → w ∈ ws →
  w ≠ [] ∧ (2 ≤ length w)%nat.
Proof.
  intros Hl Hw. unfold Part000.initialWordDatabase in Hl.
  apply elem_of_list_to_map_2 in Hl.
  assert (Hcheck : truthy w && (2 <=? length w)%nat = true).
  { repeat (apply elem_of_cons in Hl as [Hl|Hl];
            [injection Hl as _ ->;
             repeat (apply elem_of_cons in Hw as [->|Hw];
                     [vm_compute; reflexivity|]);
             inversion Hw|]).
    inversion Hl. }
  apply andb_true_iff in Hcheck as [Ht Hlen].
  apply truthy_true in Ht. apply Nat.leb_le in Hlen. auto.
Qed.

(** X9: A computer player that holds the database of its constructor never
    makes an invalid move: whatever it returns is accepted, so its turn
    is rejected exactly when it has no candidate. In both files. *)
Theorem X9_computer_move_is_accepted (g : WordGame) (p : Player) (e : Turn)
    (d : jsstring) :
  (variant p = ComputerPlayer d App.initialWordDatabase →
   (App.accepts g (App.makeMove p e (moveState g)) = false
    ↔ App.availableWords App.initialWordDatabase (moveState g) = []))
  ∧ (variant p = ComputerPlayer d Part000.initialWordDatabase →
     (Part000.accepts g (Part000.makeMove p e (moveState g)) = false
      ↔ Part000.getAvailableWords Part000.initialWordDatabase (lastWord g)
          (usedWords g) (currentCategory g) = [])).
Proof.
  split; intros Hv.
  - unfold App.makeMove. rewrite Hv.
    rewrite <- (App_makeMove_null d _ e).
    destruct (App.ComputerPlayer_makeMove d App.initialWordDatabase e
                (moveState g)) as [w|] eqn:Hmove; [|tauto].
    split; [|discriminate]. intros Hrej. exfalso.
    apply not_true_iff_false in Hrej. apply Hrej.
    destruct (App_move_is_candidate _ _ _ _ _ Hmove) as (Hin & _).
    apply availableWords_spec in Hin as (Hdb & Hnew & Hchain).
    destruct (App.initialWordDatabase !! s_category (moveState g))
      as [ws|] eqn:Hws; [|inversion Hdb].
    destruct (App_database_words _ _ _ Hws Hdb) as (Hne & Hlen).
    apply App_accepts_true. exists w. split; [reflexivity|].
    split; [exact Hne|]. apply validateWord_true. auto.
  - unfold Part000.makeMove. rewrite Hv.
    change (Part000.getAvailableWords Part000.initialWordDatabase (lastWord g)
              (usedWords g) (currentCategory g))
      with (Part000.getAvailableWords Part000.initialWordDatabase
              (s_lastWord (moveState g)) (s_usedWords (moveState g))
              (s_category (moveState g))).
    rewrite <- (Part000_makeMove_null d _ e).
    destruct (Part000.ComputerPlayer_makeMove d Part000.initialWordDatabase e
                (moveState g)) as [w|] eqn:Hmove; [|tauto].
    split; [|discriminate]. intros Hrej. exfalso.
    apply not_true_iff_false in Hrej. apply Hrej.
    destruct (Part000_move_is_candidate _ _ _ _ _ Hmove) as (Hin & _).
    rewrite getAvailableWords_eq in Hin.
    apply availableWords_spec in Hin as (Hdb & Hnew & Hchain).
    destruct (Part000.initialWordDatabase !! s_category (moveState g))
      as [ws|] eqn:Hws; [|inversion Hdb].
    destruct (Part000_database_words _ _ _ Hws Hdb) as (Hne & Hlen).
    apply Part000_accepts_intro; assumption.
Qed.

(** ** Trimming *)

Lemma trimStart_fixed (s : jsstring) :
  (∀ c, head s = Some c → isWhiteSpace c = false) → trimStart s = s.
Proof.
  destruct s as [|c s]; [reflexivity|]. intros Hc. simpl.
  rewrite (Hc c eq_refl). reflexivity.
Qed.

Lemma trimStart_head (s : jsstring) (c : N) :
  head (trimStart s) = Some c → isWhiteSpace c = false.
Proof.
  induction s as [|d s IH]; simpl; [discriminate|].
  destruct (isWhiteSpace d) eqn:Hd; [exact IH|].
  simpl. intros [= <-]. exact Hd.
Qed.

Lemma trimStart_snoc (s : jsstring) (c : N) :
  isWhiteSpace c = false → trimStart (s ++ [c]) = trimStart s ++ [c].
Proof.
  intros Hc. induction s as [|d s IH]; simpl.
  - rewrite Hc. reflexivity.
  - destruct (isWhiteSpace d); [exact IH | reflexivity].
Qed.

Lemma trimEnd_head (s : jsstring) (c : N) :
  (∀ d, head s = Some d → isWhiteSpace d = false) →
  head (trimEnd s) = Some c → isWhiteSpace c = false.
Proof.
  destruct s as [|d s]; [discriminate|]. intros Hd. unfold trimEnd.
  simpl rev. rewrite trimStart_snoc by (apply Hd; reflexivity).
  rewrite rev_app_distr. simpl. intros [= <-]. apply Hd. reflexivity.
Qed.

Lemma trimEnd_idempotent (s : jsstring) : trimEnd (trimEnd s) = trimEnd s.
Proof.
  unfold trimEnd. rewrite rev_involutive. f_equal.
  apply trimStart_fixed. intros c. apply trimStart_head.
Qed.

(** [trim] removes all there is to remove. *)
Lemma trim_idempotent (s : jsstring) : trim (trim s) = trim s.
Proof.
  unfold trim. rewrite (trimStart_fixed (trimEnd (trimStart s))).
  - apply trimEnd_idempotent.
  - intros c. apply trimEnd_head. intros d. apply trimStart_head.
Qed.

Lemma accepts_human_agree (g : WordGame) (p : Player) (e : Turn) :
  isHuman p = true →
  App.accepts g (App.makeMove p e (moveState g))
  = Part000.accepts g (Part000.makeMove p e (moveState g)).
Proof.
  unfold isHuman, App.makeMove, Part000.makeMove.
  destruct (variant p); [|discriminate]. intros _.
  unfold HumanPlayer_makeMove. simpl.
  unfold App.validateWord, Part000.validateWord, App.Validator_validateWord,
    App.MIN_WORD_LENGTH.
  rewrite trim_idempotent.
  destruct (trim (typed e)) as [|c w] eqn:Hw; [reflexivity|].
  simpl truthy. cbv iota. rewrite !andb_true_l. simpl negb at 2.
  rewrite orb_false_l, Nat.leb_antisym.
  destruct (length (c :: w) <? 2)%nat; simpl; [reflexivity|].
  destruct (bool_decide (toLowerCase (c :: w) ∈ usedWords g)); simpl;
    [reflexivity|].
  destruct (lastWord g) as [|c' r]; simpl; [reflexivity|].
  destruct (bool_decide (firstUnit (toLowerCase (c :: w))
                         = lastUnit (toLowerCase (c' :: r))));
    reflexivity.
Qed.

(** X10: On what a human player submits, the two files decide alike: the
    line is trimmed by [makeMove], so the second [trim] of
    [Validator.validateWord] in [src/app.js] changes nothing and
    [src/unnamed/part_000], which checks the length as it is, accepts
    the same submissions. *)
Theorem X10_files_agree_on_human_moves (g : WordGame) (p : Player) (e : Turn) :
  isHuman p = true →
  App.makeMove p e (moveState g) = Part000.makeMove p e (moveState g)
  ∧ App.accepts g (App.makeMove p e (moveState g))
    = Part000.accepts g (Part000.makeMove p e (moveState g)).
Proof.
  intros Hh. split; [|apply accepts_human_agree, Hh].
  unfold isHuman, App.makeMove, Part000.makeMove in *.
  destruct (variant p); [reflexivity | discriminate].
Qed.

(** ** A lone human player *)

(** X11: With a single human player who has a username, the turn that brings
    the fifth word throws in [src/unnamed/part_000] (the statistics
    block reads the score of a second player), while [src/app.js]
    completes the same turn and ends the game. *)
Theorem X11_fifth_word_of_lone_human (lP : Part000.LoopState)
    (lA : App.LoopState) (e : Turn) (h : Player) (u : jsstring) :
  players (Part000.game lP) = [h] →
  Part000.currentPlayerIndex lP = 0%nat →
  App.game lA = Part000.game lP →
  App.playerIdx lA = 0%nat →
  isHuman h = true →
  usernameOf h = Some u → u ≠ [] →
  size (usedWords (Part000.game lP)) = 4%nat →
  Part000.accepts (Part000.game lP)
    (Part000.makeMove h e (moveState (Part000.game lP))) = true →
  Part000.turn lP e = None
  ∧ ∃ l', App.turn lA e = Some l'
          ∧ isGameActive (App.game l') = false
          ∧ size (usedWords (App.game l')) = 5%nat.
Proof.
  intros Hps Hidx Hgame HidxA Hhuman Hu Hne Hsize Hacc. split.
  - unfold Part000.turn. rewrite Hps, Hidx. simpl.
    destruct (Part000_accepts_true _ _ Hacc) as (w & Hw & _ & Hnew).
    rewrite Hw in *. unfold Part000.resolveTurn.
    destruct (Part000_applyWord_accepted lP h w Hacc) as (Hps1 & Hused1 & _).
    unfold Part000.endOfTurn. rewrite Hused1, (size_add_fresh _ _ Hnew), Hsize.
    simpl Nat.leb. cbv iota. rewrite Hps1, Hps, Hidx. simpl.
    unfold Part000.statsBlock. simpl.
    unfold isHuman in *. simpl. rewrite Hhuman.
    unfold usernameOf in *. simpl. rewrite Hu. simpl.
    rewrite (proj2 (truthy_true u) Hne). reflexivity.
  - pose proof (accepts_human_agree (Part000.game lP) h e Hhuman) as Hsame.
    rewrite Hacc in Hsame.
    assert (Hp : players (App.game lA) !! App.playerIdx lA = Some h).
    { rewrite Hgame, Hps, HidxA. reflexivity. }
    rewrite <- Hgame in Hsame.
    destruct (App_turn_accepted lA e h Hp Hsame)
      as (l' & Hl' & Hsz & _ & _ & Hcases).
    exists l'. rewrite Hgame, Hsize in Hsz. split; [exact Hl'|].
    destruct Hcases as [(Hlt & _)|(_ & Ha & _)]; [lia | auto].
Qed.

(** ** The snapshot of a game of [src/app.js] *)

Lemma App_player_restored (p : Player) :
  builtByApp p →
  App.deserializePlayer
    (if bool_decide (d_type (Player_serialize p) = Some (js "ComputerPlayer"))
     then App.newComputerPlayer [] (js "medium")
     else newHumanPlayer [] [] [] [])
    (Player_serialize p) = p.
Proof.
  intros (Hc & Hdb). destruct p as [n sc i [em un|d db]].
  - assert (Ht : bool_decide (d_type (Player_serialize
       {| name := n; score := sc; playerId := i; variant := HumanPlayer em un |})
       = Some (js "ComputerPlayer")) = false) by (vm_compute; reflexivity).
    rewrite Ht. unfold App.deserializePlayer.
    cbn [variant newHumanPlayer Player_deserialize Player_serialize score name
         playerId d_name d_score d_id d_email d_username emailOf usernameOf].
    rewrite !orDefault_Some_empty. reflexivity.
  - assert (Ht : bool_decide (d_type (Player_serialize
       {| name := n; score := sc; playerId := i; variant := ComputerPlayer d db |})
       = Some (js "ComputerPlayer")) = true) by (vm_compute; reflexivity).
    rewrite Ht. unfold App.deserializePlayer.
    cbn [variant App.newComputerPlayer Player_deserialize Player_serialize score
         name playerId d_name d_score d_id d_difficulty difficultyOf].
    rewrite orDefault_Some_truthy by (apply Hc; reflexivity).
    rewrite (Hdb d db eq_refl). reflexivity.
Qed.

Lemma App_snapshot_restores (g : WordGame) :
  Forall builtByApp (players g) → App.deserialize (serialize g) = Some g.
Proof.
  intros Hwf. destruct g as [ps used cat lw act cu].
  unfold App.deserialize, serialize.
  cbn [data_players data_usedWords data_currentCategory data_lastWord
       data_isGameActive data_currentUser players usedWords currentCategory
       lastWord isGameActive currentUser mbind option_bind default] in *.
  rewrite !orDefault_Some_empty. f_equal. f_equal.
  - rewrite <- list_fmap_compose. apply list_eq. intros i.
    rewrite list_lookup_fmap.
    destruct (ps !! i) as [p|] eqn:Hp; [|reflexivity]. simpl. f_equal.
    apply App_player_restored. rewrite Forall_forall in Hwf. apply Hwf.
    apply list_elem_of_lookup. eauto.
  - unfold newSet. apply list_to_set_elements_L.
Qed.

Lemma builtByApp_identity (ps ps' : list Player) :
  identityOf <$> ps' = identityOf <$> ps →
  Forall builtByApp ps → Forall builtByApp ps'.
Proof.
  intros Hid Hwf. apply Forall_lookup. intros i p' Hp'.
  assert (Hi : (identityOf <$> ps') !! i = Some (identityOf p'))
    by (rewrite list_lookup_fmap, Hp'; reflexivity).
  rewrite Hid, list_lookup_fmap in Hi.
  destruct (ps !! i) as [p|] eqn:Hp; [|discriminate].
  assert (Hv : variant p = variant p').
  { simpl in Hi. unfold identityOf in Hi. injection Hi as _ _ Hv. exact Hv. }
  rewrite Forall_lookup in Hwf. destruct (Hwf i p Hp) as (Hc & Hdb).
  unfold builtByApp, constructed, holdsInitialDatabase, difficultyOf in *.
  rewrite <- Hv. auto.
Qed.

Lemma App_startNewGame_built (g gA : WordGame) (cc dc : option Z)
    (n rid1 rid2 : jsstring) :
  Forall builtByApp (players g) →
  App.startNewGame g cc dc n rid1 rid2 = Some gA →
  Forall builtByApp (players gA).
Proof.
  intros Hg. unfold App.startNewGame.
  destruct (players g) as [|p ps] eqn:Hps.
  - destruct (currentUser g) as [u|]; [|discriminate]. simpl.
    intros [= <-]. simpl. repeat constructor.
    + intros d. discriminate.
    + intros d db. discriminate.
    + intros d. unfold difficultyOf. simpl. intros [= <-].
      apply orDefault_truthy. vm_compute. discriminate.
    + intros d db. simpl. intros [= _ <-]. reflexivity.
  - simpl. intros [= <-].
    change (Forall builtByApp (resetScore <$> (p :: ps))).
    apply Forall_fmap. eapply Forall_impl; [exact Hg|].
    intros x Hx. exact Hx.
Qed.

(** X12: In [src/app.js] saving and loading gives back the very game,
    word database included, at any moment of a game started by
    [#startNewGame] with players the program has built. *)
Theorem X12_snapshot_restores_the_game (g gA : WordGame) (cc dc : option Z)
    (n rid1 rid2 : jsstring) (es : list Turn) (l : App.LoopState) :
  Forall builtByApp (players g) →
  App.startNewGame g cc dc n rid1 rid2 = Some gA →
  App.gameLoop gA es = Some l →
  App.deserialize (serialize (App.game l)) = Some (App.game l).
Proof.
  intros Hg HA Hl. apply App_snapshot_restores.
  pose proof (App_run_identity _ _ _ Hl) as Hid.
  eapply builtByApp_identity; [exact Hid|]. simpl.
  eapply App_startNewGame_built; eauto.
Qed.

End LoopMore.

(** * Setting up a game *)

Lemma choose_in_range {A} (l : list A) (z : Z) :
  1 ≤ z ≤ Z.of_nat (length l) →
  choose l (Some z) = l !! Z.to_nat (z - 1) ∧ is_Some (choose l (Some z)).
Proof.
  intros Hz. unfold choose. rewrite (proj2 (Z.leb_le 1 z)) by lia.
  split; [reflexivity|]. apply lookup_lt_is_Some. lia.
Qed.

Lemma choose_out_of_range {A} (l : list A) (c : option Z) :
  (c = None ∨ ∃ z, c = Some z ∧ ¬ (1 ≤ z ≤ Z.of_nat (length l))) →
  choose l c = None.
Proof.
  intros [->|(z & -> & Hz)]; [reflexivity|]. unfold choose.
  destruct (Z.leb_spec 1 z); [|reflexivity].
  apply lookup_ge_None. lia.
Qed.

Lemma orDefault_of_list (l : list jsstring) (i : nat) (x d : jsstring) :
  Forall (λ s, s ≠ []) l → l !! i = Some x → orDefault (l !! i) d = x.
Proof.
  intros Hl Hx. rewrite Hx. apply orDefault_Some_truthy.
  rewrite Forall_lookup in Hl. eauto.
Qed.

Lemma identityOf_resetScore (ps : list Player) :
  identityOf <$> (resetScore <$> ps) = identityOf <$> ps.
Proof. induction ps as [|p ps IH]; simpl; [reflexivity | f_equal; exact IH]. Qed.

Lemma resetScore_zero (ps : list Player) :
  Forall (λ p, score p = 0) (resetScore <$> ps).
Proof. apply Forall_fmap, Forall_forall. intros x _. reflexivity. Qed.

(** X13: [#startNewGame] of [src/app.js]: it throws only when there is no
    player and nobody is logged in; a choice of 1, 2 or 3 selects that
    category or difficulty and any other answer the first category and
    ['medium']; without players it sets up the logged-in user against a
    computer of that difficulty, otherwise it keeps the players and
    resets their scores. *)
Theorem X13_new_game_setup (g : WordGame) (cc dc : option Z)
    (n rid1 rid2 : jsstring) :
  (App.startNewGame g cc dc n rid1 rid2 = None
   ↔ players g = [] ∧ currentUser g = None)
  ∧ ∀ gA, App.startNewGame g cc dc n rid1 rid2 = Some gA →
      currentCategory gA ∈ App.CATEGORIES
      ∧ (∀ z, cc = Some z → 1 ≤ z ≤ 3 →
              App.CATEGORIES !! Z.to_nat (z - 1) = Some (currentCategory gA))
      ∧ ((cc = None ∨ ∃ z, cc = Some z ∧ ¬ (1 ≤ z ≤ 3)) →
         currentCategory gA = js "города")
      ∧ (players g ≠ [] →
         identityOf <$> players gA = identityOf <$> players g
         ∧ Forall (λ p, score p = 0) (players gA))
      ∧ (players g = [] →
         ∃ u diff, currentUser g = Some u
           ∧ players gA = [newHumanPlayer rid1 n (email u) (username u);
                           App.newComputerPlayer rid2 diff]
           ∧ diff ∈ App.DIFFICULTY_LEVELS
           ∧ (∀ z, dc = Some z → 1 ≤ z ≤ 3 →
                   App.DIFFICULTY_LEVELS !! Z.to_nat (z - 1) = Some diff)
           ∧ ((dc = None ∨ ∃ z, dc = Some z ∧ ¬ (1 ≤ z ≤ 3)) →
              diff = js "medium")).
Proof.
  assert (Hpick : ∀ (l : list jsstring) (c : option Z) (d : jsstring),
            length l = 3%nat → Forall (λ s, s ≠ []) l → d ∈ l →
            orDefault (choose l c) d ∈ l
            ∧ (∀ z, c = Some z → 1 ≤ z ≤ 3 →
                    l !! Z.to_nat (z - 1) = Some (orDefault (choose l c) d))
            ∧ ((c = None ∨ ∃ z, c = Some z ∧ ¬ (1 ≤ z ≤ 3)) →
               orDefault (choose l c) d = d)).
  { intros l c d Hlen Hne Hd.
    assert (Hcases : (∃ z, c = Some z ∧ 1 ≤ z ≤ 3)
                     ∨ (c = None ∨ ∃ z, c = Some z ∧ ¬ (1 ≤ z ≤ 3))).
    { destruct c as [z|]; [|right; left; reflexivity].
      destruct (decide (1 ≤ z ≤ 3)); [left | right; right]; eauto. }
    destruct Hcases as [(z & -> & Hz)|Hout].
    - destruct (choose_in_range l z) as (Hc & [x Hx]); [lia|].
      rewrite Hc in Hx. rewrite Hc, (orDefault_of_list _ _ x) by assumption.
      split; [apply list_elem_of_lookup; eauto|].
      split; [intros z' [= <-] _; exact Hx|].
      intros [Hn|(z' & [= <-] & Hz')]; [discriminate | lia].
    - rewrite (choose_out_of_range l c) by (rewrite Hlen; exact Hout).
      simpl. split; [exact Hd|].
      split; [|reflexivity].
      intros z -> Hz. destruct Hout as [Hn|(z' & [= <-] & Hz')];
        [discriminate | lia]. }
  assert (HneC : Forall (λ s : jsstring, s ≠ []) App.CATEGORIES)
    by (repeat constructor; discriminate).
  assert (HneD : Forall (λ s : jsstring, s ≠ []) App.DIFFICULTY_LEVELS)
    by (repeat constructor; discriminate).
  destruct (Hpick App.CATEGORIES cc (js "города") eq_refl HneC)
    as (Hc1 & Hc2 & Hc3); [left|].
  destruct (Hpick App.DIFFICULTY_LEVELS dc (js "medium") eq_refl HneD)
    as (Hd1 & Hd2 & Hd3); [right; left|].
  unfold App.startNewGame. split.
  - destruct (players g) as [|p ps].
    + destruct (currentUser g); simpl; split;
        (discriminate || tauto || intros [_ ?]; discriminate || auto).
    + simpl. split; [discriminate | intros [? _]; discriminate].
  - intros gA. destruct (players g) as [|p ps] eqn:Hps.
    + destruct (currentUser g) as [u|]; [|discriminate]. simpl.
      intros [= <-]. cbn [currentCategory players].
      split; [exact Hc1|]. split; [exact Hc2|]. split; [exact Hc3|].
      split; [congruence|]. intros _.
      exists u, (orDefault (choose [js "easy"; js "medium"; js "hard"] dc)
                   (js "medium")).
      split; [reflexivity|]. split; [reflexivity|].
      split; [exact Hd1|]. split; [exact Hd2 | exact Hd3].
    + simpl. intros [= <-]. cbn [currentCategory players].
      split; [exact Hc1|]. split; [exact Hc2|]. split; [exact Hc3|].
      split; [|discriminate]. intros _. split.
      * apply (identityOf_resetScore (p :: ps)).
      * apply (resetScore_zero (p :: ps)).
Qed.

(** * [Map] *)
Section JsMapFacts.
Context {V : Type}.
Implicit Types (m : JsMap V) (k : jsstring) (v : V).

Lemma mapGet_mapSet_eq m k v : mapGet (mapSet m k v) k = Some v.
Proof.
  induction m as [|[k' v'] m IH]; simpl.
  - rewrite decide_True by reflexivity. reflexivity.
  - destruct (decide (k = k')) as [->|Hne]; simpl.
    + rewrite decide_True by reflexivity. reflexivity.
    + rewrite decide_False by exact Hne. exact IH.
Qed.

Lemma mapGet_mapSet_ne m k k' v :
  k ≠ k' → mapGet (mapSet m k v) k' = mapGet m k'.
Proof.
  intros Hne. induction m as [|[k0 v0] m IH]; simpl.
  - rewrite decide_False by congruence. reflexivity.
  - destruct (decide (k = k0)) as [->|Hk]; simpl.
    + rewrite !decide_False by congruence. reflexivity.
    + destruct (decide (k' = k0)); [reflexivity | exact IH].
Qed.

Lemma mapGet_mapDelete_eq m k : mapGet (mapDelete m k) k = None.
Proof.
  induction m as [|[k' v'] m IH]; simpl; [reflexivity|].
  destruct (decide (k = k')) as [->|Hne]; simpl; [exact IH|].
  rewrite decide_False by exact Hne. exact IH.
Qed.

Lemma mapGet_mapDelete_ne m k k' :
  k ≠ k' → mapGet (mapDelete m k) k' = mapGet m k'.
Proof.
  intros Hne. induction m as [|[k0 v0] m IH]; simpl; [reflexivity|].
  destruct (decide (k = k0)) as [->|Hk]; simpl.
  - rewrite decide_False by congruence. exact IH.
  - destruct (decide (k' = k0)); [reflexivity | exact IH].
Qed.

Lemma mapKeys_cons m k v : mapKeys ((k, v) :: m) = k :: mapKeys m.
Proof. reflexivity. Qed.

Lemma mapGet_None m k : mapGet m k = None ↔ k ∉ mapKeys m.
Proof.
  induction m as [|[k' v'] m IH].
  - split; [intros _ Hin; inversion Hin | reflexivity].
  - rewrite mapKeys_cons, not_elem_of_cons. cbn [mapGet].
    destruct (decide (k = k')) as [->|Hne].
    + split; [discriminate | intros [? _]; congruence].
    + rewrite IH. tauto.
Qed.

Lemma mapHas_true m k : mapHas m k = true ↔ k ∈ mapKeys m.
Proof.
  unfold mapHas. destruct (mapGet m k) eqn:Hg.
  - split; [intros _|reflexivity].
    destruct (decide (k ∈ mapKeys m)) as [|Hn]; [assumption|].
    apply mapGet_None in Hn. congruence.
  - apply mapGet_None in Hg. split; [discriminate | contradiction].
Qed.

Lemma mapSet_fresh m k v : k ∉ mapKeys m → mapSet m k v = m ++ [(k, v)].
Proof.
  induction m as [|[k' v'] m IH]; [reflexivity|].
  rewrite mapKeys_cons, not_elem_of_cons. intros [Hne Hnin].
  cbn [mapSet]. rewrite decide_False by exact Hne.
  rewrite IH by exact Hnin. reflexivity.
Qed.

Lemma mapKeys_mapSet m k v :
  mapKeys (mapSet m k v)
  = if mapHas m k then mapKeys m else mapKeys m ++ [k].
Proof.
  induction m as [|[k' v'] m IH]; [reflexivity|].
  unfold mapHas in *. cbn [mapSet mapGet].
  destruct (decide (k = k')) as [->|Hne]; [reflexivity|].
  rewrite !mapKeys_cons, IH. destruct (mapGet m k); reflexivity.
Qed.

Lemma mapKeys_mapSet_NoDup m k v :
  NoDup (mapKeys m) → NoDup (mapKeys (mapSet m k v)).
Proof.
  intros Hm. rewrite mapKeys_mapSet.
  destruct (mapHas m k) eqn:Hh; [exact Hm|].
  apply NoDup_app. split; [exact Hm|]. split; [|apply NoDup_singleton].
  intros x Hx Hk. apply list_elem_of_singleton in Hk as ->.
  apply mapHas_true in Hx. congruence.
Qed.

Lemma mapKeys_mapDelete_subset m k k' :
  k' ∈ mapKeys (mapDelete m k) → k' ∈ mapKeys m.
Proof.
  induction m as [|[k0 v0] m IH]; [auto|]. cbn [mapDelete].
  destruct (decide (k = k0)) as [->|Hne]; rewrite ?mapKeys_cons.
  - intros Hin. right. auto.
  - rewrite !elem_of_cons. intros [->|Hin]; auto.
Qed.

Lemma mapKeys_mapDelete_NoDup m k :
  NoDup (mapKeys m) → NoDup (mapKeys (mapDelete m k)).
Proof.
  induction m as [|[k' v'] m IH]; [auto|].
  rewrite mapKeys_cons, NoDup_cons. intros [Hnin Hm]. cbn [mapDelete].
  destruct (decide (k = k')) as [->|Hne]; [auto|].
  rewrite mapKeys_cons. apply NoDup_cons. split; [|auto].
  intros Hin. apply Hnin. eapply mapKeys_mapDelete_subset, Hin.
Qed.

(** [new Map(Array.from(m.entries()))] is [m], and more generally
    reading entries with distinct keys back through [set] keeps them
    as they are. *)
Lemma fold_mapSet_entries {W} (f : W → V) (l : list (jsstring * W))
    (acc : JsMap V) :
  NoDup (mapKeys acc ++ l.*1) →
  fold_left (λ m kw, mapSet m kw.1 (f kw.2)) l acc
  = acc ++ ((λ kw, (kw.1, f kw.2)) <$> l).
Proof.
  revert acc. induction l as [|[k w] l IH]; intros acc Hnd.
  - simpl. rewrite app_nil_r. reflexivity.
  - cbn [fold_left fst snd]. rewrite mapSet_fresh.
    + rewrite IH.
      * rewrite <- app_assoc. reflexivity.
      * unfold mapKeys in *. rewrite fmap_app, <- app_assoc. exact Hnd.
    + apply NoDup_app in Hnd as (_ & Hdisj & _). intros Hin.
      apply (Hdisj k Hin). rewrite fmap_cons. left.
Qed.

Lemma newMap_entries (l : list (jsstring * V)) :
  NoDup l.*1 → newMap l = l.
Proof.
  intros Hnd. unfold newMap.
  rewrite (fold_mapSet_entries (λ v, v) l []) by exact Hnd. simpl.
  apply list_eq. intros i. rewrite list_lookup_fmap.
  destruct (l !! i) as [[k v]|]; reflexivity.
Qed.

Lemma newMap_NoDup (l : list (jsstring * V)) : NoDup (mapKeys (newMap l)).
Proof.
  unfold newMap.
  assert (Hgen : ∀ acc : JsMap V, NoDup (mapKeys acc) →
            NoDup (mapKeys (fold_left (λ m kv, mapSet m kv.1 kv.2) l acc))).
  { induction l as [|[k v] l IH]; intros acc Hacc; simpl; [exact Hacc|].
    apply IH, mapKeys_mapSet_NoDup, Hacc. }
  apply Hgen. constructor.
Qed.

End JsMapFacts.

(** * The user registry of [src/app.js] *)
Section Registry.
Context (hashPassword : jsstring → jsstring).

Lemma loginUser_success (um : AppUsers.UserManager) (u p : jsstring) :
  AppUsers.success (AppUsers.loginUser hashPassword um u p).1 = true
  ↔ ∃ rec, mapGet (AppUsers.users um) u = Some rec
           ∧ AppUsers.passwordHash rec = hashPassword p.
Proof.
  unfold AppUsers.loginUser.
  destruct (mapGet (AppUsers.users um) u) as [rec|]; simpl.
  - case_bool_decide as Hh; simpl.
    + split; [discriminate | intros (r & [= <-] & ?); contradiction].
    + split; [intros _; exists rec; split; [reflexivity|] | reflexivity].
      destruct (decide (AppUsers.passwordHash rec = hashPassword p));
        [assumption | contradiction].
  - split; [discriminate | intros (r & ? & _); discriminate].
Qed.

Lemma loginUser_user (um : AppUsers.UserManager) (u p : jsstring)
    (rec : AppUsers.UserRecord) :
  mapGet (AppUsers.users um) u = Some rec →
  AppUsers.passwordHash rec = hashPassword p →
  AppUsers.loginUser hashPassword um u p
  = ({| AppUsers.success := true; AppUsers.message := js "Logged in";
        AppUsers.user :=
          Some {| username := u; role := AppUsers.userRole rec;
                  email := AppUsers.userEmail rec |} |},
     {| AppUsers.users := AppUsers.users um;
        AppUsers.userStats := AppUsers.userStats um;
        AppUsers.currentSession :=
          Some {| username := u; role := AppUsers.userRole rec;
                  email := AppUsers.userEmail rec |} |}).
Proof.
  intros Hrec Hh. unfold AppUsers.loginUser. rewrite Hrec.
  rewrite bool_decide_eq_false_2 by (intros Hne; contradiction).
  reflexivity.
Qed.

(** Logging in never touches the two maps, and a failed attempt leaves
    the session as it was. *)
Lemma loginUser_frame (um : AppUsers.UserManager) (u p : jsstring) :
  AppUsers.users (AppUsers.loginUser hashPassword um u p).2 = AppUsers.users um
  ∧ AppUsers.userStats (AppUsers.loginUser hashPassword um u p).2
    = AppUsers.userStats um
  ∧ (AppUsers.success (AppUsers.loginUser hashPassword um u p).1 = false →
     (AppUsers.loginUser hashPassword um u p).2 = um).
Proof.
  unfold AppUsers.loginUser.
  destruct (mapGet (AppUsers.users um) u) as [rec|]; simpl; [|auto].
  case_bool_decide; simpl; auto. repeat split. discriminate.
Qed.

Lemma registerUser_cases (um : AppUsers.UserManager) (now u p e r : jsstring) :
  (mapHas (AppUsers.users um) u = false
   ∧ AppUsers.validateUsername u = true ∧ AppUsers.validatePassword p = true
   ∧ AppUsers.registerUser hashPassword um now u p e r
     = ({| AppUsers.success := true; AppUsers.message := js "Registered";
           AppUsers.user := Some {| username := u; role := r; email := e |} |},
        {| AppUsers.users :=
             mapSet (AppUsers.users um) u
               {| AppUsers.passwordHash := hashPassword p;
                  AppUsers.userEmail := e; AppUsers.userRole := r;
                  AppUsers.regDate := now |};
           AppUsers.userStats :=
             mapSet (AppUsers.userStats um) u AppUsers.noStats;
           AppUsers.currentSession := AppUsers.currentSession um |}))
  ∨ (¬ (mapHas (AppUsers.users um) u = false
        ∧ AppUsers.validateUsername u = true
        ∧ AppUsers.validatePassword p = true)
     ∧ AppUsers.success (AppUsers.registerUser hashPassword um now u p e r).1
       = false
     ∧ (AppUsers.registerUser hashPassword um now u p e r).2 = um).
Proof.
  unfold AppUsers.registerUser.
  destruct (mapHas (AppUsers.users um) u); [right; simpl; intuition congruence|].
  destruct (AppUsers.validateUsername u);
    [|right; simpl; intuition congruence].
  destruct (AppUsers.validatePassword p);
    [|right; simpl; intuition congruence].
  left. simpl. auto.
Qed.

Lemma registerUser_proper (um : AppUsers.UserManager) (now u p e r : jsstring) :
  properRegistry um →
  properRegistry (AppUsers.registerUser hashPassword um now u p e r).2.
Proof.
  intros (Hu & Hs).
  destruct (registerUser_cases um now u p e r)
    as [(_ & _ & _ & ->)|(_ & _ & ->)]; [|split; assumption].
  split; simpl; apply mapKeys_mapSet_NoDup; assumption.
Qed.

(** X14: Registration in [src/app.js] succeeds exactly for a new login that
    passes the checks on login and password, and a failed attempt
    changes nothing. After a success, the login opens with a password
    exactly when its hash is that of the registered password, the
    statistics of the new user are all zero, and no other user's record
    or statistics have changed. *)
Theorem X14_registration (um : AppUsers.UserManager) (now u p e r : jsstring) :
  (AppUsers.success (AppUsers.registerUser hashPassword um now u p e r).1 = true
   ↔ mapHas (AppUsers.users um) u = false
     ∧ AppUsers.validateUsername u = true
     ∧ AppUsers.validatePassword p = true)
  ∧ (AppUsers.success (AppUsers.registerUser hashPassword um now u p e r).1
     = false →
     (AppUsers.registerUser hashPassword um now u p e r).2 = um)
  ∧ (AppUsers.success (AppUsers.registerUser hashPassword um now u p e r).1
     = true →
     let um' := (AppUsers.registerUser hashPassword um now u p e r).2 in
     (∀ p', AppUsers.success (AppUsers.loginUser hashPassword um' u p').1 = true
            ↔ hashPassword p' = hashPassword p)
     ∧ AppUsers.user (AppUsers.loginUser hashPassword um' u p).1
       = Some {| username := u; role := r; email := e |}
     ∧ AppUsers.getUserStats um' u = AppUsers.noStats
     ∧ ∀ u', u' ≠ u →
         mapGet (AppUsers.users um') u' = mapGet (AppUsers.users um) u'
         ∧ mapGet (AppUsers.userStats um') u'
           = mapGet (AppUsers.userStats um) u').
Proof.
  destruct (registerUser_cases um now u p e r)
    as [(Hnew & Hvu & Hvp & Heq)|(Hnot & Hfail & Hsame)].
  - rewrite Heq. simpl. split; [tauto|]. split; [discriminate|]. intros _.
    split; [|split; [|split]].
    + intros p'. rewrite loginUser_success. simpl.
      rewrite mapGet_mapSet_eq. split.
      * intros (rec & [= <-] & Hh). simpl in Hh. congruence.
      * intros Hh. eexists. split; [reflexivity|]. simpl. congruence.
    + rewrite (loginUser_user _ u p
                 {| AppUsers.passwordHash := hashPassword p;
                    AppUsers.userEmail := e; AppUsers.userRole := r;
                    AppUsers.regDate := now |});
        [reflexivity | apply mapGet_mapSet_eq | reflexivity].
    + unfold AppUsers.getUserStats. simpl. rewrite mapGet_mapSet_eq.
      reflexivity.
    + intros u' Hne. simpl. rewrite !mapGet_mapSet_ne by congruence. auto.
  - rewrite Hfail. split; [split; [discriminate | intros ?; contradiction]|].
    split; [intros _; exact Hsame | discriminate].
Qed.

(** X15: Deleting a user of [src/app.js]: afterwards the login is unknown and
    cannot be opened, whatever the call returned; the call returns
    [true] only when the user also had a statistics entry; an unknown
    login changes nothing; other users are untouched. *)
Theorem X15_deletion (um : AppUsers.UserManager) (u : jsstring) :
  ((AppUsers.deleteUser um u).1 = true
   ↔ mapHas (AppUsers.users um) u = true
     ∧ mapHas (AppUsers.userStats um) u = true)
  ∧ mapGet (AppUsers.users (AppUsers.deleteUser um u).2) u = None
  ∧ (∀ p, AppUsers.success
            (AppUsers.loginUser hashPassword (AppUsers.deleteUser um u).2 u p).1
          = false)
  ∧ (mapHas (AppUsers.users um) u = true →
     AppUsers.getUserStats (AppUsers.deleteUser um u).2 u = AppUsers.noStats)
  ∧ (mapHas (AppUsers.users um) u = false → (AppUsers.deleteUser um u).2 = um)
  ∧ (∀ u', u' ≠ u →
       mapGet (AppUsers.users (AppUsers.deleteUser um u).2) u'
       = mapGet (AppUsers.users um) u'
       ∧ mapGet (AppUsers.userStats (AppUsers.deleteUser um u).2) u'
         = mapGet (AppUsers.userStats um) u')
  ∧ (properRegistry um → properRegistry (AppUsers.deleteUser um u).2).
Proof.
  assert (Hgone : mapGet (AppUsers.users (AppUsers.deleteUser um u).2) u = None).
  { unfold AppUsers.deleteUser.
    destruct (mapHas (AppUsers.users um) u) eqn:Hh; simpl.
    - apply mapGet_mapDelete_eq.
    - unfold mapHas in Hh. destruct (mapGet (AppUsers.users um) u);
        [discriminate | reflexivity]. }
  split; [|split; [exact Hgone|split; [|split; [|split; [|split]]]]].
  - unfold AppUsers.deleteUser.
    destruct (mapHas (AppUsers.users um) u); simpl;
      [tauto | split; [discriminate | intros [? _]; discriminate]].
  - intros p. apply not_true_iff_false. rewrite loginUser_success.
    intros (rec & Hrec & _). congruence.
  - intros Hh. unfold AppUsers.deleteUser, AppUsers.getUserStats.
    rewrite Hh. simpl. rewrite mapGet_mapDelete_eq. reflexivity.
  - intros Hh. unfold AppUsers.deleteUser. rewrite Hh. reflexivity.
  - intros u' Hne. unfold AppUsers.deleteUser.
    destruct (mapHas (AppUsers.users um) u); simpl; [|auto].
    rewrite !mapGet_mapDelete_ne by congruence. auto.
  - intros (Hu & Hs). unfold AppUsers.deleteUser.
    destruct (mapHas (AppUsers.users um) u); simpl; [|split; assumption].
    split; simpl; apply mapKeys_mapDelete_NoDup; assumption.
Qed.

Lemma updateUserStats_stats (um : AppUsers.UserManager) (u : jsstring) (s : Z)
    (win : bool) (word cat : jsstring) :
  let before := AppUsers.getUserStats um u in
  let after :=
    AppUsers.getUserStats (AppUsers.updateUserStats um u s win word cat) u in
  AppUsers.gamesPlayed after = AppUsers.gamesPlayed before + 1
  ∧ AppUsers.totalScore after = AppUsers.totalScore before + s
  ∧ AppUsers.wins after
    = AppUsers.wins before + (if win then 1 else 0)
  ∧ AppUsers.bestScore after = Z.max (AppUsers.bestScore before) s.
Proof.
  unfold AppUsers.getUserStats, AppUsers.updateUserStats. simpl.
  rewrite mapGet_mapSet_eq. simpl. repeat split.
  - destruct win; lia.
  - rewrite Z.gtb_ltb.
    destruct (Z.ltb_spec (AppUsers.bestScore
                            (default AppUsers.noStats
                               (mapGet (AppUsers.userStats um) u))) s); lia.
Qed.

Lemma updateUserStats_frame (um : AppUsers.UserManager) (u : jsstring) (s : Z)
    (win : bool) (word cat : jsstring) :
  AppUsers.users (AppUsers.updateUserStats um u s win word cat)
  = AppUsers.users um
  ∧ AppUsers.currentSession (AppUsers.updateUserStats um u s win word cat)
    = AppUsers.currentSession um
  ∧ ∀ u', u' ≠ u →
      AppUsers.getUserStats (AppUsers.updateUserStats um u s win word cat) u'
      = AppUsers.getUserStats um u'.
Proof.
  unfold AppUsers.updateUserStats, AppUsers.getUserStats. simpl.
  repeat split. intros u' Hne. rewrite mapGet_mapSet_ne by congruence.
  reflexivity.
Qed.

Lemma foldr_max_acc (l : list Z) (b s : Z) :
  foldr Z.max (Z.max b s) l = Z.max s (foldr Z.max b l).
Proof.
  induction l as [|x l IH]; cbn [foldr]; [lia|]. rewrite IH. lia.
Qed.

(** X16: The statistics add up: after the games [rs] of a user have been
    recorded, the number of games has grown by their number, the total
    score by the sum of their scores, the wins by the number of games
    won, and the best score is the largest of the old best score and
    the new scores; the other users' statistics and the user records are
    as before. *)
Theorem X16_statistics_add_up (um : AppUsers.UserManager) (u : jsstring)
    (rs : list (Z * bool)) (word cat : jsstring) :
  let before := AppUsers.getUserStats um u in
  let after := AppUsers.getUserStats (recordGames um u rs word cat) u in
  AppUsers.gamesPlayed after
  = AppUsers.gamesPlayed before + Z.of_nat (length rs)
  ∧ AppUsers.totalScore after
    = AppUsers.totalScore before + foldr Z.add 0 rs.*1
  ∧ AppUsers.wins after
    = AppUsers.wins before + Z.of_nat (length (List.filter snd rs))
  ∧ AppUsers.bestScore after
    = foldr Z.max (AppUsers.bestScore before) rs.*1
  ∧ AppUsers.users (recordGames um u rs word cat) = AppUsers.users um
  ∧ ∀ u', u' ≠ u →
      AppUsers.getUserStats (recordGames um u rs word cat) u'
      = AppUsers.getUserStats um u'.
Proof.
  revert um. induction rs as [|[s win] rs IH]; intros um.
  - simpl. repeat split; try lia; intros; reflexivity.
  - cbn [recordGames fold_left fst snd].
    fold (recordGames (AppUsers.updateUserStats um u s win word cat) u rs
            word cat).
    destruct (IH (AppUsers.updateUserStats um u s win word cat))
      as (Hg & Ht & Hw & Hb & Hu & Ho).
    destruct (updateUserStats_stats um u s win word cat)
      as (Hg1 & Ht1 & Hw1 & Hb1).
    destruct (updateUserStats_frame um u s win word cat) as (Hu1 & _ & Ho1).
    cbv zeta in *. rewrite Hg, Ht, Hw, Hb, Hu, Hg1, Ht1, Hw1, Hb1, Hu1.
    rewrite fmap_cons. cbn [foldr fst length List.filter snd].
    repeat split.
    + lia.
    + lia.
    + destruct win; simpl; lia.
    + apply foldr_max_acc.
    + intros u' Hne. rewrite (Ho u' Hne). apply Ho1, Hne.
Qed.

Lemma fold_mapSet_NoDup {V W} (f : W → V) (l : list (jsstring * W))
    (acc : JsMap V) :
  NoDup (mapKeys acc) →
  NoDup (mapKeys (fold_left (λ m kw, mapSet m kw.1 (f kw.2)) l acc)).
Proof.
  revert acc. induction l as [|[k w] l IH]; intros acc Hacc; simpl;
    [exact Hacc|].
  apply IH, mapKeys_mapSet_NoDup, Hacc.
Qed.

Lemma newMap_nil {V} (l : list (jsstring * V)) : newMap l = [] ↔ l = [].
Proof.
  split; [|intros ->; reflexivity].
  destruct l as [|[k v] l]; [reflexivity|]. unfold newMap. simpl.
  assert (Hgen : ∀ acc : JsMap V, acc ≠ [] →
            fold_left (λ m kv, mapSet m kv.1 kv.2) l acc ≠ []).
  { induction l as [|[k' v'] l IH]; intros acc Hacc; simpl; [exact Hacc|].
    apply IH. destruct acc as [|[k0 v0] acc]; [congruence|]. simpl.
    destruct (decide (k' = k0)); discriminate. }
  intros Hnil. exfalso. apply (Hgen [(k, v)]); [discriminate | exact Hnil].
Qed.

Lemma length_zero {A} (l : list A) : (length l =? 0)%nat = true ↔ l = [].
Proof. destruct l; simpl; split; (reflexivity || discriminate). Qed.

(** X17: The registry that the constructor of [UserManager] leaves:
    its maps hold each key once, the static session is as it was, and
    the registry is never without users — when [users.json] is missing,
    unreadable or lists no user, there are exactly the two default
    users, who can log in with their default passwords, [admin] as an
    administrator; a file that lists users is taken as it is and adds
    no default. *)
Theorem X17_registry_after_construction (session : option User)
    (file : option AppUsers.UsersFile) (now1 now2 : jsstring) :
  let um := AppUsers.loadUsers hashPassword session file now1 now2 in
  properRegistry um
  ∧ AppUsers.users um ≠ []
  ∧ AppUsers.currentSession um = session
  ∧ (default [] (file ≫= AppUsers.f_users) = [] →
     mapKeys (AppUsers.users um) = [js "admin"; js "user"]
     ∧ AppUsers.user
         (AppUsers.loginUser hashPassword um (js "admin") (js "admin123")).1
       = Some {| username := js "admin"; role := js "admin";
                 email := js "admin@system.com" |}
     ∧ AppUsers.user
         (AppUsers.loginUser hashPassword um (js "user") (js "user123")).1
       = Some {| username := js "user"; role := js "user";
                 email := js "user@example.com" |})
  ∧ (default [] (file ≫= AppUsers.f_users) ≠ [] →
     AppUsers.users um = newMap (default [] (file ≫= AppUsers.f_users))).
Proof.
  cbv zeta. unfold AppUsers.loadUsers.
  set (um0 := match file with
              | Some data => _
              | None => _
              end).
  assert (Hum0 : AppUsers.users um0
                 = newMap (default [] (file ≫= AppUsers.f_users))
                 ∧ properRegistry um0
                 ∧ AppUsers.currentSession um0 = session).
  { unfold um0. destruct file as [data|]; simpl.
    - split; [reflexivity|]. split; [|reflexivity]. split; simpl.
      + apply newMap_NoDup.
      + apply (fold_mapSet_NoDup AppUsers.loadedStats). constructor.
    - split; [reflexivity|]. split; [|reflexivity]. split; constructor. }
  destruct Hum0 as (Husers & Hproper & Hsession). clearbody um0.
  destruct (length (AppUsers.users um0) =? 0)%nat eqn:Hlen.
  - apply length_zero in Hlen.
    assert (Hempty : default [] (file ≫= AppUsers.f_users) = []).
    { apply newMap_nil. rewrite <- Husers. exact Hlen. }
    destruct (registerUser_cases um0 now1 (js "admin") (js "admin123")
                (js "admin@system.com") (js "admin"))
      as [(_ & _ & _ & Heq1)|(Hnot & _)].
    2: { exfalso. apply Hnot. rewrite Hlen. repeat split; reflexivity. }
    pose proof (registerUser_proper um0 now1 (js "admin") (js "admin123")
                  (js "admin@system.com") (js "admin") Hproper) as Hp1.
    rewrite Heq1 in Hp1 |- *. cbn [snd] in Hp1 |- *.
    set (um1 := {| AppUsers.users := mapSet (AppUsers.users um0) _ _;
                   AppUsers.userStats := _; AppUsers.currentSession := _ |})
      in *.
    assert (Hk1 : AppUsers.users um1
                  = [(js "admin",
                      {| AppUsers.passwordHash := hashPassword (js "admin123");
                         AppUsers.userEmail := js "admin@system.com";
                         AppUsers.userRole := js "admin";
                         AppUsers.regDate := now1 |})]).
    { unfold um1. cbn [AppUsers.users]. rewrite Hlen. reflexivity. }
    assert (Hs1 : AppUsers.currentSession um1 = session) by exact Hsession.
    clearbody um1.
    destruct (registerUser_cases um1 now2 (js "user") (js "user123")
                (js "user@example.com") (js "user"))
      as [(_ & _ & _ & Heq2)|(Hnot & _)].
    2: { exfalso. apply Hnot. split; [|split; reflexivity].
         rewrite Hk1. vm_compute. reflexivity. }
    pose proof (registerUser_proper um1 now2 (js "user") (js "user123")
                  (js "user@example.com") (js "user") Hp1) as Hp2.
    rewrite Heq2 in Hp2 |- *. cbn [snd] in Hp2 |- *.
    split; [exact Hp2|]. cbn [AppUsers.users AppUsers.currentSession].
    rewrite Hk1.
    split; [vm_compute; discriminate|].
    split; [exact Hs1|]. split; [|intros Hne; contradiction].
    intros _. split; [vm_compute; reflexivity|]. split.
    + rewrite (loginUser_user _ (js "admin") (js "admin123")
                 {| AppUsers.passwordHash := hashPassword (js "admin123");
                    AppUsers.userEmail := js "admin@system.com";
                    AppUsers.userRole := js "admin";
                    AppUsers.regDate := now1 |});
        [reflexivity | |reflexivity].
      cbn [AppUsers.users]. vm_compute. reflexivity.
    + rewrite (loginUser_user _ (js "user") (js "user123")
                 {| AppUsers.passwordHash := hashPassword (js "user123");
                    AppUsers.userEmail := js "user@example.com";
                    AppUsers.userRole := js "user";
                    AppUsers.regDate := now2 |});
        [reflexivity | |reflexivity].
      cbn [AppUsers.users]. vm_compute. reflexivity.
  - split; [exact Hproper|]. split; [|split; [exact Hsession|split]].
    + intros Hnil. rewrite Hnil in Hlen. discriminate.
    + intros Hnil. exfalso.
      assert (Hn : AppUsers.users um0 = [])
        by (rewrite Husers; apply newMap_nil, Hnil).
      rewrite Hn in Hlen. discriminate.
    + intros _. exact Husers.
Qed.

(** X18: What [saveUsers] writes, the constructor reads back: a
    registry with users is restored with the same users and statistics,
    in the same order; the session is that of the reading program. The
    object written is taken to come back from [users.json] as it was
    written. *)
Theorem X18_users_file_round_trip (um : AppUsers.UserManager)
    (session : option User) (now1 now2 : jsstring) :
  properRegistry um → AppUsers.users um ≠ [] →
  AppUsers.loadUsers hashPassword session (Some (AppUsers.saveUsers um))
    now1 now2
  = {| AppUsers.users := AppUsers.users um;
       AppUsers.userStats := AppUsers.userStats um;
       AppUsers.currentSession := session |}.
Proof.
  intros (Hu & Hs) Hne. unfold AppUsers.loadUsers, AppUsers.saveUsers.
  cbn [AppUsers.f_users AppUsers.f_userStats from_option id AppUsers.users].
  rewrite (newMap_entries _ Hu).
  destruct (length (AppUsers.users um) =? 0)%nat eqn:Hlen;
    [apply length_zero in Hlen; contradiction|].
  f_equal.
  rewrite (fold_mapSet_entries AppUsers.loadedStats _ []).
  - simpl. rewrite <- list_fmap_compose. clear Hs.
    induction (AppUsers.userStats um) as [|[k [gp ts w b wu c]] l IH];
      [reflexivity|].
    rewrite fmap_cons, IH. reflexivity.
  - simpl. rewrite <- list_fmap_compose. exact Hs.
Qed.

End Registry.

(** * Menu actions of [src/app.js] *)
Section Menus.
Context (hashPassword : jsstring → jsstring).

Lemma mapHas_false {V} (m : JsMap V) (k : jsstring) :
  mapHas m k = false ↔ mapGet m k = None.
Proof. unfold mapHas. destruct (mapGet m k); split; congruence. Qed.

(** X19: Deleting users from the menu of [src/app.js] needs an administrator:
    without a logged-in user, or with one whose role is not ['admin'],
    the registry stays as it is; the account of the logged-in user is
    never deleted; an administrator who names another login deletes
    exactly that one. *)
Theorem X19_deleting_users_needs_admin (g : WordGame)
    (um : AppUsers.UserManager) (u : jsstring) :
  ((∀ cu, currentUser g = Some cu → role cu ≠ js "admin") →
   AppMenu.manageUsersDelete g um u = um)
  ∧ (∀ cu, currentUser g = Some cu →
       mapGet (AppUsers.users (AppMenu.manageUsersDelete g um u)) (username cu)
       = mapGet (AppUsers.users um) (username cu)
       ∧ mapGet (AppUsers.userStats (AppMenu.manageUsersDelete g um u))
           (username cu)
         = mapGet (AppUsers.userStats um) (username cu))
  ∧ (∀ cu, currentUser g = Some cu → role cu = js "admin" →
       u ≠ username cu →
       mapGet (AppUsers.users (AppMenu.manageUsersDelete g um u)) u = None
       ∧ ∀ v, v ≠ u →
           mapGet (AppUsers.users (AppMenu.manageUsersDelete g um u)) v
           = mapGet (AppUsers.users um) v).
Proof.
  unfold AppMenu.manageUsersDelete.
  destruct (currentUser g) as [cu|]; [|repeat split; intros; discriminate].
  assert (Hdel : ∀ v, v ≠ u →
            mapGet (AppUsers.users (AppUsers.deleteUser um u).2) v
            = mapGet (AppUsers.users um) v
            ∧ mapGet (AppUsers.userStats (AppUsers.deleteUser um u).2) v
              = mapGet (AppUsers.userStats um) v).
  { intros v Hne. unfold AppUsers.deleteUser.
    destruct (mapHas (AppUsers.users um) u); simpl; [|auto].
    rewrite !mapGet_mapDelete_ne by congruence. auto. }
  assert (Hgone : mapGet (AppUsers.users (AppUsers.deleteUser um u).2) u = None).
  { unfold AppUsers.deleteUser.
    destruct (mapHas (AppUsers.users um) u) eqn:Hh; simpl.
    - apply mapGet_mapDelete_eq.
    - apply mapHas_false, Hh. }
  split; [|split].
  - intros Hrole. specialize (Hrole cu eq_refl).
    rewrite bool_decide_eq_true_2 by exact Hrole. reflexivity.
  - intros cu' [= <-]. case_bool_decide; [auto|].
    case_bool_decide as Hu; [|auto]. apply Hdel. congruence.
  - intros cu' [= <-] Hrole Hu.
    rewrite bool_decide_eq_false_2 by (intros Hn; contradiction).
    rewrite bool_decide_eq_true_2 by exact Hu.
    split; [exact Hgone|]. intros v Hv. apply Hdel, Hv.
Qed.

Lemma register_cases (g : WordGame) (um : AppUsers.UserManager)
    (now u p cp e : jsstring) :
  (p = cp ∧ mapHas (AppUsers.users um) u = false
   ∧ AppUsers.validateUsername u = true ∧ AppUsers.validatePassword p = true
   ∧ AppMenu.register hashPassword g um now u p cp e
     = (AppMenu.setCurrentUser g
          (Some {| username := u; role := js "user"; email := e |}),
        {| AppUsers.users :=
             mapSet (AppUsers.users um) u
               {| AppUsers.passwordHash := hashPassword p;
                  AppUsers.userEmail := e; AppUsers.userRole := js "user";
                  AppUsers.regDate := now |};
           AppUsers.userStats :=
             mapSet (AppUsers.userStats um) u AppUsers.noStats;
           AppUsers.currentSession :=
             Some {| username := u; role := js "user"; email := e |} |}))
  ∨ (¬ (p = cp ∧ mapHas (AppUsers.users um) u = false
        ∧ AppUsers.validateUsername u = true
        ∧ AppUsers.validatePassword p = true)
     ∧ AppMenu.register hashPassword g um now u p cp e = (g, um)).
Proof.
  unfold AppMenu.register. case_bool_decide as Hp.
  - right. split; [|reflexivity]. intros (Heq & _). contradiction.
  - assert (p = cp) as Heq by (destruct (decide (p = cp)); tauto).
    destruct (registerUser_cases hashPassword um now u p e (js "user"))
      as [(Hnew & Hvu & Hvp & Hreg)|(Hnot & Hfail & Hsame)].
    + left. rewrite Hreg. cbn [fst snd AppUsers.success].
      rewrite (loginUser_user hashPassword _ u p
                 {| AppUsers.passwordHash := hashPassword p;
                    AppUsers.userEmail := e; AppUsers.userRole := js "user";
                    AppUsers.regDate := now |});
        [|apply mapGet_mapSet_eq|reflexivity].
      repeat split; assumption.
    + right. split; [tauto|]. rewrite Hfail, Hsame. reflexivity.
Qed.

(** X20: Registration from the menu of [src/app.js]: when the two passwords
    differ, the login is taken or login or password fail their checks,
    nothing changes; otherwise the new user is logged in with the role
    ['user']. No existing account is overwritten, and the menu never
    creates or changes an administrator. *)
Theorem X20_menu_registration (g : WordGame) (um : AppUsers.UserManager)
    (now u p cp e : jsstring) :
  (¬ (p = cp ∧ mapHas (AppUsers.users um) u = false
      ∧ AppUsers.validateUsername u = true
      ∧ AppUsers.validatePassword p = true) →
   AppMenu.register hashPassword g um now u p cp e = (g, um))
  ∧ (p = cp → mapHas (AppUsers.users um) u = false →
     AppUsers.validateUsername u = true → AppUsers.validatePassword p = true →
     currentUser (AppMenu.register hashPassword g um now u p cp e).1
     = Some {| username := u; role := js "user"; email := e |}
     ∧ AppUsers.currentSession
         (AppMenu.register hashPassword g um now u p cp e).2
       = Some {| username := u; role := js "user"; email := e |}
     ∧ AppUsers.success
         (AppUsers.loginUser hashPassword
            (AppMenu.register hashPassword g um now u p cp e).2 u p).1 = true)
  ∧ (∀ v rec, mapGet (AppUsers.users um) v = Some rec →
       mapGet (AppUsers.users
                 (AppMenu.register hashPassword g um now u p cp e).2) v
       = Some rec)
  ∧ (∀ v rec,
       mapGet (AppUsers.users
                 (AppMenu.register hashPassword g um now u p cp e).2) v
       = Some rec →
       AppUsers.userRole rec = js "admin" →
       mapGet (AppUsers.users um) v = Some rec).
Proof.
  destruct (register_cases g um now u p cp e)
    as [(Heq & Hnew & Hvu & Hvp & Hreg)|(Hnot & Hsame)].
  - rewrite Hreg. cbn [fst snd AppUsers.users AppUsers.currentSession].
    split; [tauto|]. apply mapHas_false in Hnew. split; [|split].
    + intros _ _ _ _. split; [reflexivity|]. split; [reflexivity|].
      apply loginUser_success. eexists. cbn [AppUsers.users].
      split; [apply mapGet_mapSet_eq | reflexivity].
    + intros v rec Hv. destruct (decide (v = u)) as [->|Hne]; [congruence|].
      rewrite mapGet_mapSet_ne by congruence. exact Hv.
    + intros v rec Hv Hadmin. destruct (decide (v = u)) as [->|Hne].
      * rewrite mapGet_mapSet_eq in Hv. injection Hv as <-.
        simpl in Hadmin. discriminate.
      * rewrite mapGet_mapSet_ne in Hv by congruence. exact Hv.
  - rewrite Hsame. simpl. split; [reflexivity|].
    split; [tauto|]. split; auto.
Qed.

Lemma mapHas_keys {V W} (m : JsMap V) (m' : JsMap W) (k : jsstring) :
  mapKeys m = mapKeys m' → mapHas m k = mapHas m' k.
Proof.
  intros Hk. destruct (mapHas m' k) eqn:Hm'.
  - apply mapHas_true. rewrite Hk. apply mapHas_true, Hm'.
  - apply not_true_iff_false. rewrite mapHas_true, Hk, <- mapHas_true.
    congruence.
Qed.

(** X24: Registration in [src/unnamed/part_000] succeeds exactly for a new
    login with a password of four code units or more, whatever the
    login is, and then the login opens with that password. It accepts
    whatever [src/app.js] accepts: on registries with the same logins,
    a registration that succeeds in [src/app.js] succeeds there as well
    and leaves the same logins. *)
Theorem X24_part000_registers_more (umA : AppUsers.UserManager)
    (umP : Part000Users.UserManager) (now u p e r : jsstring) :
  (Part000Users.success
     (Part000Users.registerUser hashPassword umP now u p e r).1 = true
   ↔ mapHas (Part000Users.users umP) u = false ∧ (4 ≤ length p)%nat)
  ∧ (Part000Users.success
       (Part000Users.registerUser hashPassword umP now u p e r).1 = true →
     Part000Users.user
       (Part000Users.loginUser hashPassword
          (Part000Users.registerUser hashPassword umP now u p e r).2 u p)
     = Some {| username := u; role := r; email := e |})
  ∧ (Part000Users.success
       (Part000Users.registerUser hashPassword umP now u p e r).1 = false →
     (Part000Users.registerUser hashPassword umP now u p e r).2 = umP)
  ∧ (mapKeys (AppUsers.users umA) = mapKeys (Part000Users.users umP) →
     AppUsers.success (AppUsers.registerUser hashPassword umA now u p e r).1
     = true →
     Part000Users.success
       (Part000Users.registerUser hashPassword umP now u p e r).1 = true
     ∧ mapKeys (AppUsers.users
                  (AppUsers.registerUser hashPassword umA now u p e r).2)
       = mapKeys (Part000Users.users
                    (Part000Users.registerUser hashPassword umP now u p e r).2)).
Proof.
  assert (Hcases :
    (mapHas (Part000Users.users umP) u = false ∧ (4 ≤ length p)%nat
     ∧ Part000Users.registerUser hashPassword umP now u p e r
       = ({| Part000Users.success := true;
             Part000Users.message := js "✅ Регистрация успешна!";
             Part000Users.user := None |},
          {| Part000Users.users :=
               mapSet (Part000Users.users umP) u
                 {| Part000Users.passwordHash := hashPassword p;
                    Part000Users.userEmail := e;
                    Part000Users.userRole := r;
                    Part000Users.registrationDate := now |};
             Part000Users.userStats :=
               mapSet (Part000Users.userStats umP) u Part000Users.noStats |}))
    ∨ (¬ (mapHas (Part000Users.users umP) u = false ∧ (4 ≤ length p)%nat)
       ∧ Part000Users.success
           (Part000Users.registerUser hashPassword umP now u p e r).1 = false
       ∧ (Part000Users.registerUser hashPassword umP now u p e r).2 = umP)).
  { unfold Part000Users.registerUser.
    destruct (mapHas (Part000Users.users umP) u);
      [right; simpl; intuition congruence|].
    destruct (Nat.ltb_spec (length p) 4); [right; simpl; intuition lia|].
    left. auto. }
  split; [|split; [|split]].
  - destruct Hcases as [(Hnew & Hlen & ->)|(Hnot & -> & _)]; simpl;
      [tauto | split; [discriminate | tauto]].
  - destruct Hcases as [(Hnew & Hlen & ->)|(Hnot & -> & _)];
      [|discriminate].
    intros _. cbn [snd]. unfold Part000Users.loginUser.
    cbn [Part000Users.users]. rewrite mapGet_mapSet_eq.
    cbn [Part000Users.passwordHash Part000Users.userRole
         Part000Users.userEmail].
    rewrite bool_decide_eq_false_2 by (intros Hn; contradiction).
    reflexivity.
  - destruct Hcases as [(Hnew & Hlen & ->)|(Hnot & _ & Hsame)];
      [discriminate | intros _; exact Hsame].
  - intros Hkeys Hok.
    destruct (registerUser_cases hashPassword umA now u p e r)
      as [(HnewA & _ & Hvp & HregA)|(_ & Hfail & _)]; [|congruence].
    assert (HnewP : mapHas (Part000Users.users umP) u = false)
      by (rewrite <- (mapHas_keys _ _ u Hkeys); exact HnewA).
    assert (Hlen : (4 ≤ length p)%nat).
    { unfold AppUsers.validatePassword in Hvp.
      apply andb_true_iff in Hvp as [_ Hvp]. apply Nat.leb_le, Hvp. }
    destruct Hcases as [(_ & _ & HregP)|(Hnot & _)]; [|tauto].
    rewrite HregA, HregP. cbn [fst snd Part000Users.success AppUsers.users
                               Part000Users.users].
    split; [reflexivity|].
    rewrite !mapKeys_mapSet, HnewA, HnewP, Hkeys. reflexivity.
Qed.

End Menus.

(** * Managing the players *)

Lemma lookup_delete_list {A} (l : list A) (i j : nat) :
  delete i l !! j = if decide (j < i)%nat then l !! j else l !! S j.
Proof.
  revert i j. induction l as [|x l IH]; intros i j.
  - destruct i, (decide (j < _)%nat); reflexivity.
  - destruct i as [|i], j as [|j]; simpl.
    + reflexivity.
    + reflexivity.
    + destruct (decide (0 < S i)%nat); [reflexivity | lia].
    + rewrite IH. destruct (decide (j < i)%nat), (decide (S j < S i)%nat);
        (reflexivity || lia).
Qed.

(** X21: Removing a player: the two files do the same. A number between 1
    and the number of players removes that player — the players before
    keep their place and those after move up by one; any other answer,
    or none that [parseInt] can read, changes nothing. *)
Theorem X21_remove_player (g : WordGame) (number : option Z) :
  AppMenu.removePlayer g number = Part000Menu.removePlayer g number
  ∧ (∀ z, number = Some z → 1 ≤ z ≤ Z.of_nat (length (players g)) →
       length (players (AppMenu.removePlayer g number))
       = (length (players g) - 1)%nat
       ∧ ∀ j, players (AppMenu.removePlayer g number) !! j
              = if decide (Z.of_nat j < z - 1) then players g !! j
                else players g !! S j)
  ∧ ((number = None
      ∨ ∃ z, number = Some z ∧ ¬ (1 ≤ z ≤ Z.of_nat (length (players g)))) →
     AppMenu.removePlayer g number = g).
Proof.
  unfold AppMenu.removePlayer, Part000Menu.removePlayer.
  destruct (Nat.ltb_spec 0 (length (players g))) as [Hpos|Hzero].
  - destruct number as [z|].
    + destruct (Z.leb_spec 0 (z - 1)) as [Hlo|Hlo]; simpl.
      * destruct (Z.ltb_spec (z - 1) (Z.of_nat (length (players g))))
          as [Hhi|Hhi].
        -- destruct (lookup_lt_is_Some_2 (players g) (Z.to_nat (z - 1)))
             as [p Hp]; [lia|].
           rewrite Hp. split; [reflexivity|]. split.
           ++ intros z' [= <-] _. cbn [AppMenu.setPlayers players]. split.
              ** rewrite length_delete by eauto. reflexivity.
              ** intros j. rewrite lookup_delete_list.
                 destruct (decide (j < Z.to_nat (z - 1))%nat),
                   (decide (Z.of_nat j < z - 1)); (reflexivity || lia).
           ++ intros [Hn|(z' & [= <-] & Hz)]; [discriminate | lia].
        -- rewrite (proj2 (lookup_ge_None (players g) (Z.to_nat (z - 1))))
             by lia.
           split; [reflexivity|]. split; [|reflexivity].
           intros z' [= <-] Hz. lia.
      * split; [reflexivity|]. split; [|reflexivity].
        intros z' [= <-] Hz. lia.
    + split; [reflexivity|]. split; [discriminate | reflexivity].
  - split; [reflexivity|]. split; [|reflexivity].
    intros z _ Hz. lia.
Qed.

(** X22: The game statistics report names the announced winner: with
    players, its best player has the name and the score of the player
    [#showWinner] announces, who has the highest score and, among
    players with that score, comes last in the list; without players it
    is the placeholder. *)
Theorem X22_report_names_the_winner (g : WordGame) :
  (players g = [] → AppMenu.topPlayer g = (js "нет", 0))
  ∧ (players g ≠ [] →
     ∃ i w, showWinner (players g) = Some w
            ∧ AppMenu.topPlayer g = (name w, score w)
            ∧ lastMaxAt score (players g) i w).
Proof.
  split.
  - unfold AppMenu.topPlayer. intros ->. reflexivity.
  - intros Hne. destruct (showWinner_last_best _ Hne) as (i & w & Hw & Hmax).
    exists i, w. split; [exact Hw|]. split; [|exact Hmax].
    unfold AppMenu.topPlayer, showWinner in *.
    destruct (players g) as [|p0 rest]; [discriminate|].
    injection Hw as <-. cbn [fold_left].
    rewrite Z.gtb_ltb, Z.ltb_irrefl. reflexivity.
Qed.

(** * A finished game in the statistics *)
Section Recorded.
Context `{!CaseFold}.

Lemma identityOf_pair (ps : list Player) (a b : Player) :
  identityOf <$> ps = [identityOf a; identityOf b] →
  ∃ h c, ps = [h; c] ∧ variant h = variant a ∧ variant c = variant b
         ∧ name h = name a ∧ name c = name b.
Proof.
  destruct ps as [|h [|c [|x ps]]]; try discriminate.
  unfold identityOf. simpl. intros [= Hn1 Hi1 Hv1 Hn2 Hi2 Hv2].
  exists h, c. auto.
Qed.

(** X23: A game of [src/app.js] between the logged-in user and the computer
    is recorded once, when it is over: after ten turns at the latest the
    user has one more game, the final score added to the total, the best
    score raised to it if it is higher, and one more win exactly when
    the user is the announced winner, which is when the user's score is
    strictly higher than the computer's. Nothing else in the registry
    changes. *)
Theorem X23_finished_game_is_recorded (g gA : WordGame)
    (um : AppUsers.UserManager) (cu : User) (cc dc : option Z)
    (n rid1 rid2 : jsstring) (es : list Turn) :
  players g = [] → currentUser g = Some cu → username cu ≠ [] →
  App.startNewGame g cc dc n rid1 rid2 = Some gA →
  (10 ≤ length es)%nat →
  ∃ l w h c um',
    AppMenu.playGame gA um es = Some (l, um')
    ∧ App.announced l = Some w
    ∧ players (App.game l) = [h; c]
    ∧ usernameOf h = Some (username cu)
    ∧ isComputer c = true
    ∧ AppUsers.gamesPlayed (AppUsers.getUserStats um' (username cu))
      = AppUsers.gamesPlayed (AppUsers.getUserStats um (username cu)) + 1
    ∧ AppUsers.totalScore (AppUsers.getUserStats um' (username cu))
      = AppUsers.totalScore (AppUsers.getUserStats um (username cu)) + score h
    ∧ AppUsers.bestScore (AppUsers.getUserStats um' (username cu))
      = Z.max (AppUsers.bestScore (AppUsers.getUserStats um (username cu)))
          (score h)
    ∧ ((w = h
        ∧ AppUsers.wins (AppUsers.getUserStats um' (username cu))
          = AppUsers.wins (AppUsers.getUserStats um (username cu)) + 1)
       ∨ (w = c ∧ w ≠ h
          ∧ AppUsers.wins (AppUsers.getUserStats um' (username cu))
            = AppUsers.wins (AppUsers.getUserStats um (username cu))))
    ∧ (w = h ↔ score c < score h)
    ∧ AppUsers.users um' = AppUsers.users um
    ∧ ∀ u', u' ≠ username cu →
        AppUsers.getUserStats um' u' = AppUsers.getUserStats um u'.
Proof.
  intros Hnil Hcu Hname HA Hlen.
  destruct (App_over_within_ten _ _ _ _ _ _ _ es HA Hlen)
    as (l & w & Hl & _ & Hann & Hwin).
  pose proof (App_run_identity _ _ _ Hl) as Hid.
  unfold App.startNewGame in HA. rewrite Hnil, Hcu in HA. simpl in HA.
  injection HA as <-. cbn [App.enterLoop App.game players] in Hid.
  apply identityOf_pair in Hid as (h & c & Hps & Hvh & Hvc & _).
  simpl in Hvh, Hvc.
  assert (Hh : isHuman h = true) by (unfold isHuman; rewrite Hvh; reflexivity).
  assert (Hc : isComputer c = true)
    by (unfold isComputer; rewrite Hvc; reflexivity).
  assert (Hch : isComputer h = false)
    by (unfold isComputer; rewrite Hvh; reflexivity).
  assert (Hu : usernameOf h = Some (username cu))
    by (unfold usernameOf; rewrite Hvh; reflexivity).
  assert (Hne : h ≠ c) by (intros ->; congruence).
  assert (Hw : w = if score h >? score c then h else c).
  { rewrite Hps in Hwin. simpl in Hwin. congruence. }
  exists l, w, h, c,
    (AppUsers.updateUserStats um (username cu) (score h)
       (score h >? score c) (lastWord (App.game l))
       (currentCategory (App.game l))).
  split.
  { unfold AppMenu.playGame. rewrite Hl. simpl. rewrite Hann.
    unfold AppMenu.updateStats. rewrite Hps. simpl. rewrite Hh, Hch, Hc, Hu.
    simpl. rewrite (proj2 (truthy_true _) Hname). reflexivity. }
  destruct (updateUserStats_stats um (username cu) (score h)
              (score h >? score c) (lastWord (App.game l))
              (currentCategory (App.game l))) as (Hg1 & Ht1 & Hw1 & Hb1).
  destruct (updateUserStats_frame um (username cu) (score h)
              (score h >? score c) (lastWord (App.game l))
              (currentCategory (App.game l))) as (Hu1 & _ & Ho1).
  cbv zeta in *.
  split; [exact Hann|]. split; [exact Hps|]. split; [exact Hu|].
  split; [exact Hc|]. split; [exact Hg1|]. split; [exact Ht1|].
  split; [exact Hb1|].
  rewrite Z.gtb_ltb in *.
  destruct (Z.ltb_spec (score c) (score h)) as [Hlt|Hge]; subst w.
  - split; [left; split; [reflexivity | exact Hw1]|]. split; [tauto|].
    split; [exact Hu1 | exact Ho1].
  - split; [right; split; [reflexivity|split; [congruence|lia]]|].
    split; [split; [congruence | lia]|].
    split; [exact Hu1 | exact Ho1].
Qed.

End Recorded.

(** * Searching the registry *)

Lemma startsWith_spec (s t : jsstring) :
  startsWith s t = true ↔ ∃ b, s = t ++ b.
Proof.
  revert s. induction t as [|c t IH]; intros s.
  - destruct s; simpl; split; eauto.
  - destruct s as [|d s]; simpl.
    + split; [discriminate | intros (b & Hb); discriminate].
    + rewrite andb_true_iff, bool_decide_eq_true, IH. split.
      * intros (-> & b & ->). eauto.
      * intros (b & [= -> ->]). eauto.
Qed.

(** [includes] is the substring test. *)
Lemma includes_spec (s t : jsstring) :
  includes s t = true ↔ ∃ a b, s = a ++ t ++ b.
Proof.
  induction s as [|d s IH]; cbn [includes]; rewrite orb_true_iff.
  - rewrite startsWith_spec. split.
    + intros [(b & Hb)|?]; [exists [], b; exact Hb | discriminate].
    + intros (a & b & Hs). left. destruct a; [eauto | discriminate].
  - rewrite startsWith_spec, IH. split.
    + intros [(b & Hb)|(a & b & ->)]; [exists [], b; exact Hb|].
      exists (d :: a), b. reflexivity.
    + intros ([|d' a] & b & Hs); [left; eauto|].
      right. injection Hs as _ ->. eauto.
Qed.

(** X25: [getAllUsers] of [src/app.js] lists the logins of the registry
    in insertion order, each with role, email and registration date of
    its record and with its statistics; [searchUsers] keeps, in that
    order, exactly the users whose login or email contains the text,
    and with the empty text all of them. *)
Theorem X25_user_search (um : AppUsers.UserManager) (t : jsstring) :
  AppUsers.v_username <$> AppUsers.getAllUsers um = mapKeys (AppUsers.users um)
  ∧ (∀ i v, AppUsers.getAllUsers um !! i = Some v →
       ∃ rec, AppUsers.users um !! i = Some (AppUsers.v_username v, rec)
         ∧ AppUsers.v_role v = AppUsers.userRole rec
         ∧ AppUsers.v_email v = AppUsers.userEmail rec
         ∧ AppUsers.v_registrationDate v = AppUsers.regDate rec
         ∧ AppUsers.v_stats v
           = AppUsers.getUserStats um (AppUsers.v_username v))
  ∧ (∀ v, v ∈ AppUsers.searchUsers um t
          ↔ v ∈ AppUsers.getAllUsers um
            ∧ ((∃ a b, AppUsers.v_username v = a ++ t ++ b)
               ∨ (∃ a b, AppUsers.v_email v = a ++ t ++ b)))
  ∧ sublist (AppUsers.searchUsers um t) (AppUsers.getAllUsers um)
  ∧ AppUsers.searchUsers um [] = AppUsers.getAllUsers um.
Proof.
  split; [|split; [|split; [|split]]].
  - unfold AppUsers.getAllUsers, mapKeys. rewrite <- list_fmap_compose.
    apply list_fmap_ext. intros i [k rec] _. reflexivity.
  - intros i v Hv. unfold AppUsers.getAllUsers in Hv.
    apply list_lookup_fmap_Some_1 in Hv as ([k rec] & -> & Hrec).
    exists rec. simpl. auto.
  - intros v. unfold AppUsers.searchUsers.
    rewrite list_elem_of_In, filter_In, <- list_elem_of_In, orb_true_iff,
      !includes_spec.
    tauto.
  - unfold AppUsers.searchUsers.
    induction (AppUsers.getAllUsers um) as [|v l IH]; [constructor|].
    cbn [List.filter]. destruct (_ || _); constructor; exact IH.
  - unfold AppUsers.searchUsers.
    induction (AppUsers.getAllUsers um) as [|v l IH]; [reflexivity|].
    cbn [List.filter].
    assert (Hv : includes (AppUsers.v_username v) [] = true)
      by (apply includes_spec; exists [], (AppUsers.v_username v); reflexivity).
    rewrite Hv, IH. reflexivity.
Qed.

(** * The statistics block of [src/unnamed/part_000] *)

(** X26: The statistics block that [src/unnamed/part_000] runs at five
    words throws exactly when the first human player has a username and
    there is no second player. With a second player it records one game
    for that username — the score added to the total, the best score
    raised to it if higher, and a win exactly when the human's score is
    strictly higher than the second player's — but only for a login that
    has a statistics entry; without one nothing is recorded. The user
    records and the other statistics are untouched. *)
Theorem X26_part000_statistics_block (g : WordGame)
    (um : Part000Users.UserManager) :
  (Part000Menu.statsUpdate g um = None
   ↔ ∃ h u, List.find isHuman (players g) = Some h
            ∧ usernameOf h = Some u ∧ u ≠ []
            ∧ players g !! 1%nat = None)
  ∧ (is_Some (Part000Menu.statsUpdate g um)
     ↔ is_Some (Part000.statsBlock (players g)))
  ∧ ∀ h second u,
      List.find isHuman (players g) = Some h →
      usernameOf h = Some u → u ≠ [] →
      players g !! 1%nat = Some second →
      ∃ um', Part000Menu.statsUpdate g um = Some um'
        ∧ Part000Users.users um' = Part000Users.users um
        ∧ (mapGet (Part000Users.userStats um) u = None → um' = um)
        ∧ (∀ st, mapGet (Part000Users.userStats um) u = Some st →
             mapGet (Part000Users.userStats um') u
             = Some {| Part000Users.gamesPlayed :=
                         Part000Users.gamesPlayed st + 1;
                       Part000Users.totalScore :=
                         Part000Users.totalScore st + score h;
                       Part000Users.wins :=
                         if score h >? score second
                         then Part000Users.wins st + 1
                         else Part000Users.wins st;
                       Part000Users.bestScore :=
                         Z.max (Part000Users.bestScore st) (score h) |})
        ∧ ∀ u', u' ≠ u →
            mapGet (Part000Users.userStats um') u'
            = mapGet (Part000Users.userStats um) u'.
Proof.
  split; [|split].
  - unfold Part000Menu.statsUpdate.
    destruct (List.find isHuman (players g)) as [h|] eqn:Hh;
      [|split; [discriminate | intros (h & u & Hh' & _); discriminate]].
    split.
    + intros Hnone.
      destruct (usernameOf h) as [u|] eqn:Hu; simpl in Hnone; [|discriminate].
      destruct (truthy u) eqn:Ht; [|discriminate].
      destruct (players g !! 1%nat) eqn:Hs; [discriminate|].
      exists h, u. apply truthy_true in Ht. auto.
    + intros (h' & u & [= <-] & Hu & Hne & Hs). rewrite Hu. simpl.
      rewrite (proj2 (truthy_true u) Hne), Hs. reflexivity.
  - unfold Part000Menu.statsUpdate, Part000.statsBlock.
    destruct (List.find isHuman (players g)) as [h|]; [|split; eauto].
    destruct (truthy (default [] (usernameOf h))); [|split; eauto].
    destruct (players g !! 1%nat) as [second|]; simpl;
      split; intros [x Hx]; (discriminate || eauto).
  - intros h second u Hh Hu Hne Hsecond.
    unfold Part000Menu.statsUpdate. rewrite Hh, Hu. simpl.
    rewrite (proj2 (truthy_true u) Hne), Hsecond. simpl.
    eexists. split; [reflexivity|].
    unfold Part000Users.updateUserStats.
    destruct (mapGet (Part000Users.userStats um) u) as [st|] eqn:Hst.
    + cbn [Part000Users.users Part000Users.userStats].
      split; [reflexivity|]. split; [discriminate|]. split.
      * intros st' [= <-]. rewrite mapGet_mapSet_eq. do 2 f_equal.
        rewrite Z.gtb_ltb.
        destruct (Z.ltb_spec (Part000Users.bestScore st) (score h)); lia.
      * intros u' Hu'. rewrite mapGet_mapSet_ne by congruence. reflexivity.
    + split; [reflexivity|]. split; [reflexivity|].
      split; [discriminate | reflexivity].
Qed.

(** * The further properties on concrete runs *)
Section Runs.
#[local] Existing Instance lowerUnits.

Example afterFirstWord_reached :
  App.gameLoop appGame [types "Амстердам"] = Some afterFirstWord.
Proof. vm_compute. reflexivity. Qed.

Example midGame_next :
  App.turn afterFirstWord (types "") = Some midGame.
Proof. vm_compute. reflexivity. Qed.

Example loneGame_reached :
  (g ← Part000.startNewGame loneStart (Some 1) (js "Ann") (js "id1")
         (js "id2");
   Part000.gameLoop g fourWords) = Some lonePart.
Proof. vm_compute. reflexivity. Qed.

Example defaultRegistry_users :
  mapKeys (AppUsers.users defaultRegistry) = [js "admin"; js "user"]
  ∧ mapKeys (AppUsers.userStats defaultRegistry) = [js "admin"; js "user"].
Proof. split; vm_compute; reflexivity. Qed.

Lemma defaultRegistry_proper : properRegistry defaultRegistry.
Proof.
  destruct defaultRegistry_users as (Hu & Hs). unfold properRegistry.
  rewrite Hu, Hs. split; apply (bool_decide_unpack _); vm_compute; exact I.
Qed.

Lemma X1_used_word_rejected_for_good_witness :
  toLowerCase (js "Амстердам") ∈ usedWords (App.game afterFirstWord)
  ∧ App.gameLoopFrom afterFirstWord [types ""] = Some midGame
  ∧ toLowerCase (js "АМСТЕРДАМ") = toLowerCase (js "Амстердам")
  ∧ App.accepts (App.game midGame) (Some (js "АМСТЕРДАМ")) = false.
Proof.
  assert (H1 : toLowerCase (js "Амстердам")
               ∈ usedWords (App.game afterFirstWord)) by by_run.
  assert (H2 : App.gameLoopFrom afterFirstWord [types ""] = Some midGame)
    by by_run.
  assert (H3 : toLowerCase (js "АМСТЕРДАМ") = toLowerCase (js "Амстердам"))
    by by_run.
  split; [exact H1|]. split; [exact H2|]. split; [exact H3|].
  exact (proj1 X1_used_word_rejected_for_good afterFirstWord midGame [types ""]
           (js "Амстердам") (js "АМСТЕРДАМ") H1 H2 H3).
Defined.

Lemma X2_last_word_is_used_witness :
  lastWord (App.game midGame) ≠ []
  ∧ toLowerCase (lastWord (App.game midGame)) ∈ usedWords (App.game midGame).
Proof.
  assert (Hne : lastWord (App.game midGame) ≠ []) by discriminate.
  split; [exact Hne|].
  exact (proj2 (proj1 (X2_last_word_is_used loggedIn appGame partGame (Some 1)
                         (Some 1) (js "Ann") (js "id1") (js "id2")
                         [types "Амстердам"; types ""]
                         appGame_started partGame_started)
                  midGame midGame_reached) Hne).
Defined.

Lemma X3_chain_rule_witness :
  App.makeMove (appComputer "easy" 0) (types "")
    (moveState (App.game afterFirstWord)) = Some (js "Москва")
  ∧ App.accepts (App.game midGame) (Some (js "Астана")) = true
  ∧ firstUnit (toLowerCase (js "Астана"))
    = lastUnit (toLowerCase (js "Москва")).
Proof.
  assert (H1 : App.makeMove (appComputer "easy" 0) (types "")
                 (moveState (App.game afterFirstWord)) = Some (js "Москва"))
    by by_run.
  assert (H2 : App.accepts (App.game midGame) (Some (js "Астана")) = true)
    by by_run.
  split; [exact H1|]. split; [exact H2|].
  apply (proj1 X3_chain_rule afterFirstWord midGame midGame (types "")
           (appComputer "easy" 0) (js "Москва") (js "Астана"));
    [reflexivity | exact H1 | by_run | exact midGame_next | reflexivity
    | exact H2].
Defined.

Lemma X4_game_over_within_ten_turns_witness :
  (10 ≤ length tenTurns)%nat
  ∧ (∃ l w, App.gameLoop appGame tenTurns = Some l
            ∧ App.running l = false
            ∧ App.announced l = Some w
            ∧ showWinner (players (App.game l)) = Some w)
  ∧ (∀ l, Part000.gameLoop partGame tenTurns = Some l →
          Part000.running l = false)
  ∧ (players loggedIn = [] → is_Some (Part000.gameLoop partGame tenTurns)).
Proof.
  assert (Hlen : (10 ≤ length tenTurns)%nat) by (vm_compute; lia).
  split; [exact Hlen|].
  exact (X4_game_over_within_ten_turns loggedIn appGame partGame (Some 1)
           (Some 1) (js "Ann") (js "id1") (js "id2") tenTurns
           appGame_started partGame_started Hlen).
Defined.

Lemma X5_scores_count_words_witness :
  Z.of_nat (size (usedWords (App.game midGame)))
  ≤ totalScoreOf (players (App.game midGame))
  ≤ 3 * Z.of_nat (size (usedWords (App.game midGame))).
Proof.
  exact (proj1 (X5_scores_count_words loggedIn appGame partGame (Some 1)
                  (Some 1) (js "Ann") (js "id1") (js "id2")
                  [types "Амстердам"; types ""]
                  appGame_started partGame_started)
           midGame midGame_reached).
Defined.

Lemma X6_game_keeps_players_witness :
  identityOf <$> players (App.game midGame) = identityOf <$> players appGame
  ∧ (∀ j p q, players appGame !! j = Some p →
              players (App.game midGame) !! j = Some q → score p ≤ score q)
  ∧ currentCategory (App.game midGame) = currentCategory appGame
  ∧ currentUser (App.game midGame) = currentUser appGame.
Proof.
  exact (proj1 X6_game_keeps_players (App.enterLoop appGame) midGame
           [types "Амстердам"; types ""] midGame_reached).
Defined.

Lemma X7_players_alternate_witness :
  App.running midGame = true
  ∧ App.playerIdx midGame
    = (length [types "Амстердам"; types ""] mod length (players appGame))%nat.
Proof.
  assert (Hrun : App.running midGame = true) by reflexivity.
  split; [exact Hrun|].
  exact (proj1 (X7_players_alternate loggedIn appGame partGame (Some 1) (Some 1)
                  (js "Ann") (js "id1") (js "id2")
                  [types "Амстердам"; types ""]
                  appGame_started partGame_started)
           midGame midGame_reached Hrun).
Defined.

Lemma X8_computer_returns_a_candidate_witness :
  App.ComputerPlayer_makeMove (js "easy") App.initialWordDatabase (types "")
    afterAmsterdam = Some (js "Москва")
  ∧ candidateCondition App.initialWordDatabase afterAmsterdam (js "Москва")
  ∧ (js "easy" = js "easy" →
     App.availableWords App.initialWordDatabase afterAmsterdam !! 0%nat
     = Some (js "Москва")).
Proof.
  assert (H1 : App.ComputerPlayer_makeMove (js "easy") App.initialWordDatabase
                 (types "") afterAmsterdam = Some (js "Москва")) by by_run.
  split; [exact H1|].
  exact (proj1 (X8_computer_returns_a_candidate (js "easy")
                  App.initialWordDatabase (types "") afterAmsterdam
                  (js "Москва")) H1).
Defined.

Lemma X9_computer_move_is_accepted_witness :
  variant (appComputer "easy" 3)
  = ComputerPlayer (js "easy") App.initialWordDatabase
  ∧ App.availableWords App.initialWordDatabase (moveState (App.game midGame))
    = []
  ∧ App.accepts (App.game midGame)
      (App.makeMove (appComputer "easy" 3) (types "")
         (moveState (App.game midGame))) = false.
Proof.
  assert (H1 : App.availableWords App.initialWordDatabase
                 (moveState (App.game midGame)) = []) by by_run.
  split; [reflexivity|]. split; [exact H1|].
  exact (proj2 (proj1 (X9_computer_move_is_accepted (App.game midGame)
                         (appComputer "easy" 3) (types "") (js "easy"))
                  eq_refl) H1).
Defined.

Lemma X10_files_agree_on_human_moves_witness :
  isHuman (ann 0) = true
  ∧ App.makeMove (ann 0) (types "  Амстердам ") (moveState appGame)
    = Part000.makeMove (ann 0) (types "  Амстердам ") (moveState appGame)
  ∧ App.accepts appGame
      (App.makeMove (ann 0) (types "  Амстердам ") (moveState appGame))
    = Part000.accepts appGame
        (Part000.makeMove (ann 0) (types "  Амстердам ") (moveState appGame)).
Proof.
  split; [reflexivity|].
  exact (X10_files_agree_on_human_moves appGame (ann 0) (types "  Амстердам ")
           eq_refl).
Defined.

Lemma X11_fifth_word_of_lone_human_witness :
  size (usedWords (Part000.game lonePart)) = 4%nat
  ∧ Part000.accepts (Part000.game lonePart)
      (Part000.makeMove (ann 4) (types "Адлер")
         (moveState (Part000.game lonePart))) = true
  ∧ Part000.turn lonePart (types "Адлер") = None
  ∧ ∃ l', App.turn loneApp (types "Адлер") = Some l'
          ∧ isGameActive (App.game l') = false
          ∧ size (usedWords (App.game l')) = 5%nat.
Proof.
  assert (H1 : size (usedWords (Part000.game lonePart)) = 4%nat) by by_run.
  assert (H2 : Part000.accepts (Part000.game lonePart)
                 (Part000.makeMove (ann 4) (types "Адлер")
                    (moveState (Part000.game lonePart))) = true) by by_run.
  split; [exact H1|]. split; [exact H2|].
  apply (X11_fifth_word_of_lone_human lonePart loneApp (types "Адлер") (ann 4)
           (js "user"));
    [reflexivity | reflexivity | reflexivity | reflexivity | reflexivity
    | reflexivity | discriminate | exact H1 | exact H2].
Defined.

Lemma X12_snapshot_restores_the_game_witness :
  Forall builtByApp (players loggedIn)
  ∧ App.deserialize (serialize (App.game midGame)) = Some (App.game midGame).
Proof.
  assert (H1 : Forall builtByApp (players loggedIn)) by constructor.
  split; [exact H1|].
  exact (X12_snapshot_restores_the_game loggedIn appGame (Some 1) (Some 1)
           (js "Ann") (js "id1") (js "id2") [types "Амстердам"; types ""]
           midGame H1 appGame_started midGame_reached).
Defined.

Lemma X13_new_game_setup_witness :
  App.startNewGame loggedIn (Some 1) (Some 1) (js "Ann") (js "id1") (js "id2")
  = Some appGame
  ∧ currentCategory appGame ∈ App.CATEGORIES
  ∧ (players loggedIn = [] →
     ∃ u diff, currentUser loggedIn = Some u
       ∧ players appGame = [newHumanPlayer (js "id1") (js "Ann") (email u)
                              (username u);
                            App.newComputerPlayer (js "id2") diff]
       ∧ diff ∈ App.DIFFICULTY_LEVELS
       ∧ (∀ z, Some 1 = Some z → 1 ≤ z ≤ 3 →
               App.DIFFICULTY_LEVELS !! Z.to_nat (z - 1) = Some diff)
       ∧ ((Some 1 = None ∨ ∃ z, Some 1 = Some z ∧ ¬ (1 ≤ z ≤ 3)) →
          diff = js "medium")).
Proof.
  split; [exact appGame_started|].
  destruct (proj2 (X13_new_game_setup loggedIn (Some 1) (Some 1) (js "Ann")
                     (js "id1") (js "id2")) appGame appGame_started)
    as (H1 & _ & _ & _ & H5).
  split; [exact H1 | exact H5].
Defined.

Lemma X14_registration_witness :
  AppUsers.success
    (AppUsers.registerUser plainHash defaultRegistry (js "2024-02-02")
       (js "alice") (js "secret") (js "alice@example.com") (js "user")).1
  = true
  ∧ AppUsers.user
      (AppUsers.loginUser plainHash
         (AppUsers.registerUser plainHash defaultRegistry (js "2024-02-02")
            (js "alice") (js "secret") (js "alice@example.com") (js "user")).2
         (js "alice") (js "secret")).1
    = Some {| username := js "alice"; role := js "user";
              email := js "alice@example.com" |}.
Proof.
  assert (H1 : AppUsers.success
                 (AppUsers.registerUser plainHash defaultRegistry
                    (js "2024-02-02") (js "alice") (js "secret")
                    (js "alice@example.com") (js "user")).1 = true) by by_run.
  split; [exact H1|].
  exact (proj1 (proj2 (proj2 (proj2 (X14_registration plainHash defaultRegistry
                                       (js "2024-02-02") (js "alice")
                                       (js "secret") (js "alice@example.com")
                                       (js "user"))) H1))).
Defined.

Lemma X15_deletion_witness :
  mapHas (AppUsers.users defaultRegistry) (js "user") = true
  ∧ AppUsers.getUserStats (AppUsers.deleteUser defaultRegistry (js "user")).2
      (js "user") = AppUsers.noStats
  ∧ properRegistry (AppUsers.deleteUser defaultRegistry (js "user")).2.
Proof.
  assert (H1 : mapHas (AppUsers.users defaultRegistry) (js "user") = true)
    by by_run.
  split; [exact H1|].
  destruct (X15_deletion plainHash defaultRegistry (js "user"))
    as (_ & _ & _ & H4 & _ & _ & H7).
  split; [exact (H4 H1) | exact (H7 defaultRegistry_proper)].
Defined.

Lemma X17_registry_after_construction_witness :
  default [] (None ≫= AppUsers.f_users) = []
  ∧ mapKeys (AppUsers.users defaultRegistry) = [js "admin"; js "user"]
  ∧ AppUsers.user
      (AppUsers.loginUser plainHash defaultRegistry (js "admin")
         (js "admin123")).1
    = Some {| username := js "admin"; role := js "admin";
              email := js "admin@system.com" |}
  ∧ AppUsers.user
      (AppUsers.loginUser plainHash defaultRegistry (js "user")
         (js "user123")).1
    = Some {| username := js "user"; role := js "user";
              email := js "user@example.com" |}.
Proof.
  split; [reflexivity|].
  destruct (X17_registry_after_construction plainHash None None
              (js "2024-01-01T10:00:00.000Z") (js "2024-01-01T10:00:00.001Z"))
    as (_ & _ & _ & H4 & _).
  exact (H4 eq_refl).
Defined.

Lemma X18_users_file_round_trip_witness :
  properRegistry defaultRegistry
  ∧ AppUsers.users defaultRegistry ≠ []
  ∧ AppUsers.loadUsers plainHash None
      (Some (AppUsers.saveUsers defaultRegistry)) (js "2024-03-03")
      (js "2024-03-04")
    = {| AppUsers.users := AppUsers.users defaultRegistry;
         AppUsers.userStats := AppUsers.userStats defaultRegistry;
         AppUsers.currentSession := None |}.
Proof.
  assert (H2 : AppUsers.users defaultRegistry ≠ [])
    by (vm_compute; discriminate).
  split; [exact defaultRegistry_proper|]. split; [exact H2|].
  exact (X18_users_file_round_trip plainHash defaultRegistry None
           (js "2024-03-03") (js "2024-03-04") defaultRegistry_proper H2).
Defined.

Lemma X19_deleting_users_needs_admin_witness :
  currentUser adminIn = Some adminUser
  ∧ role adminUser = js "admin"
  ∧ js "user" ≠ username adminUser
  ∧ mapGet (AppUsers.users defaultRegistry) (js "user") ≠ None
  ∧ mapGet (AppUsers.users
              (AppMenu.manageUsersDelete adminIn defaultRegistry (js "user")))
      (js "user") = None.
Proof.
  assert (H3 : js "user" ≠ username adminUser) by (vm_compute; discriminate).
  split; [reflexivity|]. split; [reflexivity|]. split; [exact H3|].
  split; [vm_compute; discriminate|].
  exact (proj1 (proj2 (proj2 (X19_deleting_users_needs_admin adminIn
                                defaultRegistry (js "user")))
                  adminUser eq_refl eq_refl H3)).
Defined.

Lemma X20_menu_registration_witness :
  mapHas (AppUsers.users defaultRegistry) (js "alice") = false
  ∧ AppUsers.validateUsername (js "alice") = true
  ∧ AppUsers.validatePassword (js "secret") = true
  ∧ currentUser
      (AppMenu.register plainHash loggedIn defaultRegistry (js "2024-02-02")
         (js "alice") (js "secret") (js "secret") (js "alice@example.com")).1
    = Some {| username := js "alice"; role := js "user";
              email := js "alice@example.com" |}.
Proof.
  assert (H1 : mapHas (AppUsers.users defaultRegistry) (js "alice") = false)
    by by_run.
  assert (H2 : AppUsers.validateUsername (js "alice") = true) by by_run.
  assert (H3 : AppUsers.validatePassword (js "secret") = true) by by_run.
  split; [exact H1|]. split; [exact H2|]. split; [exact H3|].
  exact (proj1 (proj1 (proj2 (X20_menu_registration plainHash loggedIn
                                defaultRegistry (js "2024-02-02") (js "alice")
                                (js "secret") (js "secret")
                                (js "alice@example.com")))
                  eq_refl H1 H2 H3)).
Defined.

Lemma X21_remove_player_witness :
  1 ≤ 2 ≤ Z.of_nat (length (players partGame))
  ∧ players (AppMenu.removePlayer partGame (Some 2)) = [ann 0]
  ∧ length (players (AppMenu.removePlayer partGame (Some 2)))
    = (length (players partGame) - 1)%nat.
Proof.
  assert (H1 : 1 ≤ 2 ≤ Z.of_nat (length (players partGame)))
    by (vm_compute; split; discriminate).
  split; [exact H1|]. split; [reflexivity|].
  exact (proj1 (proj1 (proj2 (X21_remove_player partGame (Some 2))) 2 eq_refl H1)).
Defined.

Lemma X22_report_names_the_winner_witness :
  players (App.game midGame) ≠ []
  ∧ ∃ i w, showWinner (players (App.game midGame)) = Some w
           ∧ AppMenu.topPlayer (App.game midGame) = (name w, score w)
           ∧ lastMaxAt score (players (App.game midGame)) i w.
Proof.
  assert (H1 : players (App.game midGame) ≠ []) by discriminate.
  split; [exact H1|].
  exact (proj2 (X22_report_names_the_winner (App.game midGame)) H1).
Defined.

Lemma X24_part000_registers_more_witness :
  mapKeys (AppUsers.users defaultRegistry)
  = mapKeys (Part000Users.users partRegistry)
  ∧ AppUsers.success
      (AppUsers.registerUser plainHash defaultRegistry (js "2024-02-02")
         (js "alice") (js "secret") (js "alice@example.com") (js "user")).1
    = true
  ∧ Part000Users.success
      (Part000Users.registerUser plainHash partRegistry (js "2024-02-02")
         (js "alice") (js "secret") (js "alice@example.com") (js "user")).1
    = true
  ∧ mapKeys (AppUsers.users
               (AppUsers.registerUser plainHash defaultRegistry
                  (js "2024-02-02") (js "alice") (js "secret")
                  (js "alice@example.com") (js "user")).2)
    = mapKeys (Part000Users.users
                 (Part000Users.registerUser plainHash partRegistry
                    (js "2024-02-02") (js "alice") (js "secret")
                    (js "alice@example.com") (js "user")).2).
Proof.
  assert (H1 : mapKeys (AppUsers.users defaultRegistry)
               = mapKeys (Part000Users.users partRegistry)) by by_run.
  assert (H2 : AppUsers.success
                 (AppUsers.registerUser plainHash defaultRegistry
                    (js "2024-02-02") (js "alice") (js "secret")
                    (js "alice@example.com") (js "user")).1 = true) by by_run.
  split; [exact H1|]. split; [exact H2|].
  exact (proj2 (proj2 (proj2 (X24_part000_registers_more plainHash defaultRegistry
                                partRegistry (js "2024-02-02") (js "alice")
                                (js "secret") (js "alice@example.com")
                                (js "user")))) H1 H2).
Defined.

(** The converse fails: [src/unnamed/part_000] registers the login
    ["ab"], which [src/app.js] refuses as too short. *)
Example short_login_registered :
  Part000Users.success
    (Part000Users.registerUser plainHash partRegistry (js "2024-02-02")
       (js "ab") (js "secret") (js "") (js "user")).1 = true
  ∧ AppUsers.success
      (AppUsers.registerUser plainHash defaultRegistry (js "2024-02-02")
         (js "ab") (js "secret") (js "") (js "user")).1 = false.
Proof. split; vm_compute; reflexivity. Qed.

Lemma X23_finished_game_is_recorded_witness :
  players loggedIn = [] ∧ currentUser loggedIn = Some sampleUser
  ∧ username sampleUser ≠ []
  ∧ (10 ≤ length tenTurns)%nat
  ∧ ∃ l w h c um',
      AppMenu.playGame appGame defaultRegistry tenTurns = Some (l, um')
      ∧ App.announced l = Some w
      ∧ players (App.game l) = [h; c]
      ∧ usernameOf h = Some (username sampleUser)
      ∧ isComputer c = true
      ∧ AppUsers.gamesPlayed (AppUsers.getUserStats um' (username sampleUser))
        = AppUsers.gamesPlayed
            (AppUsers.getUserStats defaultRegistry (username sampleUser)) + 1
      ∧ AppUsers.totalScore (AppUsers.getUserStats um' (username sampleUser))
        = AppUsers.totalScore
            (AppUsers.getUserStats defaultRegistry (username sampleUser))
          + score h
      ∧ AppUsers.bestScore (AppUsers.getUserStats um' (username sampleUser))
        = Z.max (AppUsers.bestScore
                   (AppUsers.getUserStats defaultRegistry
                      (username sampleUser)))
            (score h)
      ∧ ((w = h
          ∧ AppUsers.wins (AppUsers.getUserStats um' (username sampleUser))
            = AppUsers.wins
                (AppUsers.getUserStats defaultRegistry (username sampleUser))
              + 1)
         ∨ (w = c ∧ w ≠ h
            ∧ AppUsers.wins (AppUsers.getUserStats um' (username sampleUser))
              = AppUsers.wins
                  (AppUsers.getUserStats defaultRegistry
                     (username sampleUser))))
      ∧ (w = h ↔ score c < score h)
      ∧ AppUsers.users um' = AppUsers.users defaultRegistry
      ∧ ∀ u', u' ≠ username sampleUser →
          AppUsers.getUserStats um' u'
          = AppUsers.getUserStats defaultRegistry u'.
Proof.
  assert (H3 : username sampleUser ≠ []) by (vm_compute; discriminate).
  assert (H4 : (10 ≤ length tenTurns)%nat) by (vm_compute; lia).
  split; [reflexivity|]. split; [reflexivity|]. split; [exact H3|].
  split; [exact H4|].
  exact (X23_finished_game_is_recorded loggedIn appGame defaultRegistry sampleUser
           (Some 1) (Some 1) (js "Ann") (js "id1") (js "id2") tenTurns
           eq_refl eq_refl H3 appGame_started H4).
Defined.

Lemma X25_user_search_witness :
  adminView ∈ AppUsers.getAllUsers defaultRegistry
  ∧ AppUsers.v_username adminView = [] ++ js "adm" ++ js "in"
  ∧ adminView ∈ AppUsers.searchUsers defaultRegistry (js "adm").
Proof.
  assert (H1 : adminView ∈ AppUsers.getAllUsers defaultRegistry).
  { apply list_elem_of_lookup. exists 0%nat. vm_compute. reflexivity. }
  assert (H2 : AppUsers.v_username adminView = [] ++ js "adm" ++ js "in")
    by by_run.
  split; [exact H1|]. split; [exact H2|].
  apply (proj1 (proj2 (proj2 (X25_user_search defaultRegistry (js "adm"))))).
  split; [exact H1|]. left. exists [], (js "in"). exact H2.
Defined.

Lemma X26_part000_statistics_block_witness :
  List.find isHuman (players partGame) = Some (ann 0)
  ∧ players partGame !! 1%nat = Some (partComputer 0)
  ∧ ∃ um', Part000Menu.statsUpdate partGame partRegistry = Some um'
      ∧ Part000Users.users um' = Part000Users.users partRegistry
      ∧ Part000Users.gamesPlayed (Part000Users.getUserStats um' (js "user"))
        = 1.
Proof.
  split; [reflexivity|]. split; [reflexivity|].
  destruct (proj2 (proj2 (X26_part000_statistics_block partGame partRegistry))
              (ann 0) (partComputer 0) (js "user") eq_refl eq_refl
              ltac:(discriminate) eq_refl)
    as (um' & H1 & H2 & _ & H4 & _).
  exists um'. split; [exact H1|]. split; [exact H2|].
  unfold Part000Users.getUserStats.
  rewrite (H4 Part000Users.noStats) by by_run. reflexivity.
Defined.

End Runs.
